(** * StackBrief: the Substack content-discovery client

    A shallow embedding of [src/substack-api] (newsletter.ts, user.ts,
    category.ts, post.ts, auth.ts, constants.ts) and the properties of
    the specification that concern pagination, handle redirects, the
    category crawl, HTML normalisation and URL parsing; then further
    properties of the same code: the listings, discovery, the caches,
    the category lookup, the cookie header.

    Conventions.
    - JavaScript numbers that the code uses as counters, offsets, limits and
      HTTP statuses are integers of [Z]; [undefined]/[null] is [None],
      except for a property that the code prints, where the two differ.
    - The HTML of a post, which [stripHtml] reads code unit by code unit,
      is a list of UTF-16 code units.  [new URL] and [toLowerCase] are the
      platform's: the embedding takes them as functions.
    - Every [await fetch(...)] is one call of a mocked network.  The mock
      sees the requests issued so far and the new request, and either
      rejects (a timeout or a connection failure) or responds.
    - A method is a computation over the instance it is called on
      ([this]) and the log of issued requests; it ends by returning,
      throwing, or (for the [while] loops, which are embedded with fuel)
      by still running when the fuel is used up.  Mutations of [this]
      made before a throw persist, as they do in JavaScript.
    - Response bodies have the shape that the [as] cast at the call site
      names, are [null], or do not parse; a body of another shape is
      treated like one that does not parse.  A [null] body of a profile
      or a post is stored and returned as the code does it: nothing is
      cached, and reading a property of it throws. *)

From Stdlib Require Import List ZArith Lia Bool String Ascii.
From Stdlib Require Import DecimalString.
Import ListNotations.
Open Scope string_scope.
Open Scope list_scope.
Open Scope Z_scope.

Set Implicit Arguments.

(* ------------------------------------------------------------------ *)
(** ** types.ts *)

Module Types.

Inductive Audience := everyone | only_paid | founding | only_free.

Record PostMetadata := {
  pm_id : Z;
  publication_id : Z;
  title : string;
  slug : string;
  post_date : string;
  audience : Audience;
  canonical_url : string;
  body_html : option (list N);  (* the HTML, as UTF-16 code units *)
  truncated_body_text : option string
}.

(** A property of a JSON object that the code reads and prints: the
    key is missing ([undefined]), holds [null], or holds a value. *)
Inductive Property (A : Type) :=
| Undefined
| Null
| Value (a : A).
Arguments Undefined {A}.
Arguments Null {A}.

(** The value of a property, when it has one. *)
Definition valueOf {A} (p : Property A) : option A :=
  match p with
  | Value a => Some a
  | _ => None
  end.

Record PublicationInfo := {
  pi_id : Z;
  pi_name : string;
  subdomain : Property string;
  custom_domain : option string
}.

Record SubscriptionData := {
  publication : PublicationInfo;
  membership_state : string
}.

Record UserProfile := {
  up_id : Z;
  up_name : string;
  handle : string;
  profile_set_up_at : option string;
  subscriptions : option (list SubscriptionData)
}.

Record CategoryInfo := { ci_id : Z; ci_name : string }.

Record NewsletterData := {
  nd_id : Z;
  nd_name : string;
  base_url : string
}.

Record RecommendationData := {
  recommendedPublication : option PublicationInfo
}.

(** The processed subscription that [getSubscriptions] builds. *)
Record Subscription := {
  s_publication_id : Z;
  s_publication_name : string;
  domain : string;
  s_membership_state : string
}.

(** A cookie of the cookie file: the two fields the code reads. *)
Record Cookie := { cookie_name : string; cookie_value : string }.

End Types.
Import Types.

(* ------------------------------------------------------------------ *)
(** ** constants.ts *)

Module Constants.
Definition DEFAULT_TIMEOUT : Z := 30000.
Definition REQUEST_DELAY : Z := 2000.
Definition DEFAULT_PAGE_SIZE : Z := 15.
Definition MAX_CATEGORY_PAGES : Z := 21.
End Constants.
Import Constants.

(* ------------------------------------------------------------------ *)
(** ** Strings: the methods of [String.prototype] the code calls *)

Module Str.

Definition slash : ascii := "/"%char.

(** truthiness of a string: it is not the empty string *)
Definition nonempty (s : string) : bool :=
  match s with
  | EmptyString => false
  | String _ _ => true
  end.

(** [s.startsWith(p)] *)
Fixpoint startsWith (p s : string) : bool :=
  match p, s with
  | EmptyString, _ => true
  | String a p', String b s' => Ascii.eqb a b && startsWith p' s'
  | String _ _, EmptyString => false
  end.

(** [s.includes(p)] *)
Fixpoint includes (p s : string) : bool :=
  startsWith p s ||
  match s with
  | EmptyString => false
  | String _ s' => includes p s'
  end.

(** [s.endsWith(p)] *)
Fixpoint endsWith (p s : string) : bool :=
  String.eqb p s ||
  match s with
  | EmptyString => false
  | String _ s' => endsWith p s'
  end.

(** [s.slice(1)] *)
Definition slice1 (s : string) : string :=
  match s with
  | EmptyString => EmptyString
  | String _ s' => s'
  end.

(** [s.split(sep)] for a one-character separator: never empty, the
    empty string splits into one empty segment. *)
Fixpoint split (sep : ascii) (s : string) : list string :=
  match s with
  | EmptyString => [EmptyString]
  | String c s' =>
    if Ascii.eqb c sep then EmptyString :: split sep s'
    else match split sep s' with
         | seg :: segs => String c seg :: segs
         | [] => [String c EmptyString]
         end
  end.

(** [s.replace(/^\//, empty)] *)
Definition stripLeadingSlash (s : string) : string :=
  match s with
  | String c s' => if Ascii.eqb c slash then s' else s
  | EmptyString => EmptyString
  end.

(** [s.replace(/\/$/, empty)] *)
Fixpoint stripTrailingSlash (s : string) : string :=
  match s with
  | EmptyString => EmptyString
  | String c EmptyString => if Ascii.eqb c slash then EmptyString else s
  | String c s' => String c (stripTrailingSlash s')
  end.

(** [s.replace(/^\/|\/$/g, empty)]: the scan removes a slash at index 0,
    then a slash at the last index of what follows. *)
Definition stripSlashes (s : string) : string :=
  stripTrailingSlash (stripLeadingSlash s).

(** [a[a.length - 1]] of a non-empty array *)
Definition lastOf (a : list string) : string := last a EmptyString.

(** [[a-z0-9-]] *)
Definition isHostToken (c : ascii) : bool :=
  let n := nat_of_ascii c in
  ((Nat.leb 97 n && Nat.leb n 122) || (Nat.leb 48 n && Nat.leb n 57)
   || Nat.eqb n 45)%bool.

Fixpoint allChars (f : ascii -> bool) (s : string) : bool :=
  match s with
  | EmptyString => true
  | String c s' => f c && allChars f s'
  end.

(** The first [n] characters. *)
Fixpoint take (n : nat) (s : string) : string :=
  match n, s with
  | S n', String c s' => String c (take n' s')
  | _, _ => EmptyString
  end.

End Str.

(* ------------------------------------------------------------------ *)
(** ** The platform's [URL] class

    [new URL(s)] is the platform's parser.  The embedding takes it as a
    function that fails ([None], the constructor throws) or gives the
    three getters the code reads. *)

Record URL := {
  protocol : string;  (* with its colon: "https:" *)
  host : string;
  pathname : string
}.

Definition UrlParser := string -> option URL.

(** ** The platform's [String.prototype.toLowerCase]

    The case conversion of the platform follows the Unicode tables.  The
    embedding takes it as a function on strings. *)

Definition LowerCase := string -> string.

(* ------------------------------------------------------------------ *)
(** ** The mocked network and the computations over it *)

Module Http.

(** Which header set a call sends: [HEADERS], [DISCOVERY_HEADERS], or the
    cookie headers of [SubstackAuth.get]. *)
Inductive HeaderSet := Plain | Discovery | Authenticated.

(** The endpoints of constants.ts and of the URL templates in the
    classes, with the values interpolated into them. *)
Inductive Endpoint :=
| Archive (base : string) (params : list (string * string))
          (offset limit : Z)
    (* `${url}/api/v1/archive?${params}&offset=..&limit=..` *)
| PostBySlug (base : string) (slug : option string)
    (* `${baseUrl}/api/v1/posts/${slug}` *)
| Recommendations (base : string) (pub : Z)
    (* `${url}/api/v1/recommendations/from/${publicationId}` *)
| PublicationSearch (query : string)
    (* API_URLS.PUBLICATION_SEARCH, page 0, limit 25 *)
| UserProfileEp (handle : string)
    (* `${API_URLS.USER_PROFILE}/${handle}/public_profile` *)
| UserPage (handle : string)
    (* `${API_URLS.USER_PAGE}${handle}`, redirect: "follow" *)
| Categories
    (* API_URLS.CATEGORIES *)
| CategoryPublic (id : option Z) (page : Z)
    (* `${API_URLS.CATEGORY_PUBLIC}/${id}/all?page=${page}` *).

Record Request := { via : HeaderSet; target : Endpoint }.

(** What [response.json()] gives; [BInvalid] is a body that does not
    parse, for which [json()] rejects. *)
Inductive Body :=
| BInvalid
| BNull
| BPosts (items : list PostMetadata)
| BPost (p : PostMetadata)
| BProfile (u : UserProfile)
| BCategories (cs : list CategoryInfo)
| BCategoryPage (publications : list NewsletterData) (more : bool)
| BSearch (publications : option (list PublicationInfo))
| BRecommendations (rs : list RecommendationData).

Record Response := {
  status : Z;
  statusText : string;
  (** the path of [response.url], the address reached after redirects;
      [None] when [new URL(response.url)] throws *)
  finalPath : option string;
  body : Body
}.

(** [Response.ok] of the Fetch standard: the status is in 200..299. *)
Definition ok (r : Response) : bool :=
  (200 <=? status r) && (status r <=? 299).

Inductive Outcome :=
| Rejects (reason : string)
| Responds (r : Response).

Definition Log := list Request.
Definition Network := Log -> Request -> Outcome.

Inductive Exn :=
| FetchRejected (reason : string) (* fetch() rejected *)
| JsonRejected                    (* response.json() rejected *)
| InvalidUrl                      (* new URL(..) threw *)
| TypeError                       (* a property of null was read *)
| Error (message : string)        (* throw new Error(message) *).

Inductive Res (A : Type) :=
| Returned (a : A)
| Threw (e : Exn)
| Running.
Arguments Threw {A} e.
Arguments Running {A}.

(** A method of an instance of type [S]. *)
Definition M (S A : Type) := Network -> S -> Log -> Res A * S * Log.

Section Monad.
Context {S : Type}.

Definition ret {A} (a : A) : M S A :=
  fun _ this log => (Returned a, this, log).
Definition throw {A} (e : Exn) : M S A :=
  fun _ this log => (Threw e, this, log).
Definition running {A} : M S A :=
  fun _ this log => (Running, this, log).

Definition bind {A B} (m : M S A) (k : A -> M S B) : M S B :=
  fun net this log =>
    match m net this log with
    | (Returned a, this', log') => k a net this' log'
    | (Threw e, this', log') => (Threw e, this', log')
    | (Running, this', log') => (Running, this', log')
    end.

(** [try { m } catch { h }] *)
Definition catch {A} (m : M S A) (h : Exn -> M S A) : M S A :=
  fun net this log =>
    match m net this log with
    | (Threw e, this', log') => h e net this' log'
    | r => r
    end.

(** reading and assigning the fields of [this] *)
Definition self : M S S :=
  fun _ this log => (Returned this, this, log).
Definition assign (f : S -> S) : M S unit :=
  fun _ this log => (Returned tt, f this, log).

(** [await fetch(..)]: one call of the network, appended to the log. *)
Definition fetch (req : Request) : M S Response :=
  fun net this log =>
    match net log req with
    | Rejects reason => (Threw (FetchRejected reason), this, log ++ [req])
    | Responds r => (Returned r, this, log ++ [req])
    end.

(** [await delay(ms)]: time passes, nothing else. *)
Definition delay (ms : Z) : M S unit := ret tt.

(** [await response.json()] *)
Definition json (r : Response) : M S Body :=
  match body r with
  | BInvalid => throw JsonRejected
  | b => ret b
  end.

(** a method call on another object [o], which the caller does not
    keep: [await o.m()] *)
Definition call {O A} (o : O) (m : M O A) : M S A :=
  fun net this log =>
    match m net o log with
    | (r, _, log') => (r, this, log')
    end.

(** a constructor or a pure function that may throw *)
Definition lift {A} (r : option A) (e : Exn) : M S A :=
  match r with
  | Some a => ret a
  | None => throw e
  end.

(** [data.f] for a [data] that may be [null]: reading a property of
    [null] throws. *)
Definition field {A B} (data : option A) (f : A -> B) : M S B :=
  match data with
  | Some d => ret (f d)
  | None => throw TypeError
  end.

End Monad.

(** `${n}` for an integer. *)
Definition show (n : Z) : string := NilZero.string_of_int (Z.to_int n).

End Http.
Import Http.

Declare Scope js_scope.
Notation "x <- m ;; k" := (bind m (fun x => k))
  (at level 61, m at next level, right associativity) : js_scope.
Notation "m ;;; k" := (bind m (fun _ => k))
  (at level 61, right associativity) : js_scope.
Open Scope js_scope.

(** [for (const x of xs) ...] collecting results, and [xs.map(f)] for an
    [f] that may throw. *)
Fixpoint mapM {S A B} (f : A -> M S B) (xs : list A) : M S (list B) :=
  match xs with
  | [] => ret []
  | x :: xs' => y <- f x ;; ys <- mapM f xs' ;; ret (y :: ys)
  end.

(* ------------------------------------------------------------------ *)
(** ** auth.ts (the part the clients read) *)

Record SubstackAuth := {
  cookies : list (string * string);
  authenticated : bool
}.

(** [this.auth?.authenticated] *)
Definition auth_on (auth : option SubstackAuth) : bool :=
  match auth with
  | Some a => authenticated a
  | None => false
  end.

(** [SubstackAuth.get(url)] *)
Definition auth_get {S} (ep : Endpoint) : M S Response :=
  fetch {| via := Authenticated; target := ep |}.

(** JavaScript truthiness of an optional number and of an optional
    string. *)
Definition truthy (n : option Z) : bool :=
  match n with
  | Some v => negb (v =? 0)
  | None => false
  end.

Definition truthyStr (s : option string) : bool :=
  match s with
  | Some v => Str.nonempty v
  | None => false
  end.

(** ... and of an optional string given by its code units. *)
Definition truthyUnits (s : option (list N)) : bool :=
  match s with
  | Some (_ :: _) => true
  | _ => false
  end.

(* ------------------------------------------------------------------ *)
(** ** auth.ts: the cookie file and the [Cookie] header *)

Module Auth.

(** [Map.prototype.set] on the entries in insertion order: a key that
    is present keeps its place and takes the new value, a new key goes
    to the end. *)
Fixpoint mapSet (k v : string) (m : list (string * string))
    : list (string * string) :=
  match m with
  | [] => [(k, v)]
  | (k', v') :: m' =>
    if String.eqb k' k then (k', v) :: m' else (k', v') :: mapSet k v m'
  end.

(** What the cookie file is: missing, unreadable (or not JSON), or an
    array of cookies. *)
Inductive CookieFile :=
| Missing
| Unreadable
| Holds (cookies : list Cookie).

(** [loadCookies(cookiesPath)] *)
Definition loadCookies (file : CookieFile) (a : SubstackAuth)
    : SubstackAuth * bool :=
  match file with
  | Holds cs =>
    ({| cookies := fold_left (fun m cookie =>
                                mapSet (cookie_name cookie) (cookie_value cookie) m)
                             cs (cookies a);
        authenticated := true |}, true)
  | _ => (a, false)
  end.

(** [new SubstackAuth(cookiesPath)] *)
Definition new (file : CookieFile) : SubstackAuth :=
  let a := {| cookies := []; authenticated := false |} in
  match file with
  | Missing => a
  | _ => fst (loadCookies file a)
  end.

(** [getCookieHeader()] *)
Definition getCookieHeader (a : SubstackAuth) : string :=
  String.concat "; "
    (map (fun entry => (fst entry ++ "=" ++ snd entry)%string) (cookies a)).

End Auth.

(* ------------------------------------------------------------------ *)
(** ** post.ts: the [Post] class *)

Module Post.

Record t := {
  url : string;
  baseUrl : string;
  slug : option string;
  endpoint : Endpoint;
  auth : option SubstackAuth;
  postData : option PostMetadata
}.

(** The constructor's body once [new URL(url)] has returned
    [parsedUrl]. *)
Definition build (url : string) (parsedUrl : URL)
    (auth : option SubstackAuth) : t :=
  let baseUrl := (protocol parsedUrl ++ "//" ++ host parsedUrl)%string in
  let pathParts := Str.split Str.slash (Str.stripSlashes (pathname parsedUrl)) in
  let slug := if (0 <? Z.of_nat (List.length pathParts))
              then Some (Str.lastOf pathParts) else None in
  {| url := url; baseUrl := baseUrl; slug := slug;
     endpoint := PostBySlug baseUrl slug;
     auth := auth; postData := None |}.

(** [new Post(url, auth)] *)
Definition new (parse : UrlParser) (url : string)
    (auth : option SubstackAuth) : option t :=
  match parse url with
  | Some parsedUrl => Some (build url parsedUrl auth)
  | None => None
  end.

(** What the cast [(await response.json()) as PostMetadata] holds: the
    post, or [null] when the body is the JSON [null]. *)
Definition as_post {S} (b : Body) : M S (option PostMetadata) :=
  match b with
  | BPost p => ret (Some p)
  | BNull => ret None
  | _ => throw JsonRejected
  end.

Definition set_postData (d : option PostMetadata) (p : t) : t :=
  {| url := url p; baseUrl := baseUrl p; slug := slug p;
     endpoint := endpoint p; auth := auth p; postData := d |}.

(** [fetchPostData(forceRefresh)] *)
Definition fetchPostData (forceRefresh : bool)
    : M t (option PostMetadata) :=
  this <- self ;;
  match postData this, forceRefresh with
  | Some data, false => ret (Some data)
  | _, _ =>
      response <- (if auth_on (auth this) then auth_get (endpoint this)
                   else fetch {| via := Plain; target := endpoint this |}) ;;
      if negb (ok response) then
        throw (Error ("Failed to fetch post data: " ++ show (status response)
                        ++ " " ++ statusText response)%string)
      else
        b <- json response ;;
        data <- as_post b ;;
        assign (set_postData data) ;;;
        ret data
  end.

(** [getPublicationId()] *)
Definition getPublicationId : M t Z :=
  data <- fetchPostData false ;;
  field data publication_id.

(** [getMetadata(forceRefresh)] *)
Definition getMetadata (forceRefresh : bool)
    : M t (option PostMetadata) :=
  fetchPostData forceRefresh.

(** [getContent(forceRefresh)]; the warning about a paywalled post
    goes to the console and changes nothing else. *)
Definition getContent (forceRefresh : bool) : M t (option (list N)) :=
  data <- fetchPostData forceRefresh ;;
  content <- field data body_html ;;
  ret content.

(** [getPreviewText()] *)
Definition getPreviewText : M t (option string) :=
  data <- fetchPostData false ;;
  field data truncated_body_text.

(** [isPaywalled()] *)
Definition isPaywalled : M t bool :=
  data <- fetchPostData false ;;
  field data (fun d => match audience d with only_paid => true | _ => false end).

End Post.

(* ------------------------------------------------------------------ *)
(** ** newsletter.ts *)

Module Newsletter.

Definition len {A} (l : list A) : Z := Z.of_nat (List.length l).

(** [a.slice(0, e)] for an integer [e]: a negative [e] counts from the
    end. *)
Definition slice0 {A} (a : list A) (e : Z) : list A :=
  let e' := if e <? 0 then Z.max (len a + e) 0 else Z.min e (len a) in
  firstn (Z.to_nat e') a.

(** [hostFromUrl(url)]; [None] when [new URL] throws. *)
Definition hostFromUrl (parse : UrlParser) (lower : LowerCase)
    (url : string) : option string :=
  let fullUrl := if Str.includes "://" url then url
                 else ("https://" ++ url)%string in
  match parse fullUrl with
  | Some parsedUrl => Some (lower (host parsedUrl))
  | None => None
  end.

(** The first loop of [matchPublication]: exact custom domain, then
    subdomain. *)
Fixpoint matchExact {S} (parse : UrlParser) (lower : LowerCase)
    (host : string) (publications : list PublicationInfo)
    : M S (option PublicationInfo) :=
  match publications with
  | [] => ret None
  | item :: rest =>
    byDomain <- match custom_domain item with
                | Some d =>
                  if Str.nonempty d then
                    h <- lift (hostFromUrl parse lower d) InvalidUrl ;;
                    ret (String.eqb h host)
                  else ret false
                | None => ret false
                end ;;
    if byDomain then ret (Some item)
    else match valueOf (subdomain item) with
         | Some sub =>
           if Str.nonempty sub &&
              String.eqb (lower sub ++ ".substack.com")%string host
           then ret (Some item)
           else matchExact parse lower host rest
         | None => matchExact parse lower host rest
         end
  end.

(** [host.match(/^([a-z0-9-]+)\.substack\.com$/)], the captured group *)
Definition substackToken (host : string) : option string :=
  let suffix := ".substack.com" in
  if Str.endsWith suffix host then
    let sub := Str.take (String.length host - String.length suffix) host in
    if Str.nonempty sub && Str.allChars Str.isHostToken sub
    then Some sub else None
  else None.

(** The second loop of [matchPublication]: the subdomain token. *)
Fixpoint matchLoose (lower : LowerCase) (sub : string)
    (publications : list PublicationInfo) : option PublicationInfo :=
  match publications with
  | [] => None
  | item :: rest =>
    match valueOf (subdomain item) with
    | Some s => if String.eqb (lower s) sub then Some item
                else matchLoose lower sub rest
    | None => matchLoose lower sub rest
    end
  end.

(** [matchPublication(searchResults, host)] *)
Definition matchPublication {S} (parse : UrlParser) (lower : LowerCase)
    (searchResults : option (list PublicationInfo)) (host : string)
    : M S (option PublicationInfo) :=
  let publications := match searchResults with
                      | Some ps => ps
                      | None => []
                      end in
  exact <- matchExact parse lower host publications ;;
  match exact with
  | Some item => ret (Some item)
  | None =>
    match substackToken host with
    | Some sub => ret (matchLoose lower sub publications)
    | None => ret None
    end
  end.

Record t := { url : string; auth : option SubstackAuth }.

(** [new Newsletter(url, auth)] *)
Definition new (url : string) (auth : option SubstackAuth) : t :=
  {| url := if Str.includes "://" url then url
            else ("https://" ++ url)%string;
     auth := auth |}.

(** [makeRequest(endpoint)] *)
Definition makeRequest (ep : Endpoint) : M t Response :=
  this <- self ;;
  response <- (if auth_on (auth this) then auth_get ep
               else fetch {| via := Plain; target := ep |}) ;;
  delay REQUEST_DELAY ;;;
  ret response.

(** The items of an archive page: [null], or a list. *)
Definition as_items {S} (b : Body) : M S (option (list PostMetadata)) :=
  match b with
  | BNull => ret None
  | BPosts items => ret (Some items)
  | _ => throw JsonRejected
  end.

(** The [while (moreItems)] loop of [fetchPaginatedPosts]; one unit of
    fuel per iteration.  [results] and [offset] are the loop's
    variables. *)
Fixpoint paginate (fuel : nat) (params : list (string * string))
    (limit : option Z) (pageSize : Z)
    (results : list PostMetadata) (offset : Z)
    : M t (list PostMetadata) :=
  match fuel with
  | O => running
  | S fuel' =>
    this <- self ;;
    response <- makeRequest (Archive (url this) params offset pageSize) ;;
    if negb (ok response) then
      throw (Error ("Failed to fetch posts: " ++ show (status response)
                      ++ " " ++ statusText response)%string)
    else
      b <- json response ;;
      items <- as_items b ;;
      match items with
      | None => ret results
      | Some [] => ret results
      | Some items =>
        let results := results ++ items in
        let offset := offset + pageSize in
        match limit with
        | Some l =>
          if negb (l =? 0) && (l <=? len results)
          then ret (slice0 results l)
          else if len items <? pageSize then ret results
          else paginate fuel' params limit pageSize results offset
        | None =>
          if len items <? pageSize then ret results
          else paginate fuel' params limit pageSize results offset
        end
      end
  end.

(** [fetchPaginatedPosts(params, limit, pageSize)] *)
Definition fetchPaginatedPosts (fuel : nat)
    (params : list (string * string)) (limit : option Z) (pageSize : Z)
    : M t (list PostMetadata) :=
  paginate fuel params limit pageSize [] 0.

(** [getPostsMetadata(sorting, limit)] *)
Definition getPostsMetadata (fuel : nat) (sorting : string)
    (limit : option Z) : M t (list PostMetadata) :=
  fetchPaginatedPosts fuel [("sort", sorting)] limit DEFAULT_PAGE_SIZE.

(** [getPosts(sorting, limit)] *)
Definition getPosts (fuel : nat) (parse : UrlParser) (sorting : string)
    (limit : option Z) : M t (list Post.t) :=
  postData <- fetchPaginatedPosts fuel [("sort", sorting)] limit
                DEFAULT_PAGE_SIZE ;;
  this <- self ;;
  mapM (fun item =>
          lift (Post.new parse (canonical_url item) (auth this)) InvalidUrl)
       postData.

Definition as_search {S} (b : Body) : M S (option (list PublicationInfo)) :=
  match b with
  | BSearch ps => ret ps
  | _ => throw JsonRejected
  end.

(** [resolvePublicationId()] *)
Definition resolvePublicationId (parse : UrlParser) (lower : LowerCase)
    : M t (option Z) :=
  this <- self ;;
  host <- lift (hostFromUrl parse lower (url this)) InvalidUrl ;;
  let q := hd EmptyString (Str.split ":"%char host) in
  catch
    (response <- fetch {| via := Discovery; target := PublicationSearch q |} ;;
     if negb (ok response) then ret None
     else
       b <- json response ;;
       data <- as_search b ;;
       found <- matchPublication parse lower data host ;;
       ret (option_map pi_id found))
    (fun _ => ret None).

Definition as_recommendations {S} (b : Body) : M S (list RecommendationData) :=
  match b with
  | BNull => ret []
  | BRecommendations rs => ret rs
  | _ => throw JsonRejected
  end.

(** The [for (const rec of recommendations || [])] loop. *)
Fixpoint recommendedUrls (recommendations : list RecommendationData)
    : list string :=
  match recommendations with
  | [] => []
  | rec :: rest =>
    match recommendedPublication rec with
    | Some pub =>
      if truthyStr (custom_domain pub) then
        match custom_domain pub with
        | Some d => d :: recommendedUrls rest
        | None => recommendedUrls rest
        end
      else if truthyStr (valueOf (subdomain pub)) then
        match valueOf (subdomain pub) with
        | Some s => (s ++ ".substack.com")%string :: recommendedUrls rest
        | None => recommendedUrls rest
        end
      else recommendedUrls rest
    | None => recommendedUrls rest
    end
  end.

(** The block of [getRecommendations] under "Graceful fallback to
    post-derived path": the [if (!publicationId) { try .. catch .. }]. *)
Definition postDerivedId (fuel : nat) (parse : UrlParser)
    (publicationId : option Z) : M t (option Z) :=
  if negb (truthy publicationId) then
    catch
      (posts <- getPosts fuel parse "new" (Some 1) ;;
       match posts with
       | first :: _ =>
         pid <- call first Post.getPublicationId ;;
         ret (Some pid)
       | [] => ret publicationId
       end)
      (fun _ => ret None)
  else ret publicationId.

(** [getRecommendations()] *)
Definition getRecommendations (fuel : nat) (parse : UrlParser)
    (lower : LowerCase) : M t (list t) :=
  publicationId <- resolvePublicationId parse lower ;;
  publicationId <- postDerivedId fuel parse publicationId ;;
  match publicationId with
  | Some pid =>
    if pid =? 0 then ret []
    else
      this <- self ;;
      response <- makeRequest (Recommendations (url this) pid) ;;
      if negb (ok response) then ret []
      else
        b <- json response ;;
        recommendations <- as_recommendations b ;;
        ret (map (fun u => new u (auth this))
                 (recommendedUrls recommendations))
  | None => ret []
  end.

(** [postData.map((item) => new Post(item.canonical_url, this.auth))] *)
Definition toPosts (parse : UrlParser) (postData : list PostMetadata)
    : M t (list Post.t) :=
  this <- self ;;
  mapM (fun item =>
          lift (Post.new parse (canonical_url item) (auth this)) InvalidUrl)
       postData.

(** [searchPosts(query, limit)] *)
Definition searchPosts (fuel : nat) (parse : UrlParser) (query : string)
    (limit : option Z) : M t (list Post.t) :=
  postData <- fetchPaginatedPosts fuel [("sort", "new"); ("search", query)]
                limit DEFAULT_PAGE_SIZE ;;
  toPosts parse postData.

(** [getPodcasts(limit)] *)
Definition getPodcasts (fuel : nat) (parse : UrlParser) (limit : option Z)
    : M t (list Post.t) :=
  postData <- fetchPaginatedPosts fuel [("sort", "new"); ("type", "podcast")]
                limit DEFAULT_PAGE_SIZE ;;
  toPosts parse postData.

End Newsletter.

(* ------------------------------------------------------------------ *)
(** ** user.ts *)

Module User.

(** [resolveHandleRedirect(oldHandle)] *)
Definition resolveHandleRedirect {S} (oldHandle : string)
    : M S (option string) :=
  catch
    (response <- fetch {| via := Plain; target := UserPage oldHandle |} ;;
     if ok response then
       pathname <- lift (finalPath response) InvalidUrl ;;
       let pathParts := Str.split Str.slash (Str.stripSlashes pathname) in
       match pathParts with
       | first :: _ =>
         if Str.startsWith "@" first then
           let newHandle := Str.slice1 first in
           if Str.nonempty newHandle && negb (String.eqb newHandle oldHandle)
           then ret (Some newHandle)
           else ret None
         else ret None
       | [] => ret None
       end
     else ret None)
    (fun _ => ret None).

Record t := {
  username : string;
  originalUsername : string;
  followRedirects : bool;
  endpoint : Endpoint;
  userData : option UserProfile;
  redirectAttempted : bool
}.

(** [new User(username, followRedirects)] *)
Definition new (username : string) (followRedirects : bool) : t :=
  {| username := username; originalUsername := username;
     followRedirects := followRedirects;
     endpoint := UserProfileEp username;
     userData := None; redirectAttempted := false |}.

Definition set_userData (d : option UserProfile) (u : t) : t :=
  {| username := username u; originalUsername := originalUsername u;
     followRedirects := followRedirects u; endpoint := endpoint u;
     userData := d; redirectAttempted := redirectAttempted u |}.

Definition set_redirectAttempted (b : bool) (u : t) : t :=
  {| username := username u; originalUsername := originalUsername u;
     followRedirects := followRedirects u; endpoint := endpoint u;
     userData := userData u; redirectAttempted := b |}.

Definition withHandle (newHandle : string) (u : t) : t :=
  {| username := newHandle; originalUsername := originalUsername u;
     followRedirects := followRedirects u;
     endpoint := UserProfileEp newHandle;
     userData := userData u; redirectAttempted := redirectAttempted u |}.

(** [updateHandle(newHandle)] *)
Definition updateHandle (newHandle : string) : M t unit :=
  assign (withHandle newHandle).

(** What the cast [(await response.json()) as UserProfile] holds: the
    profile, or [null] when the body is the JSON [null]. *)
Definition as_profile {S} (b : Body) : M S (option UserProfile) :=
  match b with
  | BProfile u => ret (Some u)
  | BNull => ret None
  | _ => throw JsonRejected
  end.

(** [fetchUserData(forceRefresh)]; [retried] holds what the retry after
    a redirect returned, when it returned. *)
Definition fetchUserData (forceRefresh : bool)
    : M t (option UserProfile) :=
  this <- self ;;
  match userData this, forceRefresh with
  | Some data, false => ret (Some data)
  | _, _ =>
    response <- fetch {| via := Plain; target := endpoint this |} ;;
    if ok response then
      b <- json response ;;
      data <- as_profile b ;;
      assign (set_userData data) ;;;
      ret data
    else
      retried <-
      (if (status response =? 404) && followRedirects this
          && negb (redirectAttempted this)
       then
         assign (set_redirectAttempted true) ;;;
         newHandle <- resolveHandleRedirect (username this) ;;
         if truthyStr newHandle then
           match newHandle with
           | Some h =>
             updateHandle h ;;;
             this' <- self ;;
             retryResponse <- fetch {| via := Plain;
                                       target := endpoint this' |} ;;
             if ok retryResponse then
               b <- json retryResponse ;;
               data <- as_profile b ;;
               assign (set_userData data) ;;;
               ret (Some data)
             else
               throw (Error ("Failed to fetch user data even after redirect to "
                               ++ h ++ ": "
                               ++ show (status retryResponse))%string)
           | None => ret None
           end
         else ret None
       else ret None) ;;
      match retried with
      | Some data => ret data
      | None =>
        throw (Error ("Failed to fetch user data: "
                        ++ show (status response) ++ " "
                        ++ statusText response)%string)
      end
  end.

(** [getRawData(forceRefresh)]: the public entry to the profile *)
Definition getRawData (forceRefresh : bool)
    : M t (option UserProfile) :=
  fetchUserData forceRefresh.

(** [getId()], [getName()], [getProfileSetUpAt()] *)
Definition getId : M t Z :=
  data <- fetchUserData false ;;
  field data up_id.

Definition getName : M t string :=
  data <- fetchUserData false ;;
  field data up_name.

Definition getProfileSetUpAt : M t (option string) :=
  data <- fetchUserData false ;;
  field data profile_set_up_at.

(** [get wasRedirected()] *)
Definition wasRedirected (u : t) : bool :=
  negb (String.eqb (username u) (originalUsername u)).

(** `${pub.subdomain}` for a subdomain that may be missing. *)
Definition showSubdomain (s : Property string) : string :=
  match s with
  | Value v => v
  | Null => "null"
  | Undefined => "undefined"
  end.

(** The body of the loop of [getSubscriptions]. *)
Definition subscriptionOf (sub : SubscriptionData) : Subscription :=
  let pub := publication sub in
  let domain :=
    match custom_domain pub with
    | Some d => if Str.nonempty d then d
                else (showSubdomain (subdomain pub) ++ ".substack.com")%string
    | None => (showSubdomain (subdomain pub) ++ ".substack.com")%string
    end in
  {| s_publication_id := pi_id pub;
     s_publication_name := pi_name pub;
     domain := domain;
     s_membership_state := membership_state sub |}.

(** [getSubscriptions()] *)
Definition getSubscriptions : M t (list Subscription) :=
  data <- fetchUserData false ;;
  subs <- field data subscriptions ;;
  ret (map subscriptionOf
           (match subs with
            | Some subs => subs
            | None => []
            end)).

End User.

(* ------------------------------------------------------------------ *)
(** ** category.ts *)

Module Category.

Definition as_categories {S} (b : Body) : M S (list CategoryInfo) :=
  match b with
  | BCategories cs => ret cs
  | _ => throw JsonRejected
  end.

(** [listAllCategories()] *)
Definition listAllCategories {S} : M S (list CategoryInfo) :=
  response <- fetch {| via := Plain; target := Categories |} ;;
  if negb (ok response) then
    throw (Error ("Failed to fetch categories: " ++ show (status response)
                    ++ " " ++ statusText response)%string)
  else
    b <- json response ;;
    data <- as_categories b ;;
    ret (map (fun item => {| ci_id := ci_id item; ci_name := ci_name item |})
             data).

Record t := {
  name : option string;
  id : option Z;
  newslettersData : option (list NewsletterData)
}.

(** [new Category({name, id})]; [None] when neither is given and the
    constructor throws. *)
Definition new (name : option string) (id : option Z) : option t :=
  match name, id with
  | None, None => None
  | _, _ => Some {| name := name; id := id; newslettersData := None |}
  end.

Definition set_id (i : option Z) (c : t) : t :=
  {| name := name c; id := i; newslettersData := newslettersData c |}.
Definition set_name (n : option string) (c : t) : t :=
  {| name := n; id := id c; newslettersData := newslettersData c |}.
Definition set_newslettersData (d : option (list NewsletterData)) (c : t)
    : t :=
  {| name := name c; id := id c; newslettersData := d |}.

Definition eqOptStr (a : option string) (b : string) : bool :=
  match a with
  | Some s => String.eqb s b
  | None => false
  end.

Definition eqOptZ (a : option Z) (b : Z) : bool :=
  match a with
  | Some s => s =? b
  | None => false
  end.

(** [getIdFromName()] *)
Definition getIdFromName : M t unit :=
  categories <- listAllCategories ;;
  this <- self ;;
  match find (fun cat => eqOptStr (name this) (ci_name cat)) categories with
  | None =>
    throw (Error ("Category name '"
                    ++ match name this with Some n => n | None => "null" end
                    ++ "' not found")%string)
  | Some found => assign (set_id (Some (ci_id found)))
  end.

(** [getNameFromId()] *)
Definition getNameFromId : M t unit :=
  categories <- listAllCategories ;;
  this <- self ;;
  match find (fun cat => eqOptZ (id this) (ci_id cat)) categories with
  | None =>
    throw (Error ("Category ID "
                    ++ match id this with Some i => show i | None => "null" end
                    ++ " not found")%string)
  | Some found => assign (set_name (Some (ci_name found)))
  end.

(** [init()] *)
Definition init : M t unit :=
  this <- self ;;
  if truthyStr (name this) && match id this with None => true | _ => false end
  then getIdFromName
  else if truthy (id this) && match name this with None => true | _ => false end
  then getNameFromId
  else ret tt.

Definition as_page {S} (b : Body) : M S (list NewsletterData * bool) :=
  match b with
  | BCategoryPage publications more => ret (publications, more)
  | _ => throw JsonRejected
  end.

(** The [while (more && pageNum <= MAX_CATEGORY_PAGES)] loop of
    [fetchNewslettersData]; one unit of fuel per iteration. *)
Fixpoint crawl (fuel : nat) (allNewsletters : list NewsletterData)
    (pageNum : Z) (more : bool) : M t (list NewsletterData) :=
  if more && (pageNum <=? MAX_CATEGORY_PAGES) then
    match fuel with
    | O => running
    | S fuel' =>
      this <- self ;;
      response <- fetch {| via := Plain;
                           target := CategoryPublic (id this) pageNum |} ;;
      if negb (ok response) then
        throw (Error ("Failed to fetch category newsletters: "
                        ++ show (status response) ++ " "
                        ++ statusText response)%string)
      else
        delay REQUEST_DELAY ;;;
        b <- json response ;;
        data <- as_page b ;;
        crawl fuel' (allNewsletters ++ fst data) (pageNum + 1) (snd data)
    end
  else ret allNewsletters.

(** [fetchNewslettersData(forceRefresh)] *)
Definition fetchNewslettersData (fuel : nat) (forceRefresh : bool)
    : M t (list NewsletterData) :=
  this <- self ;;
  match newslettersData this, forceRefresh with
  | Some data, false => ret data
  | _, _ =>
    (match id this with
     | None => init
     | Some _ => ret tt
     end) ;;;
    allNewsletters <- crawl fuel [] 0 true ;;
    assign (set_newslettersData (Some allNewsletters)) ;;;
    ret allNewsletters
  end.

(** [getNewsletterUrls()] *)
Definition getNewsletterUrls (fuel : nat) : M t (list string) :=
  data <- fetchNewslettersData fuel false ;;
  ret (map base_url data).

(** [getNewsletters()] *)
Definition getNewsletters (fuel : nat) : M t (list Newsletter.t) :=
  urls <- getNewsletterUrls fuel ;;
  ret (map (fun url => Newsletter.new url None) urls).

(** [getNewsletterMetadata()] *)
Definition getNewsletterMetadata (fuel : nat) : M t (list NewsletterData) :=
  fetchNewslettersData fuel false.

(** [refreshData()] *)
Definition refreshData (fuel : nat) : M t unit :=
  fetchNewslettersData fuel true ;;;
  ret tt.

End Category.

(* ------------------------------------------------------------------ *)
(** ** post.ts: [stripHtml]

    A JavaScript string is a sequence of UTF-16 code units.  Each regular
    expression of the function is a matcher: applied at a position, it
    says whether the expression matches there, and if so gives the
    replacement and what follows the match.  [replace] is the global scan
    of [String.prototype.replace] with a [g] flag (and of [replaceAll]):
    leftmost match first, matches do not overlap, scanning resumes after
    a match.  None of the expressions matches the empty string. *)

Module Html.
Open Scope N_scope.

Definition jsstring := list N.

Definition lit (s : string) : jsstring :=
  map N_of_ascii (list_ascii_of_string s).

Definition LF : N := 10.
Definition SP : N := 32.
Definition LT : N := 60.
Definition GT : N := 62.
Definition AMP : N := 38.

(** [\s], which is also the set that [trim] removes: the white space
    and line terminator code points of ECMAScript *)
Definition isSpace (c : N) : bool :=
  (c =? 9) || (c =? 10) || (c =? 11) || (c =? 12) || (c =? 13)
  || (c =? 32) || (c =? 160) || (c =? 5760)
  || ((8192 <=? c) && (c <=? 8202))
  || (c =? 8232) || (c =? 8233) || (c =? 8239) || (c =? 8287)
  || (c =? 12288) || (c =? 65279).

(** [[ \t]] *)
Definition isSpaceTab (c : N) : bool := (c =? 32) || (c =? 9).

(** [\d] *)
Definition isDigit (c : N) : bool := (48 <=? c) && (c <=? 57).

(** [[0-9a-fA-F]] *)
Definition isHex (c : N) : bool :=
  isDigit c || ((97 <=? c) && (c <=? 102)) || ((65 <=? c) && (c <=? 70)).

(** the [i] flag (without [u]): only ASCII letters fold onto ASCII
    letters *)
Definition fold (c : N) : N :=
  if (65 <=? c) && (c <=? 90) then c + 32 else c.

Definition sameChar (ci : bool) (a b : N) : bool :=
  if ci then fold a =? fold b else a =? b.

(** what follows the literal [pat] at the start of [s] *)
Fixpoint after (ci : bool) (pat s : jsstring) : option jsstring :=
  match pat, s with
  | [], _ => Some s
  | p :: pat', c :: s' =>
    if sameChar ci p c then after ci pat' s' else None
  | _ :: _, [] => None
  end.

(** [[\s\S]*?] followed by the literal [pat]: what follows the first
    occurrence of [pat] in [s] *)
Fixpoint afterFirst (ci : bool) (pat s : jsstring) : option jsstring :=
  match after ci pat s with
  | Some r => Some r
  | None =>
    match s with
    | [] => None
    | _ :: s' => afterFirst ci pat s'
    end
  end.

Fixpoint dropWhile (f : N -> bool) (s : jsstring) : jsstring :=
  match s with
  | c :: s' => if f c then dropWhile f s' else s
  | [] => []
  end.

Fixpoint takeWhile (f : N -> bool) (s : jsstring) : jsstring :=
  match s with
  | c :: s' => if f c then c :: takeWhile f s' else []
  | [] => []
  end.

Definition Matcher := jsstring -> option (jsstring * jsstring).

Fixpoint scan (fuel : nat) (m : Matcher) (s : jsstring) : jsstring :=
  match fuel with
  | O => s
  | S fuel' =>
    match m s with
    | Some (replacement, rest) => replacement ++ scan fuel' m rest
    | None =>
      match s with
      | [] => []
      | c :: s' => c :: scan fuel' m s'
      end
    end
  end.

(** [s.replace(/../g, ..)]; every step of the scan consumes a code
    unit, so the fuel is never used up. *)
Definition replace (m : Matcher) (s : jsstring) : jsstring :=
  scan (S (List.length s)) m s.

(** [/<NAME[^>]*>[\s\S]*?<\/NAME>/gi], replaced by the empty string *)
Definition block (name : string) : Matcher := fun s =>
  match after true (lit ("<" ++ name)) s with
  | Some s1 =>
    match dropWhile (fun c => negb (c =? GT)) s1 with
    | _ :: s2 =>
      match afterFirst true (lit ("</" ++ name ++ ">")) s2 with
      | Some rest => Some ([], rest)
      | None => None
      end
    | [] => None
    end
  | None => None
  end.

(** [h[1-6]] under the [i] flag *)
Definition heading (s : jsstring) : option jsstring :=
  match after true (lit "h") s with
  | Some (d :: s') => if (49 <=? d) && (d <=? 54) then Some s' else None
  | _ => None
  end.

(** the alternatives of a group in order, each followed by [">"] *)
Fixpoint firstAlt (alts : list (jsstring -> option jsstring))
    (s : jsstring) : option jsstring :=
  match alts with
  | [] => None
  | alt :: alts' =>
    match alt s with
    | Some s' =>
      match after false [GT] s' with
      | Some rest => Some rest
      | None => firstAlt alts' s
      end
    | None => firstAlt alts' s
    end
  end.

(** [/<\/(p|div|h[1-6]|li|tr|blockquote)>/gi], replaced by ["\n"] *)
Definition closeBlock : Matcher := fun s =>
  match after false (lit "</") s with
  | Some s1 =>
    match firstAlt [after true (lit "p"); after true (lit "div"); heading;
                    after true (lit "li"); after true (lit "tr");
                    after true (lit "blockquote")] s1 with
    | Some rest => Some ([LF], rest)
    | None => None
    end
  | None => None
  end.

(** [\/?] *)
Definition optSlash (s : jsstring) : jsstring :=
  match s with
  | c :: s' => if c =? 47 then s' else s
  | [] => []
  end.

(** [/<br\s*\/?>/gi], replaced by ["\n"] *)
Definition br : Matcher := fun s =>
  match after true (lit "<br") s with
  | Some s1 =>
    match after false [GT] (optSlash (dropWhile isSpace s1)) with
    | Some rest => Some ([LF], rest)
    | None => None
    end
  | None => None
  end.

(** [/<\/?(ul|ol)>/gi], replaced by ["\n"] *)
Definition listTag : Matcher := fun s =>
  match after false [LT] s with
  | Some s1 =>
    match firstAlt [after true (lit "ul"); after true (lit "ol")]
                   (optSlash s1) with
    | Some rest => Some ([LF], rest)
    | None => None
    end
  | None => None
  end.

(** [/<[^>]+>/g], replaced by the empty string *)
Definition anyTag : Matcher := fun s =>
  match s with
  | c :: d :: s' =>
    if (c =? LT) && negb (d =? GT) then
      match dropWhile (fun c => negb (c =? GT)) s' with
      | _ :: rest => Some ([], rest)
      | [] => None
      end
    else None
  | _ => None
  end.

(** [text.replaceAll(entity, char)] *)
Definition literal (entity : string) (char : jsstring) : Matcher := fun s =>
  match after false (lit entity) s with
  | Some rest => Some (char, rest)
  | None => None
  end.

Definition entities : list (string * jsstring) :=
  [ ("&nbsp;", [32]); ("&amp;", [38]); ("&lt;", [60]); ("&gt;", [62]);
    ("&quot;", [34]); ("&#39;", [39]); ("&apos;", [39]);
    ("&mdash;", [8212]); ("&ndash;", [8211]); ("&hellip;", [8230]);
    ("&bull;", [8226]); ("&copy;", [169]); ("&reg;", [174]);
    ("&trade;", [8482]); ("&euro;", [8364]); ("&pound;", [163]);
    ("&yen;", [165]); ("&cent;", [162]) ]%string.

(** The Number nearest to a non-negative integer: exact below 2^53,
    otherwise rounded to 53 significant bits, ties to even. *)
Definition toNumber (v : N) : N :=
  let e := N.log2 v in
  if e <? 53 then v
  else
    let sh := e - 52 in
    let q := N.shiftr v sh in
    let r := v - N.shiftl q sh in
    let half := N.shiftl 1 (sh - 1) in
    let q' := if (half <? r) || ((r =? half) && N.odd q) then q + 1 else q in
    N.shiftl q' sh.

(** [String.fromCharCode(n)]: the code unit [n] modulo 2^16.  (A Number
    past the largest double is [Infinity], which gives 0; so does the
    modulus there.) *)
Definition fromCharCode (n : N) : N := toNumber n mod 65536.

Definition digitValue (c : N) : N :=
  if isDigit c then c - 48
  else if (97 <=? c) && (c <=? 102) then c - 87
  else c - 55.

(** [Number(dec)] and [parseInt(hex, 16)] before rounding *)
Definition valueIn (radix : N) (ds : jsstring) : N :=
  fold_left (fun acc d => acc * radix + digitValue d) ds 0.

(** [/&#(\d+);/g], replaced by [String.fromCharCode(Number(dec))] *)
Definition decimalRef : Matcher := fun s =>
  match after false (lit "&#") s with
  | Some s1 =>
    let dec := takeWhile isDigit s1 in
    match dec, after false (lit ";") (dropWhile isDigit s1) with
    | _ :: _, Some rest => Some ([fromCharCode (valueIn 10 dec)], rest)
    | _, _ => None
    end
  | None => None
  end.

(** [/&#x([0-9a-fA-F]+);/g], replaced by
    [String.fromCharCode(parseInt(hex, 16))] *)
Definition hexRef : Matcher := fun s =>
  match after false (lit "&#x") s with
  | Some s1 =>
    let hex := takeWhile isHex s1 in
    match hex, after false (lit ";") (dropWhile isHex s1) with
    | _ :: _, Some rest => Some ([fromCharCode (valueIn 16 hex)], rest)
    | _, _ => None
    end
  | None => None
  end.

(** [/[ \t]+/g], replaced by [" "] *)
Definition spaces : Matcher := fun s =>
  match s with
  | c :: s' => if isSpaceTab c then Some ([SP], dropWhile isSpaceTab s')
               else None
  | [] => None
  end.

(** After a line feed: what follows the last line feed of the white
    space that comes next, if that white space has a line feed.  This
    is [\s*\n] with [\s*] greedy. *)
Fixpoint blankTail (s : jsstring) : option jsstring :=
  match s with
  | c :: s' =>
    if isSpace c then
      match blankTail s' with
      | Some rest => Some rest
      | None => if c =? LF then Some s' else None
      end
    else None
  | [] => None
  end.

(** [/\n\s*\n/g], replaced by ["\n\n"] *)
Definition blankLines : Matcher := fun s =>
  match s with
  | c :: s' =>
    if c =? LF then
      match blankTail s' with
      | Some rest => Some ([LF; LF], rest)
      | None => None
      end
    else None
  | [] => None
  end.

(** [text.split("\n")] *)
Fixpoint splitLines (s : jsstring) : list jsstring :=
  match s with
  | [] => [[]]
  | c :: s' =>
    if c =? LF then [] :: splitLines s'
    else match splitLines s' with
         | line :: lines => (c :: line) :: lines
         | [] => [[c]]
         end
  end.

(** [lines.join("\n")] *)
Fixpoint joinLines (lines : list jsstring) : jsstring :=
  match lines with
  | [] => []
  | [line] => line
  | line :: lines' => line ++ LF :: joinLines lines'
  end.

Definition trimStart (s : jsstring) : jsstring := dropWhile isSpace s.

Fixpoint trimEnd (s : jsstring) : jsstring :=
  match s with
  | [] => []
  | c :: s' =>
    match trimEnd s' with
    | [] => if isSpace c then [] else [c]
    | r => c :: r
    end
  end.

(** [s.trim()] *)
Definition trim (s : jsstring) : jsstring := trimEnd (trimStart s).

(** The last five statements of [stripHtml]: the white space. *)
Definition normalizeSpace (text : jsstring) : jsstring :=
  let text := replace spaces text in
  let text := replace blankLines text in
  trim (joinLines (map trim (splitLines text))).

(** The statements of [stripHtml] before those: tags and entities. *)
Definition stripMarkup (html : jsstring) : jsstring :=
  let text := replace (block "script") html in
  let text := replace (block "style") text in
  let text := replace closeBlock text in
  let text := replace br text in
  let text := replace listTag text in
  let text := replace anyTag text in
  let text := fold_left (fun text e => replace (literal (fst e) (snd e)) text)
                        entities text in
  let text := replace decimalRef text in
  replace hexRef text.

(** [stripHtml(html)] *)
Definition stripHtml (html : jsstring) : jsstring :=
  normalizeSpace (stripMarkup html).

End Html.

(* ------------------------------------------------------------------ *)
(** ** post.ts: the text of a post *)

Module PostText.
Import Post.

(** [getTextContent(forceRefresh)] *)
Definition getTextContent (forceRefresh : bool)
    : M t (option Html.jsstring) :=
  html <- getContent forceRefresh ;;
  if negb (truthyUnits html) then ret None
  else
    match html with
    | Some html => ret (Some (Html.stripHtml html))
    | None => ret None
    end.

End PostText.

(* ------------------------------------------------------------------ *)
(** ** Mocks and the vocabulary of the statements *)

Module Mock.

Definition respond (status : Z) (statusText : string) (b : Body) : Outcome :=
  Responds {| status := status; statusText := statusText;
              finalPath := None; body := b |}.

Definition okJson (b : Body) : Outcome := respond 200 "OK" b.

Definition post (n : Z) : PostMetadata :=
  {| pm_id := n; publication_id := 7; title := "t"; slug := "s";
     post_date := "2024-01-01"; audience := everyone;
     canonical_url := "https://example.substack.com/p/s";
     body_html := None; truncated_body_text := None |}.

(** An archive endpoint serving the slice [offset, offset + limit) of a
    fixed list of posts; everything else is not found. *)
Definition archive (posts : list PostMetadata) : Network :=
  fun _ req =>
    match target req with
    | Archive _ _ offset limit =>
      okJson (BPosts (firstn (Z.to_nat limit) (skipn (Z.to_nat offset) posts)))
    | _ => respond 404 "Not Found" BNull
    end.

Definition example : Newsletter.t :=
  Newsletter.new "https://example.substack.com" None.

Definition sortNew : list (string * string) := [("sort", "new")].

Definition five : list PostMetadata := map post [1; 2; 3; 4; 5].
Definition ten : list PostMetadata := map post [1; 2; 3; 4; 5; 6; 7; 8; 9; 10].

Definition serverError : Response :=
  {| status := 500; statusText := "Internal Server Error";
     finalPath := None; body := BNull |}.

(** The archive of [posts], except that the page at [badOffset] is
    answered with a 500. *)
Definition failingAt (posts : list PostMetadata) (badOffset : Z) : Network :=
  fun log req =>
    match target req with
    | Archive _ _ offset _ =>
      if offset =? badOffset then Responds serverError
      else archive posts log req
    | _ => archive posts log req
    end.

(** Every request is answered with the same full page of two posts. *)
Definition twoPosts : Network :=
  fun _ _ => okJson (BPosts [post 1; post 2]).

(** A paid post with a body. *)
Definition article : PostMetadata :=
  {| pm_id := 1; publication_id := 7; title := "t"; slug := "s";
     post_date := "2024-01-01"; audience := only_paid;
     canonical_url := "https://example.substack.com/p/s";
     body_html := Some (Html.lit "<p>" ++ [8364%N] ++ Html.lit "5</p>");
     truncated_body_text := Some "Hello" |}.

End Mock.

Module NewsletterSpec.
Import Newsletter.

(** The request that [makeRequest] sends for an endpoint. *)
Definition request (this : t) (ep : Endpoint) : Request :=
  {| via := if auth_on (auth this) then Authenticated else Plain;
     target := ep |}.

(** The archive GET of the page at [offset]. *)
Definition pageRequest (this : t) (params : list (string * string))
    (pageSize offset : Z) : Request :=
  request this (Archive (url this) params offset pageSize).

(** The archive GETs of [n] consecutive pages, the first at [offset],
    each [pageSize] further. *)
Definition pageRequests (this : t) (params : list (string * string))
    (pageSize offset : Z) (n : nat) : list Request :=
  map (fun i => pageRequest this params pageSize (offset + Z.of_nat i * pageSize))
      (seq 0 n).

(** The network answers the [i]-th page request of a run, issued after
    [log] and the page requests before it, with a 2xx response whose
    body is [b]. *)
Definition serves (net : Network) (this : t) (params : list (string * string))
    (pageSize offset : Z) (log : Log) (i : nat) (b : Body) : Prop :=
  exists r,
    net (log ++ pageRequests this params pageSize offset i)
        (pageRequest this params pageSize (offset + Z.of_nat i * pageSize))
      = Responds r
    /\ ok r = true /\ body r = b.

(** The test [limit && results.length >= limit] at a count [n]. *)
Definition reached (limit : option Z) (n : Z) : bool :=
  truthy limit && match limit with Some l => l <=? n | None => false end.

(** A page that is full: 2xx, not empty, at least [pageSize] items. *)
Definition fullPages net this params pageSize offset log
    (pages : list (list PostMetadata)) : Prop :=
  forall i page, nth_error pages i = Some page ->
    serves net this params pageSize offset log i (BPosts page)
    /\ page <> [] /\ pageSize <= len page.

(** The error that [fetchPaginatedPosts] throws for a response. *)
Definition fetchError (r : Response) : Exn :=
  Error ("Failed to fetch posts: " ++ show (status r) ++ " "
           ++ statusText r)%string.

(** A server that answers every request with a full page. *)
Definition bottomless (net : Network) (pageSize : Z) : Prop :=
  forall log req, exists r items,
    net log req = Responds r /\ ok r = true /\ body r = BPosts items
    /\ items <> [] /\ pageSize <= len items.

(** How the posts built from [metas] relate to them: one post per
    item, for its canonical address, with the newsletter's handler and
    nothing cached; or the construction throws, and then the address
    of some item does not parse. *)
Definition postsOf (parse : UrlParser) (this : t) (metas : list PostMetadata)
    (res : Res (list Post.t)) : Prop :=
  match res with
  | Returned posts =>
    map Post.url posts = map canonical_url metas
    /\ Forall (fun p => Post.auth p = auth this /\ Post.postData p = None) posts
  | Threw e =>
    e = InvalidUrl /\ exists m, In m metas /\ parse (canonical_url m) = None
  | Running => False
  end.

End NewsletterSpec.

Module UserSpec.
Import User.

(** The GET of the profile endpoint of the current handle, and the
    redirect probe of a handle. *)
Definition profileReq (u : t) : Request :=
  {| via := Plain; target := endpoint u |}.
Definition probeReq (handle : string) : Request :=
  {| via := Plain; target := UserPage handle |}.

Definition isProfile (req : Request) : bool :=
  match target req with
  | UserProfileEp _ => true
  | _ => false
  end.
Definition isProbe (req : Request) : bool :=
  match target req with
  | UserPage _ => true
  | _ => false
  end.

(** The call goes to the network: a refresh is forced or nothing is
    cached. *)
Definition fetches (forceRefresh : bool) (u : t) : bool :=
  forceRefresh || match userData u with None => true | Some _ => false end.

(** The handle that the answer to a redirect probe names, if it names a
    new one. *)
Definition redirectTarget (o : Outcome) (oldHandle : string) : option string :=
  match o with
  | Responds r =>
    if ok r then
      match finalPath r with
      | Some pathname =>
        match Str.split Str.slash (Str.stripSlashes pathname) with
        | first :: _ =>
          if Str.startsWith "@" first && Str.nonempty (Str.slice1 first)
             && negb (String.eqb (Str.slice1 first) oldHandle)
          then Some (Str.slice1 first) else None
        | [] => None
        end
      | None => None
      end
    else None
  | Rejects _ => None
  end.

Definition notFoundError (r : Response) : Exn :=
  Error ("Failed to fetch user data: " ++ show (status r) ++ " "
           ++ statusText r)%string.

(** The invariant of the class: the endpoint is the profile endpoint of
    the current handle. *)
Definition wellFormed (u : t) : Prop :=
  endpoint u = UserProfileEp (username u).

Definition profileOf (handle : string) : Request :=
  {| via := Plain; target := UserProfileEp handle |}.

(** [data.subscriptions || []] *)
Definition subscriptionsOf (data : UserProfile) : list SubscriptionData :=
  match subscriptions data with
  | Some subs => subs
  | None => []
  end.

End UserSpec.

Module MockUser.

Definition profile (h : string) : UserProfile :=
  {| up_id := 1; up_name := "Name"; handle := h;
     profile_set_up_at := None; subscriptions := None |}.

Definition notFound : Response :=
  {| status := 404; statusText := "Not Found"; finalPath := None;
     body := BNull |}.

(** The account "old" was renamed to "new": for the first three
    requests, 404 on the profile of "old", the page of "old" redirects
    to /@new, and the profile of "new" is served; after them every
    request is answered with a fresh 404. *)
Definition renamed : Network :=
  fun log req =>
    if (List.length log <? 3)%nat then
      match target req with
      | UserProfileEp "new" => Mock.okJson (BProfile (profile "new"))
      | UserPage "old" =>
        Responds {| status := 200; statusText := "OK";
                    finalPath := Some "/@new"; body := BNull |}
      | _ => Responds notFound
      end
    else Responds notFound.

(** The first request fails with a 500, later ones are served. *)
Definition recovers : Network :=
  fun log req =>
    match log with
    | [] => Responds Mock.serverError
    | _ :: _ =>
      match target req with
      | UserProfileEp h => Mock.okJson (BProfile (profile h))
      | _ => Responds notFound
      end
    end.

(** The first request is answered 200 with the body [null], later ones
    are served. *)
Definition nullFirst : Network :=
  fun log req =>
    match log with
    | [] => Mock.okJson BNull
    | _ :: _ =>
      match target req with
      | UserProfileEp h => Mock.okJson (BProfile (profile h))
      | _ => Responds notFound
      end
    end.

(** A profile with four subscriptions: one to a publication on a
    subdomain, one to a publication on its own domain, one to a
    publication whose subdomain is [null], one to a publication without
    the key. *)
Definition reader : UserProfile :=
  {| up_id := 2; up_name := "Reader"; handle := "reader";
     profile_set_up_at := None;
     subscriptions :=
       Some [ {| publication := {| pi_id := 42; pi_name := "Example";
                                   subdomain := Value "example";
                                   custom_domain := None |};
                 membership_state := "free_signup" |};
              {| publication := {| pi_id := 43; pi_name := "Other";
                                   subdomain := Value "other";
                                   custom_domain := Some "www.other.com" |};
                 membership_state := "subscribed" |};
              {| publication := {| pi_id := 44; pi_name := "Gone";
                                   subdomain := Null;
                                   custom_domain := None |};
                 membership_state := "subscribed" |};
              {| publication := {| pi_id := 45; pi_name := "Bare";
                                   subdomain := Undefined;
                                   custom_domain := Some "" |};
                 membership_state := "free_signup" |} ] |}.

(** Every profile request is answered with the reader's profile. *)
Definition library : Network :=
  fun _ req =>
    match target req with
    | UserProfileEp _ => Mock.okJson (BProfile reader)
    | _ => Responds notFound
    end.

End MockUser.

Module CategorySpec.
Import Category.

Definition pageReq (id : option Z) (page : Z) : Request :=
  {| via := Plain; target := CategoryPublic id page |}.

Definition entry (page : Z) : NewsletterData :=
  {| nd_id := page; nd_name := "n"; base_url := "https://n.substack.com" |}.

(** Every category page is served and reports [more: true]. *)
Definition endless : Network :=
  fun _ req =>
    match target req with
    | CategoryPublic _ page => Mock.okJson (BCategoryPage [entry page] true)
    | _ => Mock.respond 404 "Not Found" BNull
    end.

Definition category : t :=
  {| name := Some "Technology"; id := Some 4; newslettersData := None |}.

Definition pages (n : nat) : list Z := map Z.of_nat (seq 0 n).

(** The GET of the list of categories. *)
Definition catsReq : Request := {| via := Plain; target := Categories |}.

Definition listError (r : Response) : Exn :=
  Error ("Failed to fetch categories: " ++ show (status r) ++ " "
           ++ statusText r)%string.

Definition isNone {A} (o : option A) : bool :=
  match o with None => true | Some _ => false end.

(** The call goes to the network: a refresh is forced or nothing is
    cached. *)
Definition fetchesPages (forceRefresh : bool) (c : t) : bool :=
  forceRefresh || isNone (newslettersData c).

(** The list of categories is served, whenever it is asked for. *)
Definition listed (net : Network) (cs : list CategoryInfo) : Prop :=
  forall log, exists r,
    net log catsReq = Responds r /\ ok r = true /\ body r = BCategories cs.

(** The GETs of [n] consecutive pages, the first one page [from]. *)
Definition pagesFrom (id : option Z) (from : Z) (n : nat) : list Request :=
  map (fun i => pageReq id (from + Z.of_nat i)) (seq 0 n).

(** A category known by its name only, and one known by its id only. *)
Definition named (n : string) : t :=
  {| name := Some n; id := None; newslettersData := None |}.
Definition numbered (i : Z) : t :=
  {| name := None; id := Some i; newslettersData := None |}.

(** The pages of a category as the network serves them: the [i]-th
    page request of a crawl that starts at page [from] after [log] is
    answered with a 2xx response that carries the [i]-th page. *)
Definition servesPages (net : Network) (id : option Z) (log : Log)
    (from : Z) (served : list (list NewsletterData * bool)) : Prop :=
  forall i page, nth_error served i = Some page ->
    exists r,
      net (log ++ pagesFrom id from i) (pageReq id (from + Z.of_nat i))
        = Responds r
      /\ ok r = true /\ body r = BCategoryPage (fst page) (snd page).

(** Every page but the last reports [more: true]. *)
Fixpoint moreUntilLast (served : list (list NewsletterData * bool)) : bool :=
  match served with
  | [] => true
  | [_] => true
  | page :: rest => snd page && moreUntilLast rest
  end.

(** The crawl stops after the last page: it reports [more: false], or
    it is the page numbered [MAX_CATEGORY_PAGES]. *)
Definition stopsAfter (from : Z) (served : list (list NewsletterData * bool))
    : Prop :=
  match rev served with
  | [] => False
  | lastPage :: _ =>
    snd lastPage = false
    \/ from + Z.of_nat (List.length served) = MAX_CATEGORY_PAGES + 1
  end.

(** Two pages for every category, one newsletter on each. *)
Definition twoPages : Network :=
  fun _ req =>
    match target req with
    | CategoryPublic _ page =>
      Mock.okJson (BCategoryPage [entry page] (page =? 0))
    | _ => Mock.respond 404 "Not Found" BNull
    end.

Definition catalogue : list CategoryInfo :=
  [ {| ci_id := 4; ci_name := "Technology" |};
    {| ci_id := 96; ci_name := "Culture" |} ].

(** The catalogue, and for every category one last page of two
    newsletters. *)
Definition shelf : Network :=
  fun _ req =>
    match target req with
    | Categories => Mock.okJson (BCategories catalogue)
    | CategoryPublic _ page =>
      Mock.okJson (BCategoryPage [entry page; entry (page + 1)] false)
    | _ => Mock.respond 404 "Not Found" BNull
    end.

End CategorySpec.

Module PostSpec.

(** The last non-empty segment of a path, in the words of the
    specification: split at "/", keep the non-empty segments, take the
    last. *)
Definition lastNonEmptySegment (pathname : string) : option string :=
  match rev (filter Str.nonempty (Str.split Str.slash pathname)) with
  | seg :: _ => Some seg
  | [] => None
  end.

Definition doubleSlash : URL :=
  {| protocol := "https:"; host := "example.substack.com";
     pathname := "/p/my-post//" |}.

Definition regular : URL :=
  {| protocol := "https:"; host := "example.substack.com";
     pathname := "/p/my-post" |}.

Definition trailing : URL :=
  {| protocol := "https:"; host := "example.substack.com";
     pathname := "/p/my-post/" |}.

(** The GET of the post's endpoint: with the cookie headers when the
    post has an authenticated handler, with the plain ones otherwise. *)
Definition postReq (p : Post.t) : Request :=
  {| via := if auth_on (Post.auth p) then Authenticated else Plain;
     target := Post.endpoint p |}.

(** The error that [fetchPostData] throws for a response. *)
Definition postError (r : Response) : Exn :=
  Error ("Failed to fetch post data: " ++ show (status r) ++ " "
           ++ statusText r)%string.

(** The call goes to the network: a refresh is forced or nothing is
    cached. *)
Definition fetchesPost (forceRefresh : bool) (p : Post.t) : bool :=
  forceRefresh || match Post.postData p with None => true | Some _ => false end.

(** [data.audience === "only_paid"] *)
Definition paywalled (data : PostMetadata) : bool :=
  match audience data with only_paid => true | _ => false end.

Definition fresh : Post.t :=
  Post.build "https://example.substack.com/p/s" regular None.

(** The post is served to the first request; every later request is
    answered with a 500. *)
Definition servedOnce : Network :=
  fun log _ =>
    match log with
    | [] => Mock.okJson (BPost Mock.article)
    | _ :: _ => Responds Mock.serverError
    end.

(** Every request is answered 200 with the body [null]. *)
Definition nullBody : Network := fun _ _ => Mock.okJson BNull.

(** The paid post is served whenever it is asked for. *)
Definition kiosk : Network :=
  fun _ _ => Mock.okJson (BPost Mock.article).

End PostSpec.

Module RecommendationSpec.
Import Newsletter.

(** A stand-in for [new URL(s)] on addresses "https://host" and
    "https://host/path": the host runs to the first slash, the path is
    what follows, "/" when nothing does; anything else does not parse. *)
Fixpoint hostAndPath (s : string) : string * string :=
  match s with
  | EmptyString => (EmptyString, "/")
  | String c s' =>
    if Ascii.eqb c Str.slash then (EmptyString, s)
    else let (h, p) := hostAndPath s' in (String c h, p)
  end.

Definition parseUrl : UrlParser := fun s =>
  if Str.startsWith "https://" s then
    let (h, p) := hostAndPath (substring 8 (String.length s - 8) s) in
    if Str.nonempty h then Some {| protocol := "https:"; host := h; pathname := p |}
    else None
  else None.

(** A stand-in for [toLowerCase] on ASCII strings: the letters A to Z
    go to a to z, every other character stays. *)
Definition lowerChar (c : ascii) : ascii :=
  let n := nat_of_ascii c in
  if (Nat.leb 65 n && Nat.leb n 90)%bool then ascii_of_nat (n + 32) else c.

Fixpoint lowerAscii (s : string) : string :=
  match s with
  | EmptyString => EmptyString
  | String c s' => String (lowerChar c) (lowerAscii s')
  end.

Definition searchReq (query : string) : Request :=
  {| via := Discovery; target := PublicationSearch query |}.

Definition recsReq (this : t) (pid : Z) : Request :=
  NewsletterSpec.request this (Recommendations (url this) pid).

Definition examplePublication : PublicationInfo :=
  {| pi_id := 42; pi_name := "Example"; subdomain := Value "example";
     custom_domain := None |}.

Definition otherPublication : PublicationInfo :=
  {| pi_id := 43; pi_name := "Other"; subdomain := Value "other";
     custom_domain := Some "www.other.com" |}.

(** Discovery finds the publication; the recommendations request times
    out. *)
Definition recsDown : Network :=
  fun _ req =>
    match target req with
    | PublicationSearch _ => Mock.okJson (BSearch (Some [examplePublication]))
    | Recommendations _ _ => Rejects "timeout"
    | _ => Mock.respond 404 "Not Found" BNull
    end.

(** Discovery is down; the archive and the post are served, and so are
    the recommendations of publication 7. *)
Definition discoveryDown : Network :=
  fun _ req =>
    match target req with
    | PublicationSearch _ => Responds Mock.serverError
    | Archive _ _ _ _ => Mock.okJson (BPosts [Mock.post 1])
    | PostBySlug _ _ => Mock.okJson (BPost (Mock.post 1))
    | Recommendations _ 7 =>
      Mock.okJson (BRecommendations
                     [{| recommendedPublication := Some otherPublication |};
                      {| recommendedPublication := Some examplePublication |}])
    | _ => Mock.respond 404 "Not Found" BNull
    end.

(** Every request is answered with a 500. *)
Definition allDown : Network := fun _ _ => Responds Mock.serverError.

(** [searchResults.publications || []] *)
Definition publicationsOf (searchResults : option (list PublicationInfo))
    : list PublicationInfo :=
  match searchResults with
  | Some ps => ps
  | None => []
  end.

(** The test of the first loop of [matchPublication]. *)
Definition matchesHost (parse : UrlParser) (lower : LowerCase)
    (host : string) (item : PublicationInfo) : Prop :=
  (exists d, custom_domain item = Some d /\ Str.nonempty d = true
             /\ hostFromUrl parse lower d = Some host)
  \/ (exists s, subdomain item = Value s /\ Str.nonempty s = true
                /\ (lower s ++ ".substack.com")%string = host).

(** A custom domain that [new URL] refuses. *)
Definition badDomain (parse : UrlParser) (lower : LowerCase)
    (item : PublicationInfo) : Prop :=
  exists d, custom_domain item = Some d /\ Str.nonempty d = true
            /\ hostFromUrl parse lower d = None.

(** What the first loop gives on [publications]. *)
Definition firstMatch (parse : UrlParser) (lower : LowerCase) (host : string)
    (publications : list PublicationInfo)
    (res : Res (option PublicationInfo)) : Prop :=
  match res with
  | Returned (Some item) =>
    exists pre post,
      publications = pre ++ item :: post
      /\ matchesHost parse lower host item
      /\ Forall (fun i => ~ matchesHost parse lower host i) pre
  | Returned None =>
    Forall (fun i => ~ matchesHost parse lower host i) publications
  | Threw e =>
    e = InvalidUrl
    /\ exists pre item post,
        publications = pre ++ item :: post
        /\ badDomain parse lower item
        /\ Forall (fun i => ~ matchesHost parse lower host i) pre
  | Running => False
  end.

End RecommendationSpec.

Module HtmlSpec.
Import Html.
Open Scope N_scope.

(** A matcher that consumes at least one code unit. *)
Definition shrinks (m : Matcher) : Prop :=
  forall s replacement rest,
    m s = Some (replacement, rest) -> (List.length rest < List.length s)%nat.

(** A line has no line feed. *)
Definition lfFree (l : jsstring) : bool := forallb (fun c => negb (c =? LF)) l.

(** A line of white space only (the empty line is one). *)
Definition wsOnly (l : jsstring) : bool := forallb isSpace l.

Definition isEmpty (l : jsstring) : bool :=
  match l with [] => true | _ :: _ => false end.

Definition nextIsSpaceTab (l : jsstring) : bool :=
  match l with d :: _ => isSpaceTab d | [] => false end.

(** No tab, and no space followed by a space. *)
Fixpoint singleSpaced (l : jsstring) : bool :=
  match l with
  | [] => true
  | c :: l' =>
    (if isSpaceTab c then (c =? SP) && negb (nextIsSpaceTab l') else true)
    && singleSpaced l'
  end.

(** No white space at either end. *)
Definition trimmed (l : jsstring) : Prop := trimStart l = l /\ trimEnd l = l.

Fixpoint dropLeading (lines : list jsstring) : list jsstring :=
  match lines with
  | l :: lines' => if isEmpty l then dropLeading lines' else lines
  | [] => []
  end.

Fixpoint dropTrailing (lines : list jsstring) : list jsstring :=
  match lines with
  | [] => []
  | l :: lines' =>
    match dropTrailing lines' with
    | [] => if isEmpty l then [] else [l]
    | r => l :: r
    end
  end.

(** The lines without the empty ones at either end. *)
Definition core (lines : list jsstring) : list jsstring :=
  dropTrailing (dropLeading lines).

(** What the [blankLines] scan makes of the lines after the first one:
    a run of white-space-only lines, none of them the last line, becomes
    one empty line.  [inRun] says that the line before was in such a
    run. *)
Fixpoint squeezeRest (inRun : bool) (lines : list jsstring) : list jsstring :=
  match lines with
  | [] => []
  | l :: rest =>
    match rest with
    | [] => [l]
    | _ :: _ =>
      if wsOnly l then (if inRun then squeezeRest true rest else [] :: squeezeRest true rest)
      else l :: squeezeRest false rest
    end
  end.

(** What the [blankLines] scan makes of joined lines. *)
Definition squeeze (lines : list jsstring) : list jsstring :=
  match lines with
  | [] => []
  | l :: rest => l :: squeezeRest false rest
  end.

Definition nextIsEmpty (lines : list jsstring) : bool :=
  match lines with l :: _ => isEmpty l | [] => false end.

(** No two empty lines in a row. *)
Fixpoint sparse (lines : list jsstring) : bool :=
  match lines with
  | [] => true
  | l :: rest => negb (isEmpty l && nextIsEmpty rest) && sparse rest
  end.

(** A line of normalised text. *)
Definition lineOK (l : jsstring) : Prop :=
  lfFree l = true /\ trimmed l /\ singleSpaced l = true.

(** The lines of normalised text: no empty line at either end, no two
    empty lines in a row. *)
Definition normalLines (lines : list jsstring) : Prop :=
  Forall lineOK lines
  /\ dropLeading lines = lines /\ dropTrailing lines = lines
  /\ sparse lines = true.

(** An empty line is followed by a line that is not empty, or by the
    last line, or by nothing. *)
Definition gapThenText (lines : list jsstring) : bool :=
  match lines with
  | y :: _ :: _ => negb (isEmpty y)
  | _ => true
  end.

Fixpoint gapOK (lines : list jsstring) : bool :=
  match lines with
  | [] => true
  | l :: rest => (if isEmpty l then gapThenText rest else true) && gapOK rest
  end.

(** A matcher whose replacement is no longer than what it replaces. *)
Definition contracts (m : Matcher) : Prop :=
  forall s replacement rest,
    m s = Some (replacement, rest) ->
    (List.length replacement + List.length rest <= List.length s)%nat.

(** The expressions of [stripHtml] that remove tags and decode entities,
    in the order of its statements. *)
Definition markup : list Matcher :=
  [block "script"; block "style"; closeBlock; br; listTag; anyTag]
  ++ map (fun e => literal (fst e) (snd e)) entities
  ++ [decimalRef; hexRef].

(** The positions of a string: what starts at each index. *)
Fixpoint tails (s : jsstring) : list jsstring :=
  s :: match s with
       | [] => []
       | _ :: s' => tails s'
       end.

(** The expression matches somewhere in the string. *)
Definition matchesIn (m : Matcher) (s : jsstring) : bool :=
  existsb (fun t => match m t with Some _ => true | None => false end)
          (tails s).

(** No tag and no entity that [stripHtml] knows is left in the text:
    none of its expressions for them matches anywhere. *)
Definition markupFree (s : jsstring) : bool :=
  forallb (fun m => negb (matchesIn m s)) markup.

(** A matcher whose replacement is shorter than what it replaces. *)
Definition reduces (m : Matcher) : Prop :=
  forall s replacement rest,
    m s = Some (replacement, rest) ->
    (List.length replacement + List.length rest < List.length s)%nat.

Definition SEMI : N := 59.

(** Somewhere in the string a [c] comes before a [d]. *)
Fixpoint followedBy (c d : N) (s : jsstring) : bool :=
  match s with
  | [] => false
  | x :: s' => ((x =? c) && existsb (N.eqb d) s') || followedBy c d s'
  end.

(** [a] is what is left of [b] from some index on. *)
Definition suffix (a b : jsstring) : Prop := exists pre, b = pre ++ a.

(** Where a tag expression matches, a "<" is followed by a ">"; where
    an entity expression matches, a "&" is followed by a ";". *)
Definition closed (m : Matcher) : Prop :=
  forall s replacement rest,
    m s = Some (replacement, rest) ->
    exists s', (s = LT :: s' /\ In GT s') \/ (s = AMP :: s' /\ In SEMI s').

End HtmlSpec.

Module AuthSpec.
Import Auth.
(** The value that the file gives last for a name. *)
Definition lastValue (n : string) (cs : list Cookie) : option string :=
  option_map cookie_value
             (find (fun cookie => String.eqb (cookie_name cookie) n) (rev cs)).

Definition session : list Cookie :=
  [ {| cookie_name := "substack.sid"; cookie_value := "old" |};
    {| cookie_name := "substack.lli"; cookie_value := "1" |};
    {| cookie_name := "substack.sid"; cookie_value := "s3cr3t" |} ].
End AuthSpec.

(* ================================================================== *)
(** * Properties *)

(** ** The monad *)

Ltac run := unfold bind, ret, throw, running, self, assign, delay, lift, json; simpl.

(** ** Pagination *)

Module NewsletterProofs.
Import Newsletter NewsletterSpec.

Lemma makeRequest_run (ep : Endpoint) net this log :
  makeRequest ep net this log =
  match net log (request this ep) with
  | Rejects reason => (Threw (FetchRejected reason), this, log ++ [request this ep])
  | Responds r => (Returned r, this, log ++ [request this ep])
  end.
Proof.
  unfold makeRequest, request, auth_get, fetch. run.
  destruct (auth_on (auth this)); simpl;
    match goal with |- context [net log ?q] => destruct (net log q) end;
    reflexivity.
Qed.

(** One iteration of the loop, for each way the page can come back. *)
Lemma paginate_S fuel params limit pageSize results offset net this log :
  paginate (S fuel) params limit pageSize results offset net this log =
  let req := pageRequest this params pageSize offset in
  match net log req with
  | Rejects reason => (Threw (FetchRejected reason), this, log ++ [req])
  | Responds r =>
    if negb (ok r) then (Threw (fetchError r), this, log ++ [req])
    else match body r with
         | BInvalid => (Threw JsonRejected, this, log ++ [req])
         | BNull => (Returned results, this, log ++ [req])
         | BPosts [] => (Returned results, this, log ++ [req])
         | BPosts items =>
           if reached limit (len (results ++ items))
           then (Returned (slice0 (results ++ items)
                             (match limit with Some l => l | None => 0 end)),
                 this, log ++ [req])
           else if len items <? pageSize
           then (Returned (results ++ items), this, log ++ [req])
           else paginate fuel params limit pageSize (results ++ items)
                  (offset + pageSize) net this (log ++ [req])
         | _ => (Threw JsonRejected, this, log ++ [req])
         end
  end.
Proof.
  cbv zeta. unfold pageRequest. cbn [paginate].
  unfold bind at 1. unfold self at 1. unfold bind at 1.
  rewrite makeRequest_run.
  destruct (net log _) as [reason | r]; [reflexivity |].
  destruct (negb (ok r)); [reflexivity |].
  unfold json, as_items. run.
  destruct (body r) as [ | | items | | | | | | ]; try reflexivity.
  destruct items as [| i rest]; [reflexivity |].
  destruct limit as [l |]; unfold reached; simpl.
  - destruct (negb (l =? 0) && (l <=? len (results ++ i :: rest)));
      [reflexivity |].
    destruct (len (i :: rest) <? pageSize); reflexivity.
  - destruct (len (i :: rest) <? pageSize); reflexivity.
Qed.

Lemma pageRequests_0 this params pageSize offset :
  pageRequests this params pageSize offset 0 = [].
Proof. reflexivity. Qed.

Lemma pageRequests_front this params pageSize offset n :
  pageRequests this params pageSize offset (S n) =
  pageRequest this params pageSize offset
    :: pageRequests this params pageSize (offset + pageSize) n.
Proof.
  unfold pageRequests. simpl. f_equal.
  - f_equal. lia.
  - rewrite <- seq_shift, map_map. apply map_ext. intros i.
    f_equal. lia.
Qed.

Lemma pageRequests_length this params pageSize offset n :
  List.length (pageRequests this params pageSize offset n) = n.
Proof. unfold pageRequests. now rewrite length_map, length_seq. Qed.

Lemma serves_shift net this params pageSize offset log i b :
  serves net this params pageSize offset log (S i) b <->
  serves net this params pageSize (offset + pageSize)
    (log ++ [pageRequest this params pageSize offset]) i b.
Proof.
  unfold serves.
  replace (offset + Z.of_nat (S i) * pageSize)
    with (offset + pageSize + Z.of_nat i * pageSize) by lia.
  rewrite pageRequests_front, <- app_assoc.
  reflexivity.
Qed.

Lemma serves_0 net this params pageSize offset log b :
  serves net this params pageSize offset log 0 b ->
  exists r, net log (pageRequest this params pageSize offset) = Responds r
            /\ ok r = true /\ body r = b.
Proof.
  unfold serves. rewrite pageRequests_0, app_nil_r.
  now replace (offset + Z.of_nat 0 * pageSize) with offset by lia.
Qed.

Lemma len_app {A} (a b : list A) : len (a ++ b) = len a + len b.
Proof. unfold len. rewrite length_app. lia. Qed.

Lemma len_nonneg {A} (a : list A) : 0 <= len a.
Proof. unfold len. lia. Qed.

Lemma reached_mono limit n m :
  n <= m -> reached limit m = false -> reached limit n = false.
Proof.
  unfold reached. destruct limit as [l |]; simpl; [| reflexivity].
  intros Hnm H. destruct (l =? 0); simpl in *; [reflexivity |].
  apply Z.leb_gt. apply Z.leb_gt in H. lia.
Qed.

(** As long as pages come back full and the limit is not reached, the
    loop goes on: one request per page, the offset [pageSize] further,
    the items appended. *)
Lemma paginate_full_pages net this params limit pageSize pages :
  forall fuel results offset log,
    fullPages net this params pageSize offset log pages ->
    reached limit (len (results ++ List.concat pages)) = false ->
    paginate (List.length pages + fuel) params limit pageSize results offset
             net this log =
    paginate fuel params limit pageSize (results ++ List.concat pages)
             (offset + Z.of_nat (List.length pages) * pageSize) net this
             (log ++ pageRequests this params pageSize offset (List.length pages)).
Proof.
  induction pages as [| page pages IH]; intros fuel results offset log Hfull Hlim.
  - simpl. rewrite !app_nil_r. f_equal. lia.
  - destruct (Hfull 0%nat page eq_refl) as (Hs & Hne & Hsize).
    apply serves_0 in Hs. destruct Hs as (r & Hnet & Hok & Hbody).
    change (List.length (page :: pages) + fuel)%nat
      with (S (List.length pages + fuel)).
    rewrite paginate_S. cbv zeta. rewrite Hnet, Hok, Hbody. simpl negb. cbv iota.
    destruct page as [| item page']; [congruence |].
    assert (Hlim1 : reached limit (len (results ++ item :: page')) = false).
    { apply reached_mono with (2 := Hlim). unfold len. simpl List.concat.
      rewrite !length_app. simpl. rewrite length_app. lia. }
    rewrite Hlim1.
    destruct (Z.ltb_spec (len (item :: page')) pageSize) as [Hlt | _]; [lia |].
    rewrite IH.
    + simpl List.concat. rewrite <- app_assoc.
      change (List.length ((item :: page') :: pages)) with (S (List.length pages)).
      rewrite pageRequests_front.
      rewrite <- (app_assoc log). cbn [app]. f_equal. lia.
    + intros i pg Hi. destruct (Hfull (S i) pg Hi) as (Hs & H1 & H2).
      split; [| now split]. now apply serves_shift.
    + simpl List.concat in Hlim. now rewrite <- app_assoc.
Qed.

(** C1.  Without a limit, [fetchPaginatedPosts] issues one archive GET
    per page, the offset [pageSize] further each time, and appends the
    items of each page; it stops at the first page that comes back with
    no items ([null] or empty) or with fewer items than [pageSize], and
    issues no request after that page.  [pages] are the full pages that
    precede it, [lastItems] the items of the page that ends the loop. *)
Theorem fetchPaginatedPosts_stops_at_short_page
    net this params pageSize (pages : list (list PostMetadata))
    (lastBody : Body) (lastItems : list PostMetadata) (fuel : nat) (log : Log) :
  fullPages net this params pageSize 0 log pages ->
  serves net this params pageSize 0 log (List.length pages) lastBody ->
  (lastBody = BNull /\ lastItems = []) \/
  (lastBody = BPosts lastItems /\ (lastItems = [] \/ len lastItems < pageSize)) ->
  (List.length pages < fuel)%nat ->
  fetchPaginatedPosts fuel params None pageSize net this log =
    (Returned (List.concat pages ++ lastItems), this,
     log ++ pageRequests this params pageSize 0 (S (List.length pages))).
Proof.
  intros Hfull Hlast Hshape Hfuel.
  unfold fetchPaginatedPosts.
  replace fuel with (List.length pages + S (fuel - S (List.length pages)))%nat by lia.
  rewrite (@paginate_full_pages net this params None pageSize pages _ [] 0 log Hfull)
    by reflexivity.
  rewrite paginate_S. cbv zeta.
  destruct Hlast as (r & Hnet & Hok & Hbody).
  cbn [app] in *. rewrite Hnet, Hok. cbn [negb].
  assert (Hlog : pageRequests this params pageSize 0 (S (List.length pages)) =
                 pageRequests this params pageSize 0 (List.length pages) ++
                 [pageRequest this params pageSize
                    (0 + Z.of_nat (List.length pages) * pageSize)]).
  { unfold pageRequests. rewrite seq_S, map_app. reflexivity. }
  rewrite Hlog, (app_assoc log).
  destruct Hshape as [[Hb Hl] | [Hb Hl]]; rewrite Hbody, Hb.
  - subst lastItems. now rewrite app_nil_r.
  - destruct lastItems as [| item rest].
    + now rewrite app_nil_r.
    + destruct Hl as [Hl | Hl]; [discriminate |].
      unfold reached. cbn [truthy andb].
      destruct (Z.ltb_spec (len (item :: rest)) pageSize); [reflexivity | lia].
Qed.

(** C2.  With a positive limit, [fetchPaginatedPosts] returns as soon as
    the accumulated count reaches the limit: it issues the requests of
    the pages before that one and of that one, no other, and returns
    the accumulated items cut to exactly [limit]. *)
Theorem fetchPaginatedPosts_stops_at_limit
    net this params pageSize limit (pages : list (list PostMetadata))
    (lastItems : list PostMetadata) (fuel : nat) (log : Log) :
  0 < limit ->
  fullPages net this params pageSize 0 log pages ->
  serves net this params pageSize 0 log (List.length pages) (BPosts lastItems) ->
  len (List.concat pages) < limit <= len (List.concat pages ++ lastItems) ->
  (List.length pages < fuel)%nat ->
  fetchPaginatedPosts fuel params (Some limit) pageSize net this log =
    (Returned (firstn (Z.to_nat limit) (List.concat pages ++ lastItems)), this,
     log ++ pageRequests this params pageSize 0 (S (List.length pages)))
  /\ len (firstn (Z.to_nat limit) (List.concat pages ++ lastItems)) = limit.
Proof.
  intros Hpos Hfull Hlast [Hbelow Hreach] Hfuel.
  split.
  - unfold fetchPaginatedPosts.
    replace fuel with (List.length pages + S (fuel - S (List.length pages)))%nat by lia.
    rewrite (@paginate_full_pages net this params (Some limit) pageSize pages _ [] 0 log
               Hfull).
    2:{ unfold reached. cbn [app truthy]. apply andb_false_iff. right.
        apply Z.leb_gt. exact Hbelow. }
    rewrite paginate_S. cbv zeta.
    destruct Hlast as (r & Hnet & Hok & Hbody).
    cbn [app] in *. rewrite Hnet, Hok, Hbody. cbn [negb].
    assert (Hlog : pageRequests this params pageSize 0 (S (List.length pages)) =
                   pageRequests this params pageSize 0 (List.length pages) ++
                   [pageRequest this params pageSize
                      (0 + Z.of_nat (List.length pages) * pageSize)]).
    { unfold pageRequests. rewrite seq_S, map_app. reflexivity. }
    rewrite Hlog, (app_assoc log).
    destruct lastItems as [| item rest].
    { rewrite app_nil_r in Hreach. lia. }
    assert (Hr : reached (Some limit) (len (List.concat pages ++ item :: rest)) = true).
    { unfold reached. cbn [truthy]. apply andb_true_iff. split.
      - apply negb_true_iff. apply Z.eqb_neq. lia.
      - apply Z.leb_le. exact Hreach. }
    rewrite Hr. unfold slice0.
    destruct (Z.ltb_spec limit 0); [lia |].
    now rewrite Z.min_l by exact Hreach.
  - unfold len in *. rewrite length_firstn. lia.
Qed.

Lemma paginate_falsy_limit fuel params pageSize net this :
  forall results offset log,
    paginate fuel params (Some 0) pageSize results offset net this log =
    paginate fuel params None pageSize results offset net this log.
Proof.
  induction fuel as [| fuel IH]; intros results offset log; [reflexivity |].
  rewrite !paginate_S. cbv zeta.
  destruct (net log _) as [reason | r]; [reflexivity |].
  destruct (negb (ok r)); [reflexivity |].
  destruct (body r) as [ | | items | | | | | | ]; try reflexivity.
  destruct items as [| item rest]; [reflexivity |].
  unfold reached. cbn [truthy Z.eqb negb andb].
  destruct (len (item :: rest) <? pageSize); [reflexivity |].
  apply IH.
Qed.

(** Against an archive that serves slices of [posts], pages of a
    positive size, and no limit in force, the loop returns [posts]. *)
Lemma paginate_archive_all posts params pageSize limit this :
  0 < pageSize -> truthy limit = false ->
  forall fuel done rest log,
    posts = done ++ rest -> (List.length rest < fuel)%nat ->
    exists log',
      paginate fuel params limit pageSize done (len done)
               (Mock.archive posts) this log = (Returned posts, this, log').
Proof.
  intros Hps Hlimit.
  induction fuel as [| fuel IH]; intros done rest log Hposts Hfuel; [lia |].
  rewrite paginate_S. cbv zeta.
  change (Mock.archive posts log (pageRequest this params pageSize (len done)))
    with (Mock.okJson (BPosts (firstn (Z.to_nat pageSize)
                                      (skipn (Z.to_nat (len done)) posts)))).
  unfold Mock.okJson, Mock.respond.
  change (negb (ok _)) with false. cbv iota. cbn [body].
  assert (Hskip : skipn (Z.to_nat (len done)) posts = rest).
  { unfold len. rewrite Nat2Z.id, Hposts.
    now rewrite skipn_app, skipn_all, Nat.sub_diag. }
  rewrite Hskip. clear Hskip.
  set (k := Z.to_nat pageSize).
  assert (Hk : (1 <= k)%nat) by (unfold k; lia).
  destruct rest as [| item rest].
  - rewrite firstn_nil. rewrite app_nil_r in Hposts. subst done. eauto.
  - destruct k as [| k'] eqn:Ek; [lia |]. cbn [firstn].
    unfold reached. rewrite Hlimit. cbn [andb].
    destruct (Z.ltb_spec (len (item :: firstn k' rest)) pageSize) as [Hlt | Hge].
    + assert (Hall : firstn k' rest = rest).
      { apply firstn_all2. unfold len in Hlt. cbn [List.length] in Hlt.
        rewrite length_firstn in Hlt. lia. }
      rewrite Hall. subst posts. eauto.
    + assert (Hlen : len (item :: firstn k' rest) = pageSize).
      { unfold len in *. cbn [List.length] in *. rewrite length_firstn in *. lia. }
      replace (len done + pageSize) with (len (done ++ item :: firstn k' rest))
        by (rewrite len_app; lia).
      apply (IH _ (skipn k' rest)).
      * rewrite <- app_assoc. cbn [app]. now rewrite firstn_skipn.
      * rewrite length_skipn. cbn [List.length] in Hfuel. lia.
Qed.

(** C10.  A limit of 0 is falsy, so it is no limit: on every network
    the call with [limit = 0] does what the call without a limit does,
    and against an archive (with a positive page size) it returns every
    post of the archive. *)
Theorem fetchPaginatedPosts_limit_zero :
  (forall fuel params pageSize net this log,
      fetchPaginatedPosts fuel params (Some 0) pageSize net this log =
      fetchPaginatedPosts fuel params None pageSize net this log)
  /\ (forall posts params pageSize this,
         0 < pageSize ->
         exists fuel log',
           fetchPaginatedPosts fuel params (Some 0) pageSize
                               (Mock.archive posts) this [] =
           (Returned posts, this, log')).
Proof.
  split.
  - intros. apply paginate_falsy_limit.
  - intros posts params pageSize this Hps.
    exists (S (List.length posts)).
    apply (@paginate_archive_all posts params pageSize (Some 0) this Hps eq_refl
             (S (List.length posts)) [] posts []); [reflexivity | lia].
Qed.

Lemma app_cons_same_length {A} (l1 l2 t1 t2 : list A) x y :
  l1 ++ x :: t1 = l2 ++ y :: t2 -> List.length l1 = List.length l2 ->
  l1 = l2 /\ x = y /\ t1 = t2.
Proof.
  revert l2. induction l1 as [| a l1 IH]; intros [| b l2] H Hlen;
    simpl in *; try discriminate.
  - inversion H. auto.
  - inversion H; subst. destruct (IH l2) as (-> & -> & ->); auto.
Qed.

Lemma paginate_log_extends net this params limit pageSize fuel :
  forall results offset log res this' log',
    paginate fuel params limit pageSize results offset net this log
      = (res, this', log') ->
    exists ext, log' = log ++ ext.
Proof.
  induction fuel as [| fuel IH]; intros results offset log res this' log' H.
  - inversion H. exists []. now rewrite app_nil_r.
  - rewrite paginate_S in H. cbv zeta in H.
    assert (Hstop : forall (x : Res (list PostMetadata)),
               (x, this, log ++ [pageRequest this params pageSize offset])
                 = (res, this', log') ->
               exists ext, log' = log ++ ext).
    { intros x Hx. inversion Hx. eauto. }
    destruct (net log _) as [reason | r]; [eauto |].
    destruct (negb (ok r)); [eauto |].
    destruct (body r) as [ | | items | | | | | | ]; eauto.
    destruct items as [| item rest]; [eauto |].
    destruct (reached limit _); [eauto |].
    destruct (len (item :: rest) <? pageSize); [eauto |].
    apply IH in H. destruct H as (ext & ->).
    rewrite <- app_assoc. eauto.
Qed.

(** C3.  If any archive GET of a pagination run is answered with a
    status outside 200..299, the call throws the error that carries that
    status and status text; the request is the last one of the run, and
    the call does not return the items accumulated so far.  [pre] are
    the requests issued before [req], which is a request of this run. *)
Theorem fetchPaginatedPosts_fails_on_non_2xx
    net this params limit pageSize fuel log res this' log'
    pre req post r :
  fetchPaginatedPosts fuel params limit pageSize net this log
    = (res, this', log') ->
  log' = pre ++ req :: post ->
  (List.length log <= List.length pre)%nat ->
  net pre req = Responds r ->
  ok r = false ->
  res = Threw (fetchError r) /\ post = [].
Proof.
  unfold fetchPaginatedPosts. generalize (@nil PostMetadata) as results.
  generalize 0 as offset.
  revert log. induction fuel as [| fuel IH];
    intros log offset results H Hlog Hlen Hnet Hok.
  - simpl in H. unfold running in H. inversion H as [[Hr Ht Hl]].
    rewrite <- Hl in Hlog. apply (f_equal (@List.length _)) in Hlog.
    rewrite length_app in Hlog. simpl in Hlog. lia.
  - rewrite paginate_S in H. cbv zeta in H.
    set (req0 := pageRequest this params pageSize offset) in *.
    assert (Hstop : forall (x : Res (list PostMetadata)),
               (x, this, log ++ [req0]) = (res, this', log') ->
               pre = log /\ req = req0 /\ post = [] /\ x = res).
    { intros x Hx. inversion Hx as [[Hr Ht Hl]].
      rewrite <- Hl in Hlog.
      assert (List.length pre = List.length log).
      { apply (f_equal (@List.length _)) in Hlog.
        rewrite !length_app in Hlog. simpl in Hlog. lia. }
      destruct (@app_cons_same_length _ log pre [] post req0 req Hlog)
        as (? & ? & ?); auto. }
    destruct (net log req0) as [reason | r0] eqn:Hnet0.
    { destruct (Hstop _ H) as (-> & -> & _). congruence. }
    destruct (negb (ok r0)) eqn:Hok0.
    { destruct (Hstop _ H) as (-> & -> & -> & <-).
      rewrite Hnet0 in Hnet. inversion Hnet; subst. auto. }
    apply negb_false_iff in Hok0.
    assert (Hne : pre = log -> req = req0 -> False).
    { intros -> ->. rewrite Hnet0 in Hnet. inversion Hnet; subst. congruence. }
    destruct (body r0) as [ | | items | | | | | | ];
      try (destruct (Hstop _ H) as (? & ? & _); tauto).
    destruct items as [| item rest];
      [destruct (Hstop _ H) as (? & ? & _); tauto |].
    destruct (reached limit _);
      [destruct (Hstop _ H) as (? & ? & _); tauto |].
    destruct (len (item :: rest) <? pageSize);
      [destruct (Hstop _ H) as (? & ? & _); tauto |].
    destruct (Nat.eq_dec (List.length pre) (List.length log)) as [Heq | Hneq].
    + exfalso. apply paginate_log_extends in H. destruct H as (ext & Hext).
      rewrite Hlog, <- app_assoc in Hext. cbn [app] in Hext.
      destruct (app_cons_same_length _ _ _ _ _ _ Hext Heq) as (? & ? & _). auto.
    + apply (IH (log ++ [req0]) _ _ H Hlog); auto.
      rewrite length_app. simpl. lia.
Qed.

Lemma fetchPaginatedPosts_stops_at_short_page_witness :
  fetchPaginatedPosts 3 Mock.sortNew None 2 (Mock.archive Mock.five)
                      Mock.example [] =
    (Returned Mock.five, Mock.example,
     pageRequests Mock.example Mock.sortNew 2 0 3)
  /\ List.length Mock.five = 5%nat
  /\ List.length (pageRequests Mock.example Mock.sortNew 2 0 3) = 3%nat.
Proof.
  split; [| split; reflexivity].
  apply (@fetchPaginatedPosts_stops_at_short_page
           (Mock.archive Mock.five) Mock.example Mock.sortNew 2
           [map Mock.post [1; 2]; map Mock.post [3; 4]]
           (BPosts (map Mock.post [5])) (map Mock.post [5]) 3).
  - intros [| [| i]] page Hpage; simpl in Hpage.
    + inversion Hpage; subst. split; [| split].
      * eexists. split; [reflexivity | split; reflexivity].
      * discriminate.
      * vm_compute. discriminate.
    + inversion Hpage; subst. split; [| split].
      * eexists. split; [reflexivity | split; reflexivity].
      * discriminate.
      * vm_compute. discriminate.
    + destruct i; discriminate.
  - eexists. split; [reflexivity | split; reflexivity].
  - right. split; [reflexivity |]. right. reflexivity.
  - simpl. lia.
Defined.

Lemma fetchPaginatedPosts_stops_at_limit_witness :
  getPostsMetadata 1 "new" (Some 3) (Mock.archive Mock.ten) Mock.example [] =
    (Returned (map Mock.post [1; 2; 3]), Mock.example,
     pageRequests Mock.example Mock.sortNew DEFAULT_PAGE_SIZE 0 1)
  /\ len (map Mock.post [1; 2; 3]) = 3.
Proof.
  apply (@fetchPaginatedPosts_stops_at_limit
           (Mock.archive Mock.ten) Mock.example Mock.sortNew DEFAULT_PAGE_SIZE
           3 [] Mock.ten 1).
  - lia.
  - intros [| i] page Hpage; discriminate.
  - eexists. split; [reflexivity | split; reflexivity].
  - split; vm_compute; [reflexivity | discriminate].
  - simpl. lia.
Defined.

Lemma fetchPaginatedPosts_limit_zero_witness :
  exists fuel log',
    fetchPaginatedPosts fuel Mock.sortNew (Some 0) 2 (Mock.archive Mock.five)
                        Mock.example [] =
    (Returned Mock.five, Mock.example, log').
Proof.
  apply (proj2 fetchPaginatedPosts_limit_zero Mock.five Mock.sortNew 2
               Mock.example).
  lia.
Defined.

Lemma fetchPaginatedPosts_fails_on_non_2xx_witness :
  fetchPaginatedPosts 3 Mock.sortNew None 2 (Mock.failingAt Mock.five 2)
                      Mock.example [] =
    (Threw (Error "Failed to fetch posts: 500 Internal Server Error"),
     Mock.example, pageRequests Mock.example Mock.sortNew 2 0 2)
  /\ (@Threw (list PostMetadata)
        (Error "Failed to fetch posts: 500 Internal Server Error")
      = Threw (fetchError Mock.serverError)
      /\ @nil Request = []).
Proof.
  split; [reflexivity |].
  apply (@fetchPaginatedPosts_fails_on_non_2xx
           (Mock.failingAt Mock.five 2) Mock.example Mock.sortNew None 2 3 []
           (Threw (Error "Failed to fetch posts: 500 Internal Server Error"))
           Mock.example (pageRequests Mock.example Mock.sortNew 2 0 2)
           [pageRequest Mock.example Mock.sortNew 2 0]
           (pageRequest Mock.example Mock.sortNew 2 2) []
           Mock.serverError).
  - reflexivity.
  - reflexivity.
  - simpl. lia.
  - reflexivity.
  - reflexivity.
Defined.

End NewsletterProofs.

(** ** The profile resolver *)

Module UserProofs.
Import User UserSpec.

Lemma resolveHandleRedirect_run {S} oldHandle net (this : S) log :
  resolveHandleRedirect oldHandle net this log =
  (Returned (redirectTarget (net log (probeReq oldHandle)) oldHandle),
   this, log ++ [probeReq oldHandle]).
Proof.
  unfold resolveHandleRedirect, catch, bind, fetch, redirectTarget.
  fold (probeReq oldHandle).
  destruct (net log (probeReq oldHandle)) as [reason | r]; [reflexivity |].
  destruct (ok r); [| reflexivity].
  destruct (finalPath r) as [pathname |]; [| reflexivity].
  cbn [lift]. unfold ret.
  destruct (Str.split Str.slash (Str.stripSlashes pathname)) as [| first rest];
    [reflexivity |].
  destruct (Str.startsWith "@" first); [| reflexivity].
  cbn [andb].
  destruct (Str.nonempty (Str.slice1 first)
            && negb (String.eqb (Str.slice1 first) oldHandle)); reflexivity.
Qed.

Lemma redirectTarget_nonempty o oldHandle h :
  redirectTarget o oldHandle = Some h -> Str.nonempty h = true.
Proof.
  unfold redirectTarget.
  destruct o as [| r]; [discriminate |].
  destruct (ok r); [| discriminate].
  destruct (finalPath r); [| discriminate].
  destruct (Str.split _ _) as [| first rest]; [discriminate |].
  destruct (Str.startsWith "@" first); [| discriminate].
  destruct (Str.nonempty (Str.slice1 first)) eqn:E; [| discriminate].
  cbn [andb].
  destruct (negb _); [| discriminate].
  now intros [= <-].
Qed.

Lemma fetchUserData_cached net u log data :
  userData u = Some data ->
  fetchUserData false net u log = (Returned (Some data), u, log).
Proof.
  intros H. unfold fetchUserData, bind, self. now rewrite H.
Qed.

(** What a call that goes to the network does, case by case. *)
Lemma fetchUserData_run forceRefresh net u log :
  fetches forceRefresh u = true ->
  fetchUserData forceRefresh net u log =
  let log1 := log ++ [profileReq u] in
  match net log (profileReq u) with
  | Rejects reason => (Threw (FetchRejected reason), u, log1)
  | Responds r =>
    if ok r then
      match body r with
      | BProfile data => (Returned (Some data), set_userData (Some data) u, log1)
      | BNull => (Returned None, set_userData None u, log1)
      | _ => (Threw JsonRejected, u, log1)
      end
    else if (status r =? 404) && followRedirects u
            && negb (redirectAttempted u) then
      let u1 := set_redirectAttempted true u in
      let log2 := log1 ++ [probeReq (username u)] in
      match redirectTarget (net log1 (probeReq (username u))) (username u) with
      | Some h =>
        let u2 := withHandle h u1 in
        let log3 := log2 ++ [profileReq u2] in
        match net log2 (profileReq u2) with
        | Rejects reason => (Threw (FetchRejected reason), u2, log3)
        | Responds rr =>
          if ok rr then
            match body rr with
            | BProfile data =>
              (Returned (Some data), set_userData (Some data) u2, log3)
            | BNull => (Returned None, set_userData None u2, log3)
            | _ => (Threw JsonRejected, u2, log3)
            end
          else
            (Threw (Error ("Failed to fetch user data even after redirect to "
                             ++ h ++ ": " ++ show (status rr))%string),
             u2, log3)
        end
      | None => (Threw (notFoundError r), u1, log2)
      end
    else (Threw (notFoundError r), u, log1)
  end.
Proof.
  intros Hf. cbv zeta.
  assert (Hbody : fetchUserData forceRefresh net u log =
    bind (fetch (profileReq u)) (fun response =>
      if ok response then
        b <- json response ;;
        data <- as_profile b ;;
        assign (set_userData data) ;;;
        ret data
      else
        retried <-
        (if (status response =? 404) && followRedirects u
            && negb (redirectAttempted u)
         then
           assign (set_redirectAttempted true) ;;;
           newHandle <- resolveHandleRedirect (username u) ;;
           if truthyStr newHandle then
             match newHandle with
             | Some h =>
               updateHandle h ;;;
               this' <- self ;;
               retryResponse <- fetch {| via := Plain;
                                         target := endpoint this' |} ;;
               if ok retryResponse then
                 b <- json retryResponse ;;
                 data <- as_profile b ;;
                 assign (set_userData data) ;;;
                 ret (Some data)
               else
                 throw (Error ("Failed to fetch user data even after redirect to "
                                 ++ h ++ ": "
                                 ++ show (status retryResponse))%string)
             | None => ret None
             end
           else ret None
         else ret None) ;;
        match retried with
        | Some data => ret data
        | None => throw (notFoundError response)
        end) net u log).
  { unfold fetchUserData, fetches in *. unfold bind at 1. unfold self at 1.
    destruct (userData u), forceRefresh; try discriminate; reflexivity. }
  rewrite Hbody. clear Hbody.
  unfold bind at 1. unfold fetch at 1. fold (profileReq u).
  destruct (net log (profileReq u)) as [reason | r]; [reflexivity |].
  destruct (ok r).
  { unfold json, as_profile. run.
    destruct (body r); reflexivity. }
  destruct ((status r =? 404) && followRedirects u && negb (redirectAttempted u)).
  2:{ reflexivity. }
  unfold bind at 1. unfold bind at 1. unfold bind at 1.
  unfold assign at 1.
  rewrite resolveHandleRedirect_run.
  destruct (redirectTarget _ _) as [h |] eqn:Eh; [| reflexivity].
  cbn [truthyStr]. rewrite (redirectTarget_nonempty _ _ Eh).
  unfold updateHandle, bind, assign, self, fetch.
  fold (profileReq (withHandle h (set_redirectAttempted true u))).
  destruct (net _ (profileReq (withHandle h (set_redirectAttempted true u))))
    as [reason | rr]; [reflexivity |].
  destruct (ok rr); [| reflexivity].
  unfold json, as_profile. run.
  destruct (body rr); reflexivity.
Qed.

Lemma wellFormed_new username followRedirects :
  wellFormed (new username followRedirects).
Proof. reflexivity. Qed.

Lemma profileReq_wf u : wellFormed u -> profileReq u = profileOf (username u).
Proof. unfold wellFormed, profileReq, profileOf. now intros ->. Qed.

Lemma not_ok_404 r : status r = 404 -> ok r = false.
Proof. unfold ok. now intros ->. Qed.

Ltac user_cases H :=
  repeat match type of H with
         | (let _ := _ in _) = _ => cbv zeta in H
         | match ?x with _ => _ end = _ => destruct x eqn:?
         | (if ?x then _ else _) = _ => destruct x eqn:?
         end.

(** C4.  One call of the profile fetch issues at most two GETs of the
    profile endpoint and at most one redirect probe.  On a 404, with
    redirects followed and no earlier attempt, the attempt is marked,
    the probe is issued once, and if it names a new handle the profile
    is fetched once more, for that handle.  Once the attempt is marked,
    a call that gets a 404 issues no probe and throws. *)
Theorem profile_redirect_at_most_once :
  (forall net forceRefresh u log res u' log',
      wellFormed u ->
      fetchUserData forceRefresh net u log = (res, u', log') ->
      exists ext,
        log' = log ++ ext
        /\ (List.length (filter isProfile ext) <= 2)%nat
        /\ (List.length (filter isProbe ext) <= 1)%nat
        /\ wellFormed u'
        /\ (redirectAttempted u = true ->
            redirectAttempted u' = true /\ filter isProbe ext = []))
  /\ (forall net forceRefresh u log r res u' log',
         wellFormed u ->
         fetches forceRefresh u = true ->
         net log (profileReq u) = Responds r -> status r = 404 ->
         followRedirects u = true -> redirectAttempted u = false ->
         fetchUserData forceRefresh net u log = (res, u', log') ->
         redirectAttempted u' = true /\
         match redirectTarget (net (log ++ [profileReq u])
                                   (probeReq (username u))) (username u) with
         | Some h =>
           log' = log ++ [profileOf (username u); probeReq (username u);
                          profileOf h]
           /\ username u' = h
         | None =>
           log' = log ++ [profileOf (username u); probeReq (username u)]
           /\ res = Threw (notFoundError r)
         end)
  /\ (forall net forceRefresh u log r,
         fetches forceRefresh u = true -> redirectAttempted u = true ->
         net log (profileReq u) = Responds r -> status r = 404 ->
         fetchUserData forceRefresh net u log =
         (Threw (notFoundError r), u, log ++ [profileReq u])).
Proof.
  split; [| split].
  - intros net forceRefresh u log res u' log' Hwf H.
    destruct (fetches forceRefresh u) eqn:Hf.
    + rewrite (@fetchUserData_run forceRefresh net u log Hf) in H.
      rewrite (@profileReq_wf u Hwf) in H.
      assert (Hwf2 : forall h, profileReq
                 (withHandle h (set_redirectAttempted true u)) = profileOf h)
        by reflexivity.
      cbv zeta in H. rewrite ?Hwf2 in H.
      user_cases H; inversion H; subst; clear H;
        rewrite <- ?app_assoc; cbn [app];
        (eexists; split; [reflexivity |]);
        cbn; (repeat split; try lia; try assumption; try reflexivity);
        try (intros Hra);
        try match goal with
            | Hra : redirectAttempted u = true |- _ =>
              rewrite Hra in *; simpl negb in *;
              rewrite ?andb_false_r in *; try discriminate; cbn; auto
            end.
    + unfold fetches in Hf. destruct forceRefresh; [discriminate |].
      destruct (userData u) as [data |] eqn:Hd; [| discriminate].
      rewrite (@fetchUserData_cached net u log data Hd) in H. inversion H; subst.
      exists []. rewrite app_nil_r. cbn. repeat split; auto; lia.
  - intros net forceRefresh u log r res u' log' Hwf Hf Hnet H404 Hfollow Hra H.
    rewrite (@fetchUserData_run forceRefresh net u log Hf) in H. cbv zeta in H.
    rewrite Hnet, (@not_ok_404 r H404), H404, Hfollow, Hra in H.
    cbn [Z.eqb Pos.eqb andb negb] in H.
    rewrite (@profileReq_wf u Hwf) in *.
    destruct (redirectTarget _ _) as [h |].
    + change (profileReq (withHandle h (set_redirectAttempted true u)))
        with (profileOf h) in H.
      rewrite <- !app_assoc in H. cbn [app] in H.
      user_cases H; inversion H; subst; auto.
    + rewrite <- !app_assoc in H. cbn [app] in H.
      inversion H; subst; auto.
  - intros net forceRefresh u log r Hf Hra Hnet H404.
    rewrite (@fetchUserData_run forceRefresh net u log Hf). cbv zeta.
    rewrite Hnet, (@not_ok_404 r H404), Hra, andb_false_r. reflexivity.
Qed.

Lemma profile_redirect_at_most_once_witness :
  let u0 := new "old" true in
  let u1 := set_userData (Some (MockUser.profile "new"))
              (withHandle "new" (set_redirectAttempted true u0)) in
  let log1 := [profileOf "old"; probeReq "old"; profileOf "new"] in
  fetchUserData false MockUser.renamed u0 [] =
    (Returned (Some (MockUser.profile "new")), u1, log1)
  /\ fetchUserData true MockUser.renamed u1 log1 =
     (Threw (Error "Failed to fetch user data: 404 Not Found"), u1,
      log1 ++ [profileOf "new"]).
Proof.
  cbv zeta. split; [reflexivity |].
  apply (proj2 (proj2 profile_redirect_at_most_once)
               MockUser.renamed true
               (set_userData (Some (MockUser.profile "new"))
                  (withHandle "new" (set_redirectAttempted true (new "old" true))))
               [profileOf "old"; probeReq "old"; profileOf "new"]
               MockUser.notFound);
    reflexivity.
Defined.

(** C7, as stated, fails: a fetch that failed leaves nothing behind, so
    the next call, not forced, goes to the network again, and succeeds
    when the network has recovered. *)
Lemma failed_fetch_is_not_terminal :
  let u := new "alice" true in
  fetchUserData false MockUser.recovers u [] =
    (Threw (Error "Failed to fetch user data: 500 Internal Server Error"),
     u, [profileOf "alice"])
  /\ fetchUserData false MockUser.recovers u [profileOf "alice"] =
     (Returned (Some (MockUser.profile "alice")),
      set_userData (Some (MockUser.profile "alice")) u,
      [profileOf "alice"; profileOf "alice"]).
Proof. split; reflexivity. Qed.

(** C7, amended.  A fetched profile is terminal unless a refresh is
    forced: with a profile cached, a call that is not forced issues no
    request, leaves the instance as it is and returns the cached
    profile.  A call that returns leaves in the cache exactly what it
    returns: the profile, or [null] when the server answered 200 with
    the body [null], and then nothing is cached.  A call that does not
    return leaves the cache as it was (the redirect mark and the handle
    may have changed).  With nothing cached a call that is not forced
    issues the GET of the profile endpoint again. *)
Theorem fetched_profile_is_terminal :
  (forall net u log data,
      userData u = Some data ->
      fetchUserData false net u log = (Returned (Some data), u, log))
  /\ (forall net forceRefresh u log data u' log',
         fetchUserData forceRefresh net u log = (Returned data, u', log') ->
         userData u' = data)
  /\ (forall net forceRefresh u log r,
         fetches forceRefresh u = true ->
         net log (profileReq u) = Responds r ->
         ok r = true -> body r = BNull ->
         fetchUserData forceRefresh net u log =
           (Returned None, set_userData None u, log ++ [profileReq u]))
  /\ (forall net forceRefresh u log res u' log',
         fetchUserData forceRefresh net u log = (res, u', log') ->
         (forall data, res <> Returned data) ->
         userData u' = userData u)
  /\ (forall net u log,
         userData u = None ->
         exists res u' ext,
           fetchUserData false net u log = (res, u', log ++ profileReq u :: ext)).
Proof.
  split; [| split; [| split; [| split]]].
  - intros. now apply fetchUserData_cached.
  - intros net forceRefresh u log data u' log' H.
    destruct (fetches forceRefresh u) eqn:Hf.
    + rewrite (@fetchUserData_run forceRefresh net u log Hf) in H.
      user_cases H; inversion H; subst; reflexivity.
    + unfold fetches in Hf. destruct forceRefresh; [discriminate |].
      destruct (userData u) as [d |] eqn:Hd; [| discriminate].
      rewrite (@fetchUserData_cached net u log d Hd) in H.
      inversion H; subst. exact Hd.
  - intros net forceRefresh u log r Hf Hnet Hok Hbody.
    rewrite (@fetchUserData_run forceRefresh net u log Hf). cbv zeta.
    now rewrite Hnet, Hok, Hbody.
  - intros net forceRefresh u log res u' log' H Hres.
    destruct (fetches forceRefresh u) eqn:Hf.
    + rewrite (@fetchUserData_run forceRefresh net u log Hf) in H.
      user_cases H; inversion H; subst; try reflexivity;
        exfalso; eapply Hres; reflexivity.
    + unfold fetches in Hf. destruct forceRefresh; [discriminate |].
      destruct (userData u) as [d |] eqn:Hd; [| discriminate].
      rewrite (@fetchUserData_cached net u log d Hd) in H.
      inversion H; subst. exfalso. eapply Hres. reflexivity.
  - intros net u log Hd.
    assert (Hf : fetches false u = true) by (unfold fetches; now rewrite Hd).
    rewrite (@fetchUserData_run false net u log Hf). cbv zeta.
    destruct (net log (profileReq u)) as [reason | r].
    { do 2 eexists. exists []. reflexivity. }
    destruct (ok r).
    { destruct (body r); do 2 eexists; exists []; reflexivity. }
    destruct (_ && _).
    2:{ do 2 eexists. exists []. reflexivity. }
    destruct (redirectTarget _ _).
    2:{ do 2 eexists. eexists. rewrite <- app_assoc. reflexivity. }
    destruct (net _ _) as [reason | rr].
    { do 2 eexists. eexists. rewrite <- !app_assoc. reflexivity. }
    destruct (ok rr).
    { destruct (body rr); do 2 eexists; eexists; rewrite <- !app_assoc;
        reflexivity. }
    do 2 eexists. eexists. rewrite <- !app_assoc. reflexivity.
Qed.

(** A cached profile is returned without a request; a [null] body is
    returned, nothing is cached, and the next call fetches again. *)
Lemma fetched_profile_is_terminal_witness :
  let u := set_userData (Some (MockUser.profile "alice")) (new "alice" true) in
  let v := new "bob" true in
  fetchUserData false MockUser.recovers u [] =
    (Returned (Some (MockUser.profile "alice")), u, [])
  /\ fetchUserData false MockUser.nullFirst v [] =
     (Returned None, v, [profileOf "bob"])
  /\ fetchUserData false MockUser.nullFirst v [profileOf "bob"] =
     (Returned (Some (MockUser.profile "bob")),
      set_userData (Some (MockUser.profile "bob")) v,
      [profileOf "bob"; profileOf "bob"]).
Proof.
  cbv zeta. split; [| split].
  - apply (proj1 fetched_profile_is_terminal MockUser.recovers
                 (set_userData (Some (MockUser.profile "alice"))
                               (new "alice" true))
                 [] (MockUser.profile "alice")).
    reflexivity.
  - apply (proj1 (proj2 (proj2 fetched_profile_is_terminal))
                 MockUser.nullFirst false (new "bob" true) []
                 {| status := 200; statusText := "OK"; finalPath := None;
                    body := BNull |});
      reflexivity.
  - reflexivity.
Defined.

End UserProofs.

(** ** The category crawl *)

Module CategoryProofs.
Import Category CategorySpec.

(** One iteration of the crawl. *)
Lemma crawl_S fuel allNewsletters pageNum more net c log :
  crawl (S fuel) allNewsletters pageNum more net c log =
  if more && (pageNum <=? MAX_CATEGORY_PAGES) then
    let log1 := log ++ [pageReq (id c) pageNum] in
    match net log (pageReq (id c) pageNum) with
    | Rejects reason => (Threw (FetchRejected reason), c, log1)
    | Responds r =>
      if negb (ok r) then
        (Threw (Error ("Failed to fetch category newsletters: "
                         ++ show (status r) ++ " " ++ statusText r)%string),
         c, log1)
      else
        match body r with
        | BCategoryPage publications more' =>
          crawl fuel (allNewsletters ++ publications) (pageNum + 1) more'
                net c log1
        | _ => (Threw JsonRejected, c, log1)
        end
    end
  else (Returned allNewsletters, c, log).
Proof.
  cbn [crawl].
  destruct (more && (pageNum <=? MAX_CATEGORY_PAGES)); [| reflexivity].
  cbv zeta. unfold bind at 1. unfold self at 1. unfold bind at 1.
  unfold fetch at 1. fold (pageReq (id c) pageNum).
  destruct (net log (pageReq (id c) pageNum)) as [reason | r]; [reflexivity |].
  destruct (negb (ok r)); [reflexivity |].
  unfold json, as_page. run.
  destruct (body r); reflexivity.
Qed.

(** Whatever the network answers, the crawl that starts at page
    [pageNum] issues at most [MAX_CATEGORY_PAGES + 1 - pageNum]
    requests: it terminates. *)
Lemma crawl_bounded net c fuel :
  forall allNewsletters pageNum more log res c' log',
    crawl fuel allNewsletters pageNum more net c log = (res, c', log') ->
    exists ext,
      log' = log ++ ext
      /\ Z.of_nat (List.length ext) <= Z.max 0 (MAX_CATEGORY_PAGES + 1 - pageNum).
Proof.
  induction fuel as [| fuel IH];
    intros allNewsletters pageNum more log res c' log' H.
  - exists []. rewrite app_nil_r. split; [| simpl; lia].
    simpl in H. destruct (more && _); inversion H; reflexivity.
  - rewrite crawl_S in H.
    destruct (more && (pageNum <=? MAX_CATEGORY_PAGES)) eqn:Hc.
    2:{ inversion H. exists []. rewrite app_nil_r. split; [easy | simpl; lia]. }
    apply andb_true_iff in Hc. destruct Hc as [_ Hle]. apply Z.leb_le in Hle.
    cbv zeta in H.
    assert (Hone : forall (x : Res (list NewsletterData)),
               (x, c, log ++ [pageReq (id c) pageNum]) = (res, c', log') ->
               exists ext, log' = log ++ ext
                 /\ Z.of_nat (List.length ext)
                    <= Z.max 0 (MAX_CATEGORY_PAGES + 1 - pageNum)).
    { intros x Hx. inversion Hx. eexists. split; [reflexivity |].
      unfold MAX_CATEGORY_PAGES in *. cbn [List.length]. lia. }
    destruct (net log _) as [reason | r]; [eauto |].
    destruct (negb (ok r)); [eauto |].
    destruct (body r); eauto.
    apply IH in H. destruct H as (ext & -> & Hlen).
    exists (pageReq (id c) pageNum :: ext).
    rewrite <- app_assoc. split; [reflexivity |].
    unfold MAX_CATEGORY_PAGES in *. cbn [List.length]. lia.
Qed.

Lemma crawl_terminates net c fuel :
  forall allNewsletters pageNum more log,
    MAX_CATEGORY_PAGES + 1 - pageNum <= Z.of_nat fuel ->
    fst (fst (crawl fuel allNewsletters pageNum more net c log)) <> Running.
Proof.
  induction fuel as [| fuel IH]; intros allNewsletters pageNum more log Hfuel.
  - cbn [crawl].
    destruct (Z.leb_spec pageNum MAX_CATEGORY_PAGES);
      [unfold MAX_CATEGORY_PAGES in *; lia |].
    rewrite andb_false_r. discriminate.
  - rewrite crawl_S.
    destruct (more && (pageNum <=? MAX_CATEGORY_PAGES)); [| discriminate].
    cbv zeta.
    destruct (net log _) as [reason | r]; [discriminate |].
    destruct (negb (ok r)); [discriminate |].
    destruct (body r); try discriminate.
    apply IH. unfold MAX_CATEGORY_PAGES in *. lia.
Qed.

(** C5, the crawl at the input where the code departs from it: when
    every page reports [more: true], the crawl fetches the pages 0 to
    21, which are 22 pages, one more than [MAX_CATEGORY_PAGES]. *)
Theorem crawl_fetches_one_page_past_the_bound :
  fetchNewslettersData 30 false endless category [] =
    (Returned (map entry (pages 22)),
     set_newslettersData (Some (map entry (pages 22))) category,
     map (pageReq (Some 4)) (pages 22))
  /\ Z.of_nat (List.length (map (pageReq (Some 4)) (pages 22))) = 22
  /\ MAX_CATEGORY_PAGES < 22.
Proof. split; [vm_compute; reflexivity | split; reflexivity]. Qed.

End CategoryProofs.

(** ** Recommendations *)

Module RecommendationProofs.
Import Newsletter NewsletterSpec RecommendationSpec NewsletterProofs.

Lemma matchExact_pure {S} parse lower host publications net (this : S) log :
  exists res, matchExact parse lower host publications net this log = (res, this, log)
              /\ res <> Running.
Proof.
  induction publications as [| item rest IH].
  - eexists. split; [reflexivity | discriminate].
  - cbn [matchExact]. unfold bind at 1.
    assert (Hd : exists res,
               (match custom_domain item with
                | Some d =>
                  if Str.nonempty d then
                    h <- lift (hostFromUrl parse lower d) InvalidUrl ;;
                    ret (String.eqb h host)
                  else ret false
                | None => ret false
                end) net this log = (res, this, log) /\ res <> Running).
    { destruct (custom_domain item) as [d |].
      - destruct (Str.nonempty d).
        + unfold bind, lift. destruct (hostFromUrl parse lower d);
            eexists; (split; [reflexivity | discriminate]).
        + eexists. split; [reflexivity | discriminate].
      - eexists. split; [reflexivity | discriminate]. }
    destruct Hd as (res & -> & Hres).
    destruct res as [byDomain | e |]; [| | congruence].
    + destruct byDomain.
      * eexists. split; [reflexivity | discriminate].
      * destruct (valueOf (subdomain item)) as [sub |]; [| exact IH].
        destruct (_ && _); [| exact IH].
        eexists. split; [reflexivity | discriminate].
    + eexists. split; [reflexivity | discriminate].
Qed.

Lemma matchPublication_pure {S} parse lower data host net (this : S) log :
  exists res, matchPublication parse lower data host net this log = (res, this, log)
              /\ res <> Running.
Proof.
  unfold matchPublication, bind.
  destruct (matchExact_pure parse lower host
              (match data with Some ps => ps | None => [] end) net this log)
    as (res & -> & Hres).
  destruct res as [exact | e |]; [| | congruence].
  - destruct exact.
    + eexists. split; [reflexivity | discriminate].
    + destruct (substackToken host);
        eexists; (split; [reflexivity | discriminate]).
  - eexists. split; [reflexivity | discriminate].
Qed.

Lemma paginate_this net this params limit pageSize fuel :
  forall results offset log res this' log',
    paginate fuel params limit pageSize results offset net this log
      = (res, this', log') -> this' = this.
Proof.
  induction fuel as [| fuel IH]; intros results offset log res this' log' H.
  - now inversion H.
  - rewrite paginate_S in H. cbv zeta in H.
    destruct (net log _) as [reason | r]; [now inversion H |].
    destruct (negb (ok r)); [now inversion H |].
    destruct (body r) as [ | | items | | | | | | ]; try now inversion H.
    destruct items as [| item rest]; [now inversion H |].
    destruct (reached limit _); [now inversion H |].
    destruct (len (item :: rest) <? pageSize); [now inversion H |].
    now apply IH in H.
Qed.

(** With a limit of 1 the loop runs once. *)
Lemma paginate_limit_one net this params pageSize fuel log :
  fst (fst (paginate (S fuel) params (Some 1) pageSize [] 0 net this log))
    <> Running.
Proof.
  rewrite paginate_S. cbv zeta.
  destruct (net log _) as [reason | r]; [discriminate |].
  destruct (negb (ok r)); [discriminate |].
  destruct (body r) as [ | | items | | | | | | ]; try discriminate.
  destruct items as [| item rest]; [discriminate |].
  assert (Hr : reached (Some 1) (len ([] ++ item :: rest)) = true).
  { unfold reached, len. cbn [truthy Z.eqb negb andb app List.length].
    apply Z.leb_le. lia. }
  rewrite Hr. discriminate.
Qed.

Lemma mapM_lift_pure {S A B} (f : A -> option B) e xs net (this : S) log :
  exists res, mapM (fun x => lift (f x) e) xs net this log = (res, this, log)
              /\ res <> Running.
Proof.
  induction xs as [| x xs IH].
  - eexists. split; [reflexivity | discriminate].
  - cbn [mapM]. unfold bind at 1. destruct (f x); cbn [lift].
    + unfold ret at 1. unfold bind at 1.
      destruct IH as (res & -> & Hres).
      destruct res; [| | congruence];
        eexists; (split; [reflexivity | discriminate]).
    + eexists. split; [reflexivity | discriminate].
Qed.

Lemma getPublicationId_not_running net p log :
  fst (fst (Post.getPublicationId net p log)) <> Running.
Proof.
  unfold Post.getPublicationId, Post.fetchPostData, bind, self.
  destruct (Post.postData p) as [data |].
  - destruct (negb false); simpl; discriminate.
  - unfold auth_get, fetch.
    destruct (auth_on (Post.auth p));
      (destruct (net log _) as [reason | r]; [discriminate |];
       destruct (negb (ok r)); [discriminate |];
       unfold json, Post.as_post, ret, throw, assign;
       destruct (body r); discriminate).
Qed.

(** Discovery search, case by case: one request; a rejected request,
    a response outside 200..299 and a body that is no search result give
    no id; a search result gives the id of the publication that
    [matchPublication] finds, and no id when it finds none or throws. *)
Lemma resolvePublicationId_run parse lower net this log host :
  hostFromUrl parse lower (url this) = Some host ->
  let req := searchReq (hd EmptyString (Str.split ":"%char host)) in
  exists id,
    resolvePublicationId parse lower net this log
      = (Returned id, this, log ++ [req])
    /\ match net log req with
       | Rejects _ => id = None
       | Responds r =>
         if ok r then
           match body r with
           | BSearch data =>
             exists found,
               matchPublication parse lower data host net this (log ++ [req])
                 = (found, this, log ++ [req])
               /\ id = match found with
                       | Returned item => option_map pi_id item
                       | _ => None
                       end
           | _ => id = None
           end
         else id = None
       end.
Proof.
  intros Hhost. cbv zeta. unfold resolvePublicationId.
  unfold bind at 1. unfold self at 1. unfold bind at 1.
  rewrite Hhost. cbn [lift]. unfold ret at 1.
  unfold catch. unfold bind at 1. unfold fetch at 1.
  fold (searchReq (hd EmptyString (Str.split ":"%char host))).
  set (req := searchReq _).
  destruct (net log req) as [reason | r]; [eexists; split; reflexivity |].
  destruct (ok r); cbn [negb]; [| eexists; split; reflexivity].
  unfold bind at 1. unfold json.
  destruct (body r) as [ | | | | | | | data | ];
    try (eexists; split; reflexivity).
  unfold ret at 1. unfold bind at 1. cbn [as_search]. unfold ret at 1.
  unfold bind at 1.
  destruct (matchPublication_pure parse lower data host net this (log ++ [req]))
    as (res & Hm & Hres).
  rewrite Hm.
  destruct res as [found | e |]; [| | congruence].
  - eexists. split; [reflexivity |]. eexists. split; reflexivity.
  - eexists. split; [reflexivity |]. eexists. split; reflexivity.
Qed.

(** The listing of the fallback ends and leaves the newsletter as it
    is. *)
Lemma getPosts_limit_one parse net this log fuel :
  (1 <= fuel)%nat ->
  exists posts logA,
    getPosts fuel parse "new" (Some 1) net this log = (posts, this, logA)
    /\ posts <> Running.
Proof.
  intros Hfuel. destruct fuel as [| fuel]; [lia |].
  unfold getPosts, fetchPaginatedPosts. unfold bind at 1.
  pose proof (@paginate_limit_one net this Mock.sortNew DEFAULT_PAGE_SIZE fuel log)
    as Hrun.
  change [("sort", "new")] with Mock.sortNew.
  destruct (paginate (S fuel) Mock.sortNew (Some 1) DEFAULT_PAGE_SIZE [] 0
                     net this log) as [[res this'] log'] eqn:Hp.
  apply paginate_this in Hp. subst this'. cbn [fst] in Hrun.
  destruct res as [postData | e |];
    [| do 2 eexists; split; [reflexivity | discriminate] | congruence].
  unfold bind at 1. unfold self at 1.
  match goal with
  | |- context [mapM (fun x => lift (@?f x) ?e) postData net this log'] =>
    destruct (mapM_lift_pure f e postData net this log') as (res & -> & Hres)
  end.
  do 2 eexists. split; [reflexivity | assumption].
Qed.

(** The post-derived fallback, case by case. *)
Lemma postDerivedId_run parse net this log fuel id1 :
  (1 <= fuel)%nat ->
  truthy id1 = false ->
  exists posts logA id2 log2,
    getPosts fuel parse "new" (Some 1) net this log = (posts, this, logA)
    /\ postDerivedId fuel parse id1 net this log = (Returned id2, this, log2)
    /\ match posts with
       | Returned (first :: _) =>
         exists pid first',
           Post.getPublicationId net first logA = (pid, first', log2)
           /\ match pid with
              | Returned n => id2 = Some n
              | Threw _ => id2 = None
              | Running => False
              end
       | Returned [] => id2 = id1 /\ log2 = logA
       | Threw _ => id2 = None /\ log2 = logA
       | Running => False
       end.
Proof.
  intros Hfuel Ht.
  destruct (@getPosts_limit_one parse net this log fuel Hfuel)
    as (posts & logA & Hposts & Hrun).
  exists posts, logA.
  unfold postDerivedId. rewrite Ht. cbn [negb].
  unfold catch. unfold bind at 1. rewrite Hposts.
  destruct posts as [[| first rest] | e |]; [| | | congruence].
  - exists id1, logA. repeat split; reflexivity.
  - unfold bind at 1. unfold call.
    pose proof (getPublicationId_not_running net first logA) as Hpid.
    destruct (Post.getPublicationId net first logA) as [[pid first'] logB].
    cbn [fst] in Hpid.
    destruct pid as [n | e |]; [| | congruence].
    + exists (Some n), logB. split; [reflexivity |]. split; [reflexivity |].
      exists (Returned n), first'. split; reflexivity.
    + exists None, logB. split; [reflexivity |]. split; [reflexivity |].
      exists (Threw e), first'. split; reflexivity.
  - exists None, logA. repeat split; reflexivity.
Qed.

(** C8, as stated, fails: the recommendations request goes through
    [makeRequest] outside any [try], so when it is rejected (here: a
    timeout) [getRecommendations] throws. *)
Lemma getRecommendations_throws_on_rejected_request :
  getRecommendations 1 parseUrl lowerAscii recsDown Mock.example [] =
    (Threw (FetchRejected "timeout"), Mock.example,
     [searchReq "example.substack.com"; recsReq Mock.example 42]).
Proof. vm_compute. reflexivity. Qed.

(** C8, amended.  For a newsletter whose own address parses,
    [getRecommendations] absorbs every failure of the resolution of the
    publication id.  Discovery search sends one request and returns: a
    rejected request, a response outside 200..299 and a body that is no
    search result give no id, a search result gives the id of the
    publication that [matchPublication] finds, and no id when it finds
    none or throws.  When that id is falsy the first post of the archive
    is fetched: its publication id is the id; when the archive request
    or the post request fails the id is none; when the archive is empty
    the id stays as it was.  With no id, or the id 0, the result is the
    empty list and no further request is made.  With an id the
    recommendations endpoint is asked once: a response outside 200..299
    gives the empty list, a 2xx response gives the recommended
    newsletters (none for the body [null]), and a rejected request or a
    2xx body that does not parse is thrown on. *)
Theorem getRecommendations_absorbs_resolution_failures
    parse lower net this log fuel host :
  (1 <= fuel)%nat ->
  hostFromUrl parse lower (url this) = Some host ->
  let req := searchReq (hd EmptyString (Str.split ":"%char host)) in
  exists id1 log1 id2 log2,
    resolvePublicationId parse lower net this log = (Returned id1, this, log1)
    /\ postDerivedId fuel parse id1 net this log1 = (Returned id2, this, log2)
    /\ log1 = log ++ [req]
    /\ match net log req with
       | Rejects _ => id1 = None
       | Responds r =>
         if ok r then
           match body r with
           | BSearch data =>
             exists found,
               matchPublication parse lower data host net this log1
                 = (found, this, log1)
               /\ id1 = match found with
                        | Returned item => option_map pi_id item
                        | _ => None
                        end
           | _ => id1 = None
           end
         else id1 = None
       end
    /\ (truthy id1 = true -> id2 = id1 /\ log2 = log1)
    /\ (truthy id1 = false ->
        exists posts logA,
          getPosts fuel parse "new" (Some 1) net this log1
            = (posts, this, logA)
          /\ match posts with
             | Returned (first :: _) =>
               exists pid first',
                 Post.getPublicationId net first logA = (pid, first', log2)
                 /\ match pid with
                    | Returned n => id2 = Some n
                    | Threw _ => id2 = None
                    | Running => False
                    end
             | Returned [] => id2 = id1 /\ log2 = logA
             | Threw _ => id2 = None /\ log2 = logA
             | Running => False
             end)
    /\ (truthy id2 = false ->
        getRecommendations fuel parse lower net this log
          = (Returned [], this, log2))
    /\ (forall pid, id2 = Some pid -> pid <> 0 ->
        let log3 := log2 ++ [recsReq this pid] in
        match net log2 (recsReq this pid) with
        | Responds r =>
          if ok r then
            (body r = BNull ->
             getRecommendations fuel parse lower net this log
               = (Returned [], this, log3))
            /\ (forall rs, body r = BRecommendations rs ->
                getRecommendations fuel parse lower net this log =
                (Returned (map (fun u => new u (auth this)) (recommendedUrls rs)),
                 this, log3))
            /\ (body r = BInvalid ->
                getRecommendations fuel parse lower net this log
                  = (Threw JsonRejected, this, log3))
          else
            getRecommendations fuel parse lower net this log
              = (Returned [], this, log3)
        | Rejects reason =>
          getRecommendations fuel parse lower net this log =
          (Threw (FetchRejected reason), this, log3)
        end).
Proof.
  intros Hfuel Hhost. cbv zeta.
  destruct (@resolvePublicationId_run parse lower net this log host Hhost)
    as (id1 & H1 & Hid1).
  set (req := searchReq (hd EmptyString (Str.split ":"%char host))) in *.
  assert (H2 : exists id2 log2,
             postDerivedId fuel parse id1 net this (log ++ [req])
               = (Returned id2, this, log2)
             /\ (truthy id1 = true -> id2 = id1 /\ log2 = log ++ [req])
             /\ (truthy id1 = false ->
                 exists posts logA,
                   getPosts fuel parse "new" (Some 1) net this (log ++ [req])
                     = (posts, this, logA)
                   /\ match posts with
                      | Returned (first :: _) =>
                        exists pid first',
                          Post.getPublicationId net first logA
                            = (pid, first', log2)
                          /\ match pid with
                             | Returned n => id2 = Some n
                             | Threw _ => id2 = None
                             | Running => False
                             end
                      | Returned [] => id2 = id1 /\ log2 = logA
                      | Threw _ => id2 = None /\ log2 = logA
                      | Running => False
                      end)).
  { destruct (truthy id1) eqn:Ht.
    - exists id1, (log ++ [req]). unfold postDerivedId. rewrite Ht.
      split; [reflexivity |]. split; [auto | discriminate].
    - destruct (@postDerivedId_run parse net this (log ++ [req]) fuel id1
                  Hfuel Ht) as (posts & logA & id2 & log2 & Hp & Hd & Hcase).
      exists id2, log2. split; [exact Hd |]. split; [discriminate |].
      intros _. exists posts, logA. split; assumption. }
  destruct H2 as (id2 & log2 & H2 & Hkeep & Hfall).
  exists id1, (log ++ [req]), id2, log2.
  assert (Hrun : getRecommendations fuel parse lower net this log =
                 (match id2 with
                  | Some pid =>
                    if pid =? 0 then ret []
                    else
                      this0 <- self ;;
                      response <- makeRequest (Recommendations (url this0) pid) ;;
                      if negb (ok response) then ret []
                      else
                        b <- json response ;;
                        recommendations <- as_recommendations b ;;
                        ret (map (fun u => new u (auth this0))
                                 (recommendedUrls recommendations))
                  | None => ret []
                  end) net this log2).
  { unfold getRecommendations. unfold bind at 1. rewrite H1.
    unfold bind at 1. rewrite H2. reflexivity. }
  split; [exact H1 |]. split; [exact H2 |]. split; [reflexivity |].
  split; [exact Hid1 |]. split; [exact Hkeep |]. split; [exact Hfall |].
  split.
  - intros Ht. rewrite Hrun. destruct id2 as [pid |]; [| reflexivity].
    cbn [truthy] in Ht. apply negb_false_iff in Ht. now rewrite Ht.
  - intros pid -> Hpid. cbv zeta.
    assert (Hrun' : getRecommendations fuel parse lower net this log =
              match net log2 (recsReq this pid) with
              | Rejects reason =>
                (Threw (FetchRejected reason), this, log2 ++ [recsReq this pid])
              | Responds r =>
                if ok r then
                  match body r with
                  | BNull => (Returned [], this, log2 ++ [recsReq this pid])
                  | BRecommendations rs =>
                    (Returned (map (fun u => new u (auth this)) (recommendedUrls rs)),
                     this, log2 ++ [recsReq this pid])
                  | _ => (Threw JsonRejected, this, log2 ++ [recsReq this pid])
                  end
                else (Returned [], this, log2 ++ [recsReq this pid])
              end).
    { rewrite Hrun.
      destruct (Z.eqb_spec pid 0) as [| _]; [contradiction |].
      unfold bind at 1. unfold self at 1. unfold bind at 1.
      rewrite makeRequest_run. fold (recsReq this pid).
      destruct (net log2 (recsReq this pid)) as [reason | r]; [reflexivity |].
      destruct (ok r); cbn [negb]; [| reflexivity].
      unfold json, as_recommendations. run.
      destruct (body r); reflexivity. }
    rewrite Hrun'.
    destruct (net log2 (recsReq this pid)) as [reason | r]; [reflexivity |].
    destruct (ok r); [| reflexivity].
    split; [| split].
    + intros ->. reflexivity.
    + intros rs ->. reflexivity.
    + intros ->. reflexivity.
Qed.

(** Discovery is down and the first post gives the id; and with every
    request failing the result is the empty list, after the discovery
    request and the archive request. *)
Lemma getRecommendations_absorbs_resolution_failures_witness :
  getRecommendations 1 parseUrl lowerAscii discoveryDown Mock.example [] =
    (Returned [new "www.other.com" None; new "example.substack.com" None],
     Mock.example,
     [searchReq "example.substack.com";
      pageRequest Mock.example Mock.sortNew DEFAULT_PAGE_SIZE 0;
      {| via := Plain;
         target := PostBySlug "https://example.substack.com" (Some "s") |};
      recsReq Mock.example 7])
  /\ getRecommendations 1 parseUrl lowerAscii allDown Mock.example [] =
     (Returned [], Mock.example,
      [searchReq "example.substack.com";
       pageRequest Mock.example Mock.sortNew DEFAULT_PAGE_SIZE 0]).
Proof.
  split; [vm_compute; reflexivity |].
  destruct (@getRecommendations_absorbs_resolution_failures
              parseUrl lowerAscii allDown Mock.example [] 1
              "example.substack.com" ltac:(lia) eq_refl)
    as (id1 & log1 & id2 & log2 & _ & H2 & -> & Hid1 & _ & Hfall & Hnone & _).
  cbn in Hid1. subst id1.
  destruct (Hfall eq_refl) as (posts & logA & Hposts & Hcase).
  vm_compute in Hposts. injection Hposts as <- <-.
  destruct Hcase as [-> ->].
  exact (Hnone eq_refl).
Defined.

End RecommendationProofs.

(** ** The [Post] constructor *)

Module PostProofs.
Import Str PostSpec.

Lemma split_not_nil sep s : split sep s <> [].
Proof.
  destruct s as [| c s]; simpl; [discriminate |].
  destruct (Ascii.eqb c sep); [discriminate |].
  destruct (split sep s); discriminate.
Qed.

(** Removing a trailing slash removes a last, empty segment, or
    nothing. *)
Lemma split_stripTrailingSlash s :
  split slash (stripTrailingSlash s) = split slash s
  \/ split slash s = split slash (stripTrailingSlash s) ++ [EmptyString].
Proof.
  induction s as [| c s IH]; [now left |].
  destruct s as [| d s'].
  - simpl. destruct (Ascii.eqb c slash) eqn:E; [now right | left].
    simpl. now rewrite E.
  - change (stripTrailingSlash (String c (String d s')))
      with (String c (stripTrailingSlash (String d s'))).
    set (Y := String d s') in *.
    change (split slash (String c (stripTrailingSlash Y)))
      with (if Ascii.eqb c slash then EmptyString :: split slash (stripTrailingSlash Y)
            else match split slash (stripTrailingSlash Y) with
                 | seg :: segs => String c seg :: segs
                 | [] => [String c EmptyString]
                 end).
    change (split slash (String c Y))
      with (if Ascii.eqb c slash then EmptyString :: split slash Y
            else match split slash Y with
                 | seg :: segs => String c seg :: segs
                 | [] => [String c EmptyString]
                 end).
    destruct IH as [IH | IH]; rewrite IH.
    + now left.
    + right. destruct (Ascii.eqb c slash); [reflexivity |].
      pose proof (split_not_nil slash (stripTrailingSlash Y)) as Hne.
      destruct (split slash (stripTrailingSlash Y)); [congruence | reflexivity].
Qed.

Lemma filter_split_stripSlashes s :
  filter nonempty (split slash (stripSlashes s)) = filter nonempty (split slash s).
Proof.
  unfold stripSlashes.
  assert (Hlead : filter nonempty (split slash (stripLeadingSlash s))
                  = filter nonempty (split slash s)).
  { destruct s as [| c s]; [reflexivity |]. unfold stripLeadingSlash.
    destruct (Ascii.eqb c slash) eqn:E; [| reflexivity].
    cbn [split]. rewrite E. reflexivity. }
  rewrite <- Hlead.
  destruct (split_stripTrailingSlash (stripLeadingSlash s)) as [H | H];
    rewrite H; [reflexivity |].
  rewrite filter_app. simpl. now rewrite app_nil_r.
Qed.

Lemma last_nonempty_segment (segs : list string) :
  nonempty (lastOf segs) = true ->
  rev (filter nonempty segs) = lastOf segs :: rev (filter nonempty (removelast segs)).
Proof.
  intros H. unfold lastOf in *.
  destruct segs as [| seg segs]; [discriminate |].
  assert (Hne : seg :: segs <> []) by discriminate.
  rewrite (app_removelast_last EmptyString Hne) at 1.
  rewrite filter_app. cbn [filter]. rewrite H.
  now rewrite rev_app_distr.
Qed.

Lemma nonempty_iff s : nonempty s = true <-> s <> EmptyString.
Proof. destruct s; simpl; split; congruence. Qed.

Lemma endsWith_slash_cons c s :
  endsWith "/" (String c s) = (Ascii.eqb "/" c && String.eqb EmptyString s) || endsWith "/" s.
Proof. reflexivity. Qed.

Lemma endsWith_slash_two s :
  endsWith "/" s = true -> exists a b l, split slash s = a :: b :: l.
Proof.
  induction s as [| d s IH]; [discriminate |].
  rewrite endsWith_slash_cons. intros H. apply orb_true_iff in H.
  cbn [split]. destruct H as [H | H].
  - apply andb_true_iff in H. destruct H as [Hd Hs].
    apply Ascii.eqb_eq in Hd. subst d.
    destruct s; [| discriminate]. simpl. eauto.
  - destruct (IH H) as (a & b & l & ->).
    destruct (Ascii.eqb d slash); eauto.
Qed.

(** The slug that the constructor computes is empty exactly when the
    path, one leading and one trailing slash removed, is empty or still
    ends in a slash. *)
Lemma lastOf_split_empty s :
  lastOf (split slash s) = EmptyString <->
  (s = EmptyString \/ endsWith "/" s = true).
Proof.
  unfold lastOf.
  induction s as [| c s IH].
  - simpl. tauto.
  - rewrite endsWith_slash_cons. cbn [split].
    pose proof (split_not_nil slash s) as Hne.
    destruct (Ascii.eqb_spec c slash) as [-> | Hc].
    + destruct (split slash s) as [| seg segs] eqn:Es; [congruence |].
      change (last (EmptyString :: seg :: segs) EmptyString)
        with (last (seg :: segs) EmptyString).
      rewrite IH. change (Ascii.eqb "/" slash) with true. cbn [andb].
      split.
      * intros [-> | H]; right; [reflexivity |]. rewrite H. apply orb_true_r.
      * intros [H | H]; [discriminate |].
        apply orb_true_iff in H. destruct H as [H | H]; [| now right].
        left. destruct s; [reflexivity | discriminate].
    + assert (Hc' : Ascii.eqb "/" c = false).
      { apply Ascii.eqb_neq. intros E. apply Hc. now rewrite <- E. }
      rewrite Hc'. cbn [andb orb].
      destruct (split slash s) as [| seg segs] eqn:Es; [congruence |].
      destruct segs as [| seg' segs'].
      * cbn [last]. split; [discriminate |].
        intros [H | H]; [discriminate |].
        apply endsWith_slash_two in H. destruct H as (a & b & l & H).
        rewrite Es in H. discriminate.
      * change (last (String c seg :: seg' :: segs') EmptyString)
          with (last (seg :: seg' :: segs') EmptyString).
        rewrite IH. split.
        -- intros [-> | H]; [discriminate Es | now right].
        -- intros [H | H]; [discriminate | now right].
Qed.

Lemma stripTrailingSlash_empty t :
  stripTrailingSlash t = EmptyString <-> t = EmptyString \/ t = "/".
Proof.
  destruct t as [| c t]; [simpl; tauto |].
  destruct t as [| d t].
  - simpl. destruct (Ascii.eqb_spec c slash) as [-> | Hc].
    + split; auto.
    + split; [discriminate |]. intros [H | H]; [discriminate |].
      inversion H. contradiction.
  - split; [discriminate |]. intros [H | H]; discriminate.
Qed.

Lemma endsWith_cons p c s :
  endsWith p (String c s) = String.eqb p (String c s) || endsWith p s.
Proof. reflexivity. Qed.

(** What is left after a trailing slash is removed ends in a slash
    exactly when there were two. *)
Lemma endsWith_stripTrailingSlash t :
  endsWith "/" (stripTrailingSlash t) = endsWith "//" t.
Proof.
  induction t as [| c t IH]; [reflexivity |].
  destruct t as [| d t].
  - cbn [stripTrailingSlash].
    destruct (Ascii.eqb_spec c slash) as [-> | Hc]; [reflexivity |].
    cbn [endsWith String.eqb].
    destruct (Ascii.eqb_spec "/"%char c) as [<- | _]; [| reflexivity].
    now contradiction Hc.
  - change (stripTrailingSlash (String c (String d t)))
      with (String c (stripTrailingSlash (String d t))).
    rewrite !endsWith_cons, IH. f_equal.
    cbn [String.eqb].
    destruct (Ascii.eqb "/" c); cbn [andb]; [| reflexivity].
    destruct (stripTrailingSlash (String d t)) eqn:E.
    + apply stripTrailingSlash_empty in E. destruct E as [E | E]; [discriminate |].
      inversion E; subst. reflexivity.
    + destruct (Ascii.eqb_spec "/"%char d) as [<- | Hd]; cbn [andb]; [| reflexivity].
      destruct t as [| e t]; [simpl in E; discriminate | reflexivity].
Qed.

(** The path, one leading and one trailing slash removed, is empty or
    still ends in a slash exactly when the path is empty, is "/", or
    ends in two slashes. *)
Lemma stripSlashes_empty_or_slash p :
  (stripSlashes p = EmptyString \/ endsWith "/" (stripSlashes p) = true)
  <-> (p = EmptyString \/ p = "/" \/ endsWith "//" p = true).
Proof.
  unfold stripSlashes.
  rewrite stripTrailingSlash_empty, endsWith_stripTrailingSlash.
  destruct p as [| c p]; [simpl; tauto |].
  unfold stripLeadingSlash.
  destruct (Ascii.eqb_spec c slash) as [-> | Hc].
  - rewrite (endsWith_cons "//" slash p).
    split.
    + intros [[-> | ->] | H]; auto.
      right. right. rewrite H. apply orb_true_r.
    + intros [H | [H | H]]; [discriminate | inversion H; auto |].
      apply orb_true_iff in H. destruct H as [H | H]; [| auto].
      apply String.eqb_eq in H. inversion H. auto.
  - split.
    + intros [[H | H] | H]; auto.
    + intros [H | [H | H]]; auto.
Qed.

(** C9, as stated, fails: of the path "/p/my-post//" the constructor
    makes the empty slug, though the last non-empty segment is
    "my-post". *)
Lemma slug_of_double_slash_path :
  Post.slug (Post.build "https://example.substack.com/p/my-post//" doubleSlash None)
    = Some EmptyString
  /\ lastNonEmptySegment (pathname doubleSlash) = Some "my-post".
Proof. split; reflexivity. Qed.

(** C9, amended.  The constructor parses and does nothing else: the base
    address is the protocol, "//" and the host, the endpoint is built
    from the base address and the slug, and nothing is cached.  The slug
    is never null.  It is the empty string exactly when the path is
    empty, is "/", or ends in two slashes; in every other case, so also
    for a path with one trailing slash, it is the last non-empty segment
    of the path. *)
Theorem post_constructor_slug (url : string) (parsedUrl : URL)
    (auth : option SubstackAuth) :
  let p := Post.build url parsedUrl auth in
  let path := pathname parsedUrl in
  Post.baseUrl p = (protocol parsedUrl ++ "//" ++ host parsedUrl)%string
  /\ Post.postData p = None
  /\ Post.endpoint p = PostBySlug (Post.baseUrl p) (Post.slug p)
  /\ exists s,
      Post.slug p = Some s
      /\ (s = EmptyString <->
          path = EmptyString \/ path = "/" \/ endsWith "//" path = true)
      /\ (s <> EmptyString -> lastNonEmptySegment path = Some s).
Proof.
  cbv zeta. split; [reflexivity |]. split; [reflexivity |].
  split; [reflexivity |].
  exists (lastOf (split slash (stripSlashes (pathname parsedUrl)))).
  split; [| split].
  - unfold Post.build. cbn [Post.slug].
    pose proof (split_not_nil slash (stripSlashes (pathname parsedUrl))) as Hne.
    destruct (split slash (stripSlashes (pathname parsedUrl))); [congruence |].
    reflexivity.
  - rewrite lastOf_split_empty. apply stripSlashes_empty_or_slash.
  - intros Hs. apply nonempty_iff in Hs.
    unfold lastNonEmptySegment.
    rewrite <- filter_split_stripSlashes.
    now rewrite (last_nonempty_segment _ Hs).
Qed.

(** A path with a trailing slash, and one without. *)
Lemma post_constructor_slug_witness :
  Post.slug (Post.build "https://example.substack.com/p/my-post/" trailing None)
    = Some "my-post"
  /\ lastNonEmptySegment (pathname trailing) = Some "my-post"
  /\ Post.slug (Post.build "https://example.substack.com/p/my-post" regular None)
     = Some "my-post".
Proof.
  split; [reflexivity |]. split; [| reflexivity].
  destruct (post_constructor_slug "https://example.substack.com/p/my-post/"
                                  trailing None)
    as (_ & _ & _ & s & Hslug & _ & Hlast).
  assert (Hs : s = "my-post").
  { cbn in Hslug. now inversion Hslug. }
  rewrite <- Hs. apply Hlast. rewrite Hs. discriminate.
Defined.

End PostProofs.

(** ** HTML normalisation *)

Module HtmlProofs.
Import Html HtmlSpec.
Open Scope N_scope.

(** *** The scan *)

Lemma scan_fuel m (Hm : shrinks m) :
  forall f1 f2 s,
    (List.length s < f1)%nat -> (List.length s < f2)%nat ->
    scan f1 m s = scan f2 m s.
Proof.
  induction f1 as [| f1 IH]; intros f2 s H1 H2; [lia |].
  destruct f2 as [| f2]; [lia |].
  cbn [scan]. destruct (m s) as [[replacement rest] |] eqn:E.
  - apply Hm in E. f_equal. apply IH; lia.
  - destruct s as [| c s']; [reflexivity |]. f_equal.
    cbn [List.length] in *. apply IH; lia.
Qed.

Lemma replace_eq m (Hm : shrinks m) s :
  replace m s =
  match m s with
  | Some (replacement, rest) => replacement ++ replace m rest
  | None =>
    match s with
    | [] => []
    | c :: s' => c :: replace m s'
    end
  end.
Proof.
  unfold replace at 1. cbn [scan].
  destruct (m s) as [[replacement rest] |] eqn:E.
  - f_equal. unfold replace. apply scan_fuel; auto. apply Hm in E. lia.
  - destruct s as [| c s']; [reflexivity |]. f_equal.
Qed.

(** A scan whose matcher only matches at a code unit [c0] leaves a string
    without [c0] as it is. *)
Lemma scan_without m c0 :
  (forall s replacement rest,
      m s = Some (replacement, rest) -> exists s', s = c0 :: s') ->
  forall fuel s, ~ In c0 s -> scan fuel m s = s.
Proof.
  intros Hm. induction fuel as [| fuel IH]; intros s Hs; [reflexivity |].
  cbn [scan]. destruct (m s) as [[replacement rest] |] eqn:E.
  - apply Hm in E. destruct E as (s' & ->). exfalso. apply Hs. now left.
  - destruct s as [| c s']; [reflexivity |]. f_equal. apply IH.
    intros H. apply Hs. now right.
Qed.

Lemma after_cons ci p pat s rest :
  after ci (p :: pat) s = Some rest ->
  exists c s', s = c :: s' /\ sameChar ci p c = true.
Proof.
  destruct s as [| c s']; [discriminate |]. cbn [after].
  destruct (sameChar ci p c) eqn:E; [| discriminate]. eauto.
Qed.

Lemma sameChar_LT ci c : sameChar ci LT c = true -> c = LT.
Proof.
  unfold sameChar, fold, LT. destruct ci.
  - change ((65 <=? 60) && (60 <=? 90)) with false. cbv iota.
    destruct ((65 <=? c) && (c <=? 90)) eqn:E; intros H; apply N.eqb_eq in H.
    + apply andb_true_iff in E. destruct E as [E1 E2].
      apply N.leb_le in E1. lia.
    + now symmetry.
  - intros H. apply N.eqb_eq in H. now symmetry.
Qed.

Lemma sameChar_AMP c : sameChar false AMP c = true -> c = AMP.
Proof. unfold sameChar. intros H. apply N.eqb_eq in H. now symmetry. Qed.

Lemma block_at_LT name s replacement rest :
  block name s = Some (replacement, rest) -> exists s', s = LT :: s'.
Proof.
  unfold block.
  change (lit ("<" ++ name)) with (LT :: lit name).
  destruct (after true (LT :: lit name) s) eqn:E; [| discriminate].
  apply after_cons in E. destruct E as (c & s' & -> & Hc).
  apply sameChar_LT in Hc. subst c. eauto.
Qed.

Lemma closeBlock_at_LT s replacement rest :
  closeBlock s = Some (replacement, rest) -> exists s', s = LT :: s'.
Proof.
  unfold closeBlock.
  destruct (after false (lit "</") s) eqn:E; [| discriminate].
  apply after_cons in E. destruct E as (c & s' & -> & Hc).
  apply sameChar_LT in Hc. subst c. eauto.
Qed.

Lemma br_at_LT s replacement rest :
  br s = Some (replacement, rest) -> exists s', s = LT :: s'.
Proof.
  unfold br.
  destruct (after true (lit "<br") s) eqn:E; [| discriminate].
  apply after_cons in E. destruct E as (c & s' & -> & Hc).
  apply sameChar_LT in Hc. subst c. eauto.
Qed.

Lemma listTag_at_LT s replacement rest :
  listTag s = Some (replacement, rest) -> exists s', s = LT :: s'.
Proof.
  unfold listTag.
  destruct (after false [LT] s) eqn:E; [| discriminate].
  apply after_cons in E. destruct E as (c & s' & -> & Hc).
  apply sameChar_LT in Hc. subst c. eauto.
Qed.

Lemma anyTag_at_LT s replacement rest :
  anyTag s = Some (replacement, rest) -> exists s', s = LT :: s'.
Proof.
  unfold anyTag. destruct s as [| c [| d s']]; try discriminate.
  destruct (c =? LT) eqn:E; [| discriminate].
  apply N.eqb_eq in E. subst c. eauto.
Qed.

Lemma literal_at_AMP entity char s replacement rest tail :
  lit entity = AMP :: tail ->
  literal entity char s = Some (replacement, rest) -> exists s', s = AMP :: s'.
Proof.
  intros He. unfold literal. rewrite He.
  destruct (after false (AMP :: tail) s) eqn:E; [| discriminate].
  apply after_cons in E. destruct E as (c & s' & -> & Hc).
  apply sameChar_AMP in Hc. subst c. eauto.
Qed.

Lemma decimalRef_at_AMP s replacement rest :
  decimalRef s = Some (replacement, rest) -> exists s', s = AMP :: s'.
Proof.
  unfold decimalRef.
  destruct (after false (lit "&#") s) eqn:E; [| discriminate].
  apply after_cons in E. destruct E as (c & s' & -> & Hc).
  apply sameChar_AMP in Hc. subst c. eauto.
Qed.

Lemma hexRef_at_AMP s replacement rest :
  hexRef s = Some (replacement, rest) -> exists s', s = AMP :: s'.
Proof.
  unfold hexRef.
  destruct (after false (lit "&#x") s) eqn:E; [| discriminate].
  apply after_cons in E. destruct E as (c & s' & -> & Hc).
  apply sameChar_AMP in Hc. subst c. eauto.
Qed.

Lemma entities_at_AMP :
  Forall (fun e => exists tail, lit (fst e) = AMP :: tail) entities.
Proof. unfold entities. repeat constructor; eexists; reflexivity. Qed.

(** Text without "<" and without "&" has no markup: the statements of
    [stripHtml] on tags and entities leave it as it is. *)
Lemma stripMarkup_plain s :
  ~ In LT s -> ~ In AMP s -> stripMarkup s = s.
Proof.
  intros Hlt Hamp. unfold stripMarkup, replace.
  rewrite (@scan_without (block "script") LT (@block_at_LT "script")) by assumption.
  rewrite (@scan_without (block "style") LT (@block_at_LT "style")) by assumption.
  rewrite (@scan_without closeBlock LT closeBlock_at_LT) by assumption.
  rewrite (@scan_without br LT br_at_LT) by assumption.
  rewrite (@scan_without listTag LT listTag_at_LT) by assumption.
  rewrite (@scan_without anyTag LT anyTag_at_LT) by assumption.
  match goal with
  | |- context [fold_left ?f entities s] =>
    assert (He : fold_left f entities s = s)
  end.
  { pose proof entities_at_AMP as Hall.
    induction Hall as [| e es (tail & Htail) _ IH]; [reflexivity |].
    cbn [fold_left].
    rewrite (@scan_without (literal (fst e) (snd e)) AMP
               (fun s0 r0 t0 => @literal_at_AMP (fst e) (snd e) s0 r0 t0 tail Htail))
      by assumption.
    exact IH. }
  rewrite He.
  rewrite (@scan_without decimalRef AMP decimalRef_at_AMP) by assumption.
  now rewrite (@scan_without hexRef AMP hexRef_at_AMP) by assumption.
Qed.

Lemma dropWhile_length f s : (List.length (dropWhile f s) <= List.length s)%nat.
Proof.
  induction s as [| c s IH]; simpl; [lia |]. destruct (f c); simpl; lia.
Qed.

Lemma shrinks_spaces : shrinks spaces.
Proof.
  intros [| c s'] replacement rest H; [discriminate |]. cbn [spaces] in H.
  destruct (isSpaceTab c); [| discriminate]. inversion H; subst.
  pose proof (dropWhile_length isSpaceTab s'). simpl. lia.
Qed.

Lemma replace_spaces_cons c l :
  replace spaces (c :: l) =
  if isSpaceTab c then SP :: replace spaces (dropWhile isSpaceTab l)
  else c :: replace spaces l.
Proof.
  rewrite (replace_eq shrinks_spaces). cbn [spaces].
  destruct (isSpaceTab c); reflexivity.
Qed.

Lemma replace_spaces_nil : replace spaces [] = [].
Proof. reflexivity. Qed.

Lemma dropWhile_app_stop f a c b :
  f c = false -> dropWhile f (a ++ c :: b) = dropWhile f a ++ c :: b.
Proof.
  intros Hc. induction a as [| x a IH]; simpl.
  - now rewrite Hc.
  - destruct (f x); [exact IH | reflexivity].
Qed.

Lemma dropWhile_head f s :
  match dropWhile f s with
  | d :: _ => f d = false
  | [] => True
  end.
Proof.
  induction s as [| c s IH]; simpl; [exact I |].
  destruct (f c) eqn:E; [exact IH | exact E].
Qed.

(** Induction on a string along the steps of the [spaces] scan. *)
Lemma spaces_ind (P : list N -> Prop) :
  P [] ->
  (forall c l, isSpaceTab c = false -> P l -> P (c :: l)) ->
  (forall c l, isSpaceTab c = true -> P (dropWhile isSpaceTab l) -> P (c :: l)) ->
  forall l : list N, P l.
Proof.
  intros Hnil Hc Hs l.
  assert (H : forall n l, (List.length l < n)%nat -> P l).
  { induction n as [| n IH]; intros l0 Hl; [lia |].
    destruct l0 as [| c l0]; [exact Hnil |].
    destruct (isSpaceTab c) eqn:E.
    - apply Hs; [exact E |]. apply IH.
      pose proof (dropWhile_length isSpaceTab l0). simpl in Hl. lia.
    - apply Hc; [exact E |]. apply IH. simpl in Hl. lia. }
  apply (H (S (List.length l))). lia.
Qed.

Lemma replace_spaces_app_LF X l :
  replace spaces (l ++ LF :: X) = replace spaces l ++ LF :: replace spaces X.
Proof.
  induction l as [| c l Hc IH | c l Hc IH] using spaces_ind.
  - simpl. now rewrite replace_spaces_cons.
  - cbn [app]. rewrite !replace_spaces_cons, Hc, IH. reflexivity.
  - cbn [app]. rewrite !replace_spaces_cons, Hc.
    rewrite dropWhile_app_stop by reflexivity. now rewrite IH.
Qed.

Lemma replace_spaces_join ls :
  replace spaces (joinLines ls) = joinLines (map (replace spaces) ls).
Proof.
  induction ls as [| l ls IH]; [reflexivity |].
  destruct ls as [| l' ls']; [reflexivity |].
  change (joinLines (l :: l' :: ls')) with (l ++ LF :: joinLines (l' :: ls')).
  rewrite replace_spaces_app_LF, IH. reflexivity.
Qed.

Lemma replace_spaces_next l :
  nextIsSpaceTab l = false -> nextIsSpaceTab (replace spaces l) = false.
Proof.
  destruct l as [| c l]; [reflexivity |]. cbn [nextIsSpaceTab]. intros H.
  rewrite replace_spaces_cons, H. exact H.
Qed.

Lemma dropWhile_next l : nextIsSpaceTab (dropWhile isSpaceTab l) = false.
Proof.
  pose proof (dropWhile_head isSpaceTab l) as H.
  destruct (dropWhile isSpaceTab l); [reflexivity | exact H].
Qed.

Lemma singleSpaced_replace l : singleSpaced (replace spaces l) = true.
Proof.
  induction l as [| c l Hc IH | c l Hc IH] using spaces_ind.
  - reflexivity.
  - rewrite replace_spaces_cons, Hc. cbn [singleSpaced]. now rewrite Hc, IH.
  - rewrite replace_spaces_cons, Hc. cbn [singleSpaced].
    change (isSpaceTab SP) with true. change (SP =? SP) with true.
    rewrite (replace_spaces_next _ (dropWhile_next l)), IH. reflexivity.
Qed.

Lemma replace_singleSpaced l : singleSpaced l = true -> replace spaces l = l.
Proof.
  induction l as [| c l IH]; [reflexivity |]. cbn [singleSpaced].
  intros H. apply andb_true_iff in H. destruct H as [Hc Hl].
  rewrite replace_spaces_cons. destruct (isSpaceTab c).
  - apply andb_true_iff in Hc. destruct Hc as [Hsp Hnext].
    apply N.eqb_eq in Hsp. subst c. apply negb_true_iff in Hnext.
    assert (Hd : dropWhile isSpaceTab l = l).
    { destruct l as [| d l']; [reflexivity |]. simpl in *. now rewrite Hnext. }
    rewrite Hd, (IH Hl). reflexivity.
  - now rewrite (IH Hl).
Qed.

Lemma lfFree_replace l : lfFree l = true -> lfFree (replace spaces l) = true.
Proof.
  induction l as [| c l Hc IH | c l Hc IH] using spaces_ind; intros H.
  - reflexivity.
  - rewrite replace_spaces_cons, Hc. cbn [lfFree forallb] in *.
    apply andb_true_iff in H. destruct H as [H1 H2].
    rewrite H1. now apply IH.
  - rewrite replace_spaces_cons, Hc. cbn [lfFree forallb] in *.
    apply andb_true_iff in H. destruct H as [H1 H2].
    change (negb (SP =? LF)) with true. cbn [andb]. apply IH.
    clear - H2. induction l as [| d l IH]; [reflexivity |].
    cbn [forallb] in H2. apply andb_true_iff in H2. destruct H2 as [Hd Hl].
    simpl. destruct (isSpaceTab d); [now apply IH |].
    cbn [lfFree forallb]. now rewrite Hd.
Qed.

Lemma singleSpaced_tail c l : singleSpaced (c :: l) = true -> singleSpaced l = true.
Proof. cbn [singleSpaced]. intros H. now apply andb_true_iff in H. Qed.

Lemma singleSpaced_dropWhile f l :
  singleSpaced l = true -> singleSpaced (dropWhile f l) = true.
Proof.
  induction l as [| c l IH]; [reflexivity |]. intros H. simpl.
  destruct (f c); [| exact H]. apply IH. exact (singleSpaced_tail _ _ H).
Qed.

Lemma singleSpaced_prefix a b :
  singleSpaced (a ++ b) = true -> singleSpaced a = true.
Proof.
  induction a as [| c a IH]; [reflexivity |]. cbn [app singleSpaced].
  intros H. apply andb_true_iff in H. destruct H as [Hc Ha].
  rewrite (IH Ha), andb_true_r.
  destruct (isSpaceTab c); [| reflexivity].
  apply andb_true_iff in Hc. destruct Hc as [H1 H2]. rewrite H1. cbn [andb].
  destruct a as [| d a']; [reflexivity | exact H2].
Qed.

Lemma splitLines_not_nil s : splitLines s <> [].
Proof.
  destruct s as [| c s]; simpl; [discriminate |].
  destruct (c =? LF); [discriminate |]. destruct (splitLines s); discriminate.
Qed.

Lemma splitLines_cons c s :
  splitLines (c :: s) =
  if c =? LF then [] :: splitLines s
  else match splitLines s with
       | line :: lines => (c :: line) :: lines
       | [] => [[c]]
       end.
Proof. reflexivity. Qed.

Lemma splitLines_app_LF l X :
  lfFree l = true -> splitLines (l ++ LF :: X) = l :: splitLines X.
Proof.
  induction l as [| c l IH]; intros H.
  - reflexivity.
  - cbn [lfFree forallb] in H. apply andb_true_iff in H. destruct H as [Hc Hl].
    cbn [app]. rewrite splitLines_cons. apply negb_true_iff in Hc. rewrite Hc.
    now rewrite (IH Hl).
Qed.

Lemma splitLines_lfFree l : lfFree l = true -> splitLines l = [l].
Proof.
  induction l as [| c l IH]; intros H; [reflexivity |].
  cbn [lfFree forallb] in H. apply andb_true_iff in H. destruct H as [Hc Hl].
  rewrite splitLines_cons. apply negb_true_iff in Hc. rewrite Hc.
  now rewrite (IH Hl).
Qed.

Lemma splitLines_join ls :
  ls <> [] -> Forall (fun l => lfFree l = true) ls ->
  splitLines (joinLines ls) = ls.
Proof.
  induction ls as [| l ls IH]; intros Hne Hall; [congruence |].
  inversion Hall as [| ? ? Hl Hls]; subst.
  destruct ls as [| l' ls'].
  - now apply splitLines_lfFree.
  - change (joinLines (l :: l' :: ls')) with (l ++ LF :: joinLines (l' :: ls')).
    rewrite splitLines_app_LF by exact Hl. f_equal. apply IH; [discriminate | exact Hls].
Qed.

Lemma joinLines_cons l ls :
  ls <> [] -> joinLines (l :: ls) = l ++ LF :: joinLines ls.
Proof. destruct ls; [congruence | reflexivity]. Qed.

Lemma joinLines_split s : joinLines (splitLines s) = s.
Proof.
  induction s as [| c s IH]; [reflexivity |].
  rewrite splitLines_cons. destruct (N.eqb_spec c LF) as [-> | Hc].
  - rewrite joinLines_cons by apply splitLines_not_nil. now rewrite IH.
  - pose proof (splitLines_not_nil s) as Hne.
    destruct (splitLines s) as [| line lines]; [congruence |].
    destruct lines as [| line' lines'].
    + simpl in *. now rewrite IH.
    + change (joinLines ((c :: line) :: line' :: lines'))
        with (c :: (line ++ LF :: joinLines (line' :: lines'))).
      change (joinLines (line :: line' :: lines'))
        with (line ++ LF :: joinLines (line' :: lines')) in IH.
      now rewrite IH.
Qed.

Lemma splitLines_all_lfFree s : Forall (fun l => lfFree l = true) (splitLines s).
Proof.
  induction s as [| c s IH]; [repeat constructor |].
  rewrite splitLines_cons. destruct (N.eqb_spec c LF) as [-> | Hc].
  - constructor; [reflexivity | exact IH].
  - destruct (splitLines s) as [| line lines]; [repeat constructor |].
    + cbn [lfFree forallb]. apply N.eqb_neq in Hc. now rewrite Hc.
    + inversion IH; subst. constructor; [| assumption].
      cbn [lfFree forallb]. apply N.eqb_neq in Hc. rewrite Hc. assumption.
Qed.


Lemma trimEnd_cons c s :
  trimEnd (c :: s) =
  match trimEnd s with
  | [] => if isSpace c then [] else [c]
  | r => c :: r
  end.
Proof. reflexivity. Qed.

Lemma trimEnd_app a b :
  trimEnd (a ++ b) =
  match trimEnd b with
  | [] => trimEnd a
  | r => a ++ r
  end.
Proof.
  induction a as [| c a IH].
  - simpl. destruct (trimEnd b); reflexivity.
  - cbn [app]. rewrite !trimEnd_cons, IH.
    destruct (trimEnd b) as [| x r]; [reflexivity |].
    destruct (a ++ x :: r) eqn:E; [| reflexivity].
    destruct a; discriminate.
Qed.

Lemma trimEnd_idem s : trimEnd (trimEnd s) = trimEnd s.
Proof.
  induction s as [| c s IH]; [reflexivity |].
  rewrite trimEnd_cons. destruct (trimEnd s) as [| x r] eqn:E.
  - destruct (isSpace c) eqn:Ec; [reflexivity |]. simpl. now rewrite Ec.
  - rewrite trimEnd_cons, IH. reflexivity.
Qed.

Lemma trimEnd_split s : exists tail, s = trimEnd s ++ tail /\ wsOnly tail = true.
Proof.
  induction s as [| c s (tail & Hs & Htail)]; [exists []; split; reflexivity |].
  rewrite trimEnd_cons. destruct (trimEnd s) as [| x r] eqn:E.
  - destruct (isSpace c) eqn:Ec.
    + exists (c :: s). split; [reflexivity |]. simpl in Hs. subst tail.
      cbn [wsOnly forallb]. now rewrite Ec.
    + exists tail. split; [| exact Htail]. simpl in *. congruence.
  - exists tail. split; [| exact Htail]. simpl in *. congruence.
Qed.

Lemma trimEnd_head c s x r :
  trimEnd (c :: s) = x :: r -> x = c.
Proof.
  rewrite trimEnd_cons. destruct (trimEnd s).
  - destruct (isSpace c); [discriminate | now intros [= <-]].
  - now intros [= <-].
Qed.

Lemma trimStart_fixed s :
  trimStart s = s <-> match s with c :: _ => isSpace c = false | [] => True end.
Proof.
  unfold trimStart. destruct s as [| c s]; [tauto |]. simpl.
  destruct (isSpace c) eqn:E; split; intros H; try reflexivity; try discriminate.
  exfalso. pose proof (dropWhile_length isSpace s) as Hl. rewrite H in Hl.
  simpl in Hl. lia.
Qed.

Lemma trimmed_trim s : trimmed (trim s).
Proof.
  unfold trimmed, trim. split; [| apply trimEnd_idem].
  apply trimStart_fixed.
  pose proof (dropWhile_head isSpace s) as Hh. fold (trimStart s) in Hh.
  destruct (trimStart s) as [| c r] eqn:E; [exact I |].
  destruct (trimEnd (c :: r)) as [| x r'] eqn:E'; [exact I |].
  apply trimEnd_head in E'. now subst x.
Qed.

Lemma trimmed_nil : trimmed [].
Proof. split; reflexivity. Qed.

Lemma trimmed_wsOnly l : trimmed l -> wsOnly l = true -> l = [].
Proof.
  intros [Hs _] Hw. apply trimStart_fixed in Hs.
  destruct l as [| c l]; [reflexivity |].
  cbn [wsOnly forallb] in Hw. apply andb_true_iff in Hw. destruct Hw. congruence.
Qed.

Lemma trim_trimmed l : trimmed l -> trim l = l.
Proof. intros [Hs He]. unfold trim. now rewrite Hs. Qed.

Lemma trimStart_join lines :
  Forall trimmed lines ->
  trimStart (joinLines lines) = joinLines (dropLeading lines).
Proof.
  induction lines as [| l lines IH]; intros Hall; [reflexivity |].
  inversion Hall as [| ? ? Hl Hls]; subst.
  destruct lines as [| l' lines'].
  - simpl. destruct l as [| c l]; [reflexivity |]. apply Hl.
  - change (joinLines (l :: l' :: lines')) with (l ++ LF :: joinLines (l' :: lines')).
    destruct l as [| c l].
    + exact (IH Hls).
    + destruct Hl as [Hs _]. apply trimStart_fixed in Hs.
      unfold trimStart. cbn [app dropWhile dropLeading isEmpty]. now rewrite Hs.
Qed.

Lemma dropTrailing_cons l lines :
  dropTrailing (l :: lines) =
  match dropTrailing lines with
  | [] => if isEmpty l then [] else [l]
  | r => l :: r
  end.
Proof. reflexivity. Qed.

Lemma last_cons {A} (x d : A) r : last (x :: r) d = last r x.
Proof.
  revert x d. induction r as [| y r IH]; intros x d; [reflexivity |].
  change (last (x :: y :: r) d) with (last (y :: r) d).
  rewrite (IH y d). symmetry. apply IH.
Qed.

Lemma dropTrailing_last lines :
  match dropTrailing lines with
  | [] => True
  | l :: r => isEmpty (last r l) = false
  end.
Proof.
  induction lines as [| l lines IH]; [exact I |].
  rewrite dropTrailing_cons. destruct (dropTrailing lines) as [| x r].
  - destruct (isEmpty l) eqn:E; [exact I | exact E].
  - now rewrite last_cons.
Qed.

Lemma joinLines_nil_inv lines :
  joinLines lines = [] -> lines = [] \/ lines = [[]].
Proof.
  destruct lines as [| l [| l' lines']]; [now left | |].
  - simpl. intros ->. now right.
  - change (joinLines (l :: l' :: lines')) with (l ++ LF :: joinLines (l' :: lines')).
    intros H. destruct l; discriminate.
Qed.

Lemma joinLines_dropTrailing_nil lines :
  joinLines (dropTrailing lines) = [] -> dropTrailing lines = [].
Proof.
  intros H. apply joinLines_nil_inv in H. destruct H as [H | H]; [exact H |].
  pose proof (dropTrailing_last lines) as Hl. rewrite H in Hl. discriminate.
Qed.

Lemma trimEnd_join lines :
  Forall trimmed lines ->
  trimEnd (joinLines lines) = joinLines (dropTrailing lines).
Proof.
  induction lines as [| l lines IH]; intros Hall; [reflexivity |].
  inversion Hall as [| ? ? Hl Hls]; subst.
  rewrite dropTrailing_cons.
  destruct lines as [| l' lines'].
  - simpl. destruct Hl as [_ He]. rewrite He. destruct l; reflexivity.
  - change (joinLines (l :: l' :: lines')) with (l ++ LF :: joinLines (l' :: lines')).
    rewrite trimEnd_app, trimEnd_cons, (IH Hls).
    destruct (dropTrailing (l' :: lines')) as [| x r] eqn:E.
    + cbn [joinLines]. change (isSpace LF) with true. cbv iota.
      destruct Hl as [_ He]. rewrite He. destruct l; reflexivity.
    + destruct (joinLines (x :: r)) as [| y t] eqn:Ej.
      * rewrite <- E in Ej. apply joinLines_dropTrailing_nil in Ej. congruence.
      * rewrite joinLines_cons by discriminate. now rewrite Ej.
Qed.

Lemma dropLeading_sub (P : jsstring -> Prop) lines :
  Forall P lines -> Forall P (dropLeading lines).
Proof.
  induction 1 as [| l lines Hl Hls IH]; [constructor |]. simpl.
  destruct (isEmpty l); [exact IH | now constructor].
Qed.

Lemma dropTrailing_sub (P : jsstring -> Prop) lines :
  Forall P lines -> Forall P (dropTrailing lines).
Proof.
  induction 1 as [| l lines Hl Hls IH]; [constructor |].
  rewrite dropTrailing_cons. destruct (dropTrailing lines).
  - destruct (isEmpty l); repeat constructor; assumption.
  - now constructor.
Qed.

(** [trim] of joined, trimmed lines drops the empty lines at either
    end. *)
Lemma trim_join lines :
  Forall trimmed lines -> trim (joinLines lines) = joinLines (core lines).
Proof.
  intros Hall. unfold trim, core.
  rewrite (trimStart_join Hall).
  apply trimEnd_join. now apply dropLeading_sub.
Qed.

Lemma blankTail_shorter s :
  forall rest, blankTail s = Some rest -> (List.length rest < List.length s)%nat.
Proof.
  induction s as [| c s IH]; intros rest H; [discriminate |].
  cbn [blankTail] in H. destruct (isSpace c); [| discriminate].
  destruct (blankTail s) as [r |] eqn:E.
  - inversion H; subst. specialize (IH rest eq_refl). simpl. lia.
  - destruct (c =? LF); [| discriminate]. inversion H; subst. simpl. lia.
Qed.

Lemma shrinks_blankLines : shrinks blankLines.
Proof.
  intros [| c s'] replacement rest H; [discriminate |]. cbn [blankLines] in H.
  destruct (c =? LF); [| discriminate].
  destruct (blankTail s') as [r |] eqn:E; [| discriminate].
  inversion H; subst. apply blankTail_shorter in E. simpl. lia.
Qed.

Lemma replace_blank_cons c s :
  replace blankLines (c :: s) =
  if c =? LF then
    match blankTail s with
    | Some rest => LF :: LF :: replace blankLines rest
    | None => LF :: replace blankLines s
    end
  else c :: replace blankLines s.
Proof.
  rewrite (replace_eq shrinks_blankLines). cbn [blankLines].
  destruct (N.eqb_spec c LF) as [-> | Hc]; [| reflexivity].
  destruct (blankTail s); reflexivity.
Qed.

Lemma replace_blank_app l X :
  lfFree l = true -> replace blankLines (l ++ X) = l ++ replace blankLines X.
Proof.
  induction l as [| c l IH]; intros H; [reflexivity |].
  cbn [lfFree forallb] in H. apply andb_true_iff in H. destruct H as [Hc Hl].
  cbn [app]. rewrite replace_blank_cons. apply negb_true_iff in Hc. rewrite Hc.
  now rewrite (IH Hl).
Qed.

Lemma replace_blank_lfFree l : lfFree l = true -> replace blankLines l = l.
Proof.
  intros H. rewrite <- (app_nil_r l) at 1. rewrite (replace_blank_app l [] H).
  change (replace blankLines []) with (@nil N). apply app_nil_r.
Qed.

Lemma blankTail_lfFree l : lfFree l = true -> blankTail l = None.
Proof.
  induction l as [| c l IH]; intros H; [reflexivity |].
  cbn [lfFree forallb] in H. apply andb_true_iff in H. destruct H as [Hc Hl].
  cbn [blankTail]. rewrite (IH Hl). apply negb_true_iff in Hc. rewrite Hc.
  destruct (isSpace c); reflexivity.
Qed.

Lemma blankTail_app_LF l Y :
  lfFree l = true ->
  blankTail (l ++ LF :: Y) =
  if wsOnly l then Some (match blankTail Y with Some r => r | None => Y end)
  else None.
Proof.
  induction l as [| c l IH]; intros H.
  - cbn [app blankTail wsOnly forallb]. change (isSpace LF) with true.
    change (LF =? LF) with true. destruct (blankTail Y); reflexivity.
  - cbn [lfFree forallb] in H. apply andb_true_iff in H. destruct H as [Hc Hl].
    cbn [app blankTail wsOnly forallb]. rewrite (IH Hl).
    apply negb_true_iff in Hc. rewrite Hc.
    destruct (isSpace c); [| reflexivity].
    cbn [andb]. fold (wsOnly l). destruct (wsOnly l); reflexivity.
Qed.

Lemma squeezeRest_not_nil b lines : lines <> [] -> squeezeRest b lines <> [].
Proof.
  revert b. induction lines as [| l rest IH]; intros b H; [congruence |].
  cbn [squeezeRest]. destruct rest as [| l' rest']; [discriminate |].
  destruct (wsOnly l); [| discriminate].
  destruct b; [| discriminate]. apply IH. discriminate.
Qed.

Lemma squeezeRest_cons b l l' rest :
  squeezeRest b (l :: l' :: rest) =
  if wsOnly l then (if b then squeezeRest true (l' :: rest) else [] :: squeezeRest true (l' :: rest))
  else l :: squeezeRest false (l' :: rest).
Proof. reflexivity. Qed.

(** The [blankLines] scan, line by line. *)
Lemma replace_blank_lines lines :
  lines <> [] -> Forall (fun l => lfFree l = true) lines ->
  replace blankLines (joinLines lines) = joinLines (squeeze lines)
  /\ replace blankLines (match blankTail (joinLines lines) with
                         | Some r => r
                         | None => joinLines lines
                         end) = joinLines (squeezeRest true lines).
Proof.
  induction lines as [| l lines IH]; intros Hne Hall; [congruence |].
  inversion Hall as [| ? ? Hl Hls]; subst.
  destruct lines as [| l1 rest1].
  - cbn [joinLines squeeze squeezeRest]. rewrite (blankTail_lfFree l Hl).
    split; now apply replace_blank_lfFree.
  - destruct (IH ltac:(discriminate) Hls) as [IHA IHB].
    inversion Hls as [| ? ? Hl1 Hrest1]; subst.
    assert (HA : replace blankLines (joinLines (l :: l1 :: rest1))
                 = joinLines (squeeze (l :: l1 :: rest1))).
    { change (joinLines (l :: l1 :: rest1)) with (l ++ LF :: joinLines (l1 :: rest1)).
      rewrite (replace_blank_app l _ Hl), replace_blank_cons.
      change (LF =? LF) with true. cbv iota.
      cbn [squeeze].
      destruct rest1 as [| l2 rest2].
      - cbn [joinLines squeezeRest]. rewrite (blankTail_lfFree l1 Hl1).
        now rewrite (replace_blank_lfFree l1 Hl1).
      - rewrite squeezeRest_cons.
        change (joinLines (l1 :: l2 :: rest2))
          with (l1 ++ LF :: joinLines (l2 :: rest2)) in *.
        rewrite (blankTail_app_LF l1 _ Hl1) in *.
        rewrite squeezeRest_cons in IHB.
        destruct (wsOnly l1).
        + rewrite IHB.
          rewrite joinLines_cons by discriminate.
          rewrite joinLines_cons by (apply squeezeRest_not_nil; discriminate).
          reflexivity.
        + rewrite IHA. reflexivity. }
    split; [exact HA |].
    change (joinLines (l :: l1 :: rest1)) with (l ++ LF :: joinLines (l1 :: rest1)).
    rewrite (blankTail_app_LF l _ Hl). rewrite squeezeRest_cons.
    destruct (wsOnly l).
    + exact IHB.
    + change (l ++ LF :: joinLines (l1 :: rest1)) with (joinLines (l :: l1 :: rest1)).
      rewrite HA. reflexivity.
Qed.

Lemma dropTrailing_head lines y r :
  dropTrailing lines = y :: r -> exists rest, lines = y :: rest.
Proof.
  destruct lines as [| l lines]; [discriminate |].
  rewrite dropTrailing_cons. destruct (dropTrailing lines).
  - destruct (isEmpty l); [discriminate |]. intros [= <- _]. eauto.
  - intros [= <- _]. eauto.
Qed.

Lemma dropTrailing_idem lines : dropTrailing (dropTrailing lines) = dropTrailing lines.
Proof.
  induction lines as [| l lines IH]; [reflexivity |].
  rewrite dropTrailing_cons. destruct (dropTrailing lines) as [| x r] eqn:E.
  - destruct (isEmpty l) eqn:El; [reflexivity |]. simpl. now rewrite El.
  - rewrite dropTrailing_cons, IH. reflexivity.
Qed.

Lemma dropLeading_fixed lines :
  nextIsEmpty lines = false -> dropLeading lines = lines.
Proof. destruct lines as [| l rest]; [reflexivity |]. simpl. now intros ->. Qed.

Lemma dropLeading_head lines : nextIsEmpty (dropLeading lines) = false.
Proof.
  induction lines as [| l rest IH]; [reflexivity |]. simpl.
  destruct (isEmpty l) eqn:E; [exact IH | exact E].
Qed.

Lemma core_ends lines :
  dropLeading (core lines) = core lines /\ dropTrailing (core lines) = core lines.
Proof.
  unfold core. split; [| apply dropTrailing_idem].
  apply dropLeading_fixed.
  pose proof (dropLeading_head lines) as Hh.
  destruct (dropTrailing (dropLeading lines)) as [| y r] eqn:E; [reflexivity |].
  apply dropTrailing_head in E. destruct E as (rest & E). rewrite E in Hh. exact Hh.
Qed.

(* squeeze leaves normal lines as they are *)

Lemma squeezeRest_fixed rest :
  forall b,
    Forall trimmed rest -> sparse rest = true -> dropTrailing rest = rest ->
    (b = true -> nextIsEmpty rest = false) ->
    squeezeRest b rest = rest.
Proof.
  induction rest as [| l rest IH]; intros b Htrim Hsparse Hlast Hhead;
    [reflexivity |].
  destruct rest as [| l' rest']; [reflexivity |].
  inversion Htrim as [| ? ? Hl Hrest]; subst.
  cbn [sparse] in Hsparse. apply andb_true_iff in Hsparse.
  destruct Hsparse as [Hpair Hsparse].
  assert (Hlast' : dropTrailing (l' :: rest') = l' :: rest').
  { rewrite dropTrailing_cons in Hlast.
    destruct (dropTrailing (l' :: rest')) as [| x r].
    - destruct (isEmpty l); discriminate.
    - now inversion Hlast. }
  rewrite squeezeRest_cons. destruct (wsOnly l) eqn:Hw.
  - apply (trimmed_wsOnly Hl) in Hw. subst l.
    destruct b; [specialize (Hhead eq_refl); discriminate |].
    f_equal. apply IH; auto. intros _.
    cbn [isEmpty andb negb nextIsEmpty] in Hpair.
    now apply negb_true_iff in Hpair.
  - f_equal. apply IH; auto. discriminate.
Qed.

Lemma squeeze_fixed lines :
  Forall trimmed lines -> sparse lines = true -> dropTrailing lines = lines ->
  squeeze lines = lines.
Proof.
  intros Htrim Hsparse Hlast. destruct lines as [| l rest]; [reflexivity |].
  cbn [squeeze]. f_equal.
  inversion Htrim; subst.
  cbn [sparse] in Hsparse. apply andb_true_iff in Hsparse. destruct Hsparse.
  apply squeezeRest_fixed; auto; [| discriminate].
  destruct rest as [| l' rest']; [reflexivity |].
  rewrite dropTrailing_cons in Hlast.
  destruct (dropTrailing (l' :: rest')) as [| x r].
  - destruct (isEmpty l); discriminate.
  - now inversion Hlast.
Qed.

Lemma map_fixed {A} (f : A -> A) (P : A -> Prop) l :
  (forall x, P x -> f x = x) -> Forall P l -> map f l = l.
Proof.
  intros Hf. induction 1 as [| x l Hx Hl IH]; [reflexivity |].
  simpl. now rewrite (Hf x Hx), IH.
Qed.

(** Normal lines, joined, are a fixed point of the white-space
    statements. *)
Lemma normalizeSpace_normal lines :
  normalLines lines -> normalizeSpace (joinLines lines) = joinLines lines.
Proof.
  intros (Hok & Hlead & Htrail & Hsparse).
  destruct lines as [| l0 rest]; [reflexivity |].
  set (L := l0 :: rest) in *.
  assert (Hne : L <> []) by discriminate.
  assert (Hlf : Forall (fun l => lfFree l = true) L).
  { eapply Forall_impl; [| exact Hok]. now intros l (H & _). }
  assert (Htrim : Forall trimmed L).
  { eapply Forall_impl; [| exact Hok]. now intros l (_ & H & _). }
  unfold normalizeSpace.
  rewrite replace_spaces_join.
  rewrite (@map_fixed _ (replace spaces) lineOK L)
    by (auto; intros x (_ & _ & H); now apply replace_singleSpaced).
  rewrite (proj1 (replace_blank_lines Hne Hlf)).
  rewrite (squeeze_fixed Htrim Hsparse Htrail).
  rewrite (splitLines_join Hne Hlf).
  rewrite (@map_fixed _ trim trimmed L) by (auto; apply trim_trimmed).
  rewrite (trim_join Htrim). unfold core. now rewrite Hlead, Htrail.
Qed.

(* the output is normal *)

Lemma lfFree_dropWhile f l : lfFree l = true -> lfFree (dropWhile f l) = true.
Proof.
  induction l as [| c l IH]; [reflexivity |]. intros H. simpl.
  destruct (f c); [| exact H].
  cbn [lfFree forallb] in H. apply andb_true_iff in H. now apply IH.
Qed.

Lemma lfFree_app a b : lfFree (a ++ b) = true -> lfFree a = true.
Proof.
  unfold lfFree. rewrite forallb_app. intros H. now apply andb_true_iff in H.
Qed.

Lemma lineOK_trim l :
  lfFree l = true -> singleSpaced l = true -> lineOK (trim l).
Proof.
  intros Hlf Hss. unfold trim.
  destruct (trimEnd_split (trimStart l)) as (tail & Hsplit & _).
  split; [| split].
  - apply lfFree_app with (b := tail). rewrite <- Hsplit.
    now apply lfFree_dropWhile.
  - apply trimmed_trim.
  - apply singleSpaced_prefix with (b := tail). rewrite <- Hsplit.
    now apply singleSpaced_dropWhile.
Qed.

Lemma trim_nil_iff l : isEmpty (trim l) = wsOnly l.
Proof.
  unfold trim, trimStart.
  induction l as [| c l IH]; [reflexivity |].
  cbn [dropWhile wsOnly forallb]. destruct (isSpace c) eqn:E; [exact IH |].
  cbn [andb]. destruct (trimEnd (c :: l)) as [| x r] eqn:Et; [| reflexivity].
  exfalso. rewrite trimEnd_cons in Et. destruct (trimEnd l).
  - rewrite E in Et. discriminate.
  - discriminate.
Qed.

Lemma squeezeRest_all (P : jsstring -> Prop) rest :
  P [] -> Forall P rest -> forall b, Forall P (squeezeRest b rest).
Proof.
  intros Hnil. induction 1 as [| l rest Hl Hrest IH]; intros b; [constructor |].
  destruct rest as [| l' rest']; [repeat constructor; exact Hl |].
  rewrite squeezeRest_cons. destruct (wsOnly l).
  - destruct b; [apply IH | constructor; [exact Hnil | apply IH]].
  - constructor; [exact Hl | apply IH].
Qed.

Lemma squeeze_all (P : jsstring -> Prop) lines :
  P [] -> Forall P lines -> Forall P (squeeze lines).
Proof.
  intros Hnil Hall. destruct lines as [| l rest]; [constructor |].
  inversion Hall; subst. cbn [squeeze]. constructor; [assumption |].
  now apply squeezeRest_all.
Qed.

Lemma squeeze_not_nil lines : lines <> [] -> squeeze lines <> [].
Proof. destruct lines; [congruence | discriminate]. Qed.

Lemma gapOK_squeezeRest rest :
  forall b,
    gapOK (map trim (squeezeRest b rest)) = true
    /\ (b = true -> gapThenText (map trim (squeezeRest b rest)) = true).
Proof.
  induction rest as [| l rest IH]; intros b; [split; reflexivity |].
  destruct rest as [| l' rest'].
  - cbn [squeezeRest map gapOK gapThenText]. split; [| reflexivity].
    destruct (isEmpty (trim l)); reflexivity.
  - rewrite squeezeRest_cons. destruct (wsOnly l) eqn:Hw.
    + destruct b.
      * apply IH.
      * destruct (IH true) as [Hg Hh]. split; [| discriminate].
        cbn [map gapOK]. change (isEmpty (trim [])) with true. cbv iota.
        rewrite (Hh eq_refl), Hg. reflexivity.
    + destruct (IH false) as [Hg _].
      cbn [map gapOK gapThenText]. rewrite trim_nil_iff, Hw, Hg.
      split; [reflexivity |]. intros _.
      destruct (map trim (squeezeRest false (l' :: rest'))); reflexivity.
Qed.

Lemma gapOK_tail l rest : gapOK (l :: rest) = true -> gapOK rest = true.
Proof. cbn [gapOK]. intros H. now apply andb_true_iff in H. Qed.

Lemma gapOK_dropLeading lines :
  gapOK lines = true -> gapOK (dropLeading lines) = true.
Proof.
  induction lines as [| l rest IH]; [reflexivity |]. intros H. simpl.
  destruct (isEmpty l); [| exact H]. apply IH. exact (gapOK_tail _ _ H).
Qed.

Lemma sparse_dropTrailing lines :
  gapOK lines = true -> sparse (dropTrailing lines) = true.
Proof.
  induction lines as [| l rest IH]; [reflexivity |]. intros H.
  cbn [gapOK] in H. apply andb_true_iff in H. destruct H as [Hl Hrest].
  specialize (IH Hrest). rewrite dropTrailing_cons.
  destruct (dropTrailing rest) as [| y r] eqn:E.
  - destruct (isEmpty l) eqn:El; [reflexivity |]. simpl. now rewrite El.
  - cbn [sparse] in *. rewrite IH, andb_true_r. cbn [nextIsEmpty].
    destruct (isEmpty l); [| reflexivity]. cbn [andb].
    pose proof (dropTrailing_last rest) as Hlast. rewrite E in Hlast.
    destruct (dropTrailing_head _ E) as (rest' & ->).
    destruct rest' as [| z rest''].
    + simpl in E. destruct (isEmpty y); [discriminate | reflexivity].
    + exact Hl.
Qed.

(** What the white-space statements return: normal lines, joined. *)
Lemma normalizeSpace_lines text :
  exists lines, normalizeSpace text = joinLines lines /\ normalLines lines.
Proof.
  set (ls := splitLines text).
  set (ls1 := map (replace spaces) ls).
  set (M := map trim (squeeze ls1)).
  exists (core M).
  assert (Hls : Forall (fun l => lfFree l = true) ls) by apply splitLines_all_lfFree.
  assert (Hne1 : ls1 <> []).
  { unfold ls1. pose proof (splitLines_not_nil text) as H.
    fold ls in H. destruct ls; [congruence | discriminate]. }
  assert (Hls1 : Forall (fun l => lfFree l = true /\ singleSpaced l = true) ls1).
  { unfold ls1. apply Forall_map. eapply Forall_impl; [| exact Hls].
    intros l Hl. split; [now apply lfFree_replace | apply singleSpaced_replace]. }
  assert (Hlf1 : Forall (fun l => lfFree l = true) ls1).
  { eapply Forall_impl; [| exact Hls1]. now intros l (H & _). }
  assert (Hsq : Forall (fun l => lfFree l = true /\ singleSpaced l = true)
                       (squeeze ls1)).
  { apply squeeze_all; [split; reflexivity | exact Hls1]. }
  assert (HM : Forall lineOK M).
  { unfold M. apply Forall_map. eapply Forall_impl; [| exact Hsq].
    intros l (H1 & H2). now apply lineOK_trim. }
  assert (HMt : Forall trimmed M).
  { eapply Forall_impl; [| exact HM]. now intros l (_ & H & _). }
  split.
  - unfold normalizeSpace.
    rewrite <- (joinLines_split text) at 1. fold ls.
    rewrite replace_spaces_join. fold ls1.
    rewrite (proj1 (replace_blank_lines Hne1 Hlf1)).
    rewrite splitLines_join.
    + fold M. now apply trim_join.
    + now apply squeeze_not_nil.
    + eapply Forall_impl; [| exact Hsq]. now intros l (H & _).
  - destruct (core_ends M) as [Hlead Htrail].
    split; [| split; [exact Hlead | split; [exact Htrail |]]].
    + unfold core. now apply dropTrailing_sub, dropLeading_sub.
    + unfold core. apply sparse_dropTrailing.
      unfold M. destruct ls1 as [| l0 rest]; [reflexivity |].
      cbn [squeeze map]. destruct (gapOK_squeezeRest rest false) as [Hg _].
      cbn [dropLeading]. destruct (isEmpty (trim l0)) eqn:E.
      * now apply gapOK_dropLeading.
      * cbn [gapOK]. now rewrite E, Hg.
Qed.

Lemma normalizeSpace_idempotent text :
  normalizeSpace (normalizeSpace text) = normalizeSpace text.
Proof.
  destruct (normalizeSpace_lines text) as (lines & -> & Hnormal).
  now apply normalizeSpace_normal.
Qed.

(** *** Every scan of [stripHtml] runs to the end of its input *)

Lemma after_length ci pat :
  forall s rest, after ci pat s = Some rest ->
    List.length s = (List.length pat + List.length rest)%nat.
Proof.
  induction pat as [| p pat IH]; intros s rest H.
  - simpl in H. now inversion H.
  - destruct s as [| c s]; [discriminate |]. cbn [after] in H.
    destruct (sameChar ci p c); [| discriminate].
    apply IH in H. simpl. lia.
Qed.

Lemma afterFirst_length ci pat :
  forall s rest, afterFirst ci pat s = Some rest ->
    (List.length pat + List.length rest <= List.length s)%nat.
Proof.
  induction s as [| c s IH]; intros rest H; cbn [afterFirst] in H.
  - destruct (after ci pat []) eqn:E; [| discriminate].
    inversion H; subst. apply after_length in E. lia.
  - destruct (after ci pat (c :: s)) eqn:E.
    + inversion H; subst. apply after_length in E. lia.
    + apply IH in H. simpl. lia.
Qed.

Lemma optSlash_length s : (List.length (optSlash s) <= List.length s)%nat.
Proof.
  destruct s as [| c s]; simpl; [lia |]. destruct (c =? 47); simpl; lia.
Qed.

Lemma heading_length s rest :
  heading s = Some rest -> (List.length rest <= List.length s)%nat.
Proof.
  unfold heading. destruct (after true (lit "h") s) as [[| d s'] |] eqn:E;
    try discriminate.
  destruct ((49 <=? d) && (d <=? 54)); [| discriminate].
  intros [= <-]. apply after_length in E. simpl in *. lia.
Qed.

Lemma firstAlt_length alts :
  Forall (fun alt => forall s s', alt s = Some s' ->
                                  (List.length s' <= List.length s)%nat) alts ->
  forall s rest, firstAlt alts s = Some rest ->
    (List.length rest < List.length s)%nat.
Proof.
  induction 1 as [| alt alts Halt _ IH]; intros s rest H; [discriminate |].
  cbn [firstAlt] in H. destruct (alt s) as [s' |] eqn:E; [| now apply IH].
  destruct (after false [GT] s') as [r |] eqn:E'; [| now apply IH].
  inversion H; subst. apply Halt in E. apply after_length in E'. simpl in E'. lia.
Qed.

Lemma after_alt ci pat :
  forall s s', after ci pat s = Some s' -> (List.length s' <= List.length s)%nat.
Proof. intros s s' H. apply after_length in H. lia. Qed.

Lemma shrinks_block name : shrinks (block name).
Proof.
  intros s replacement rest H. unfold block in H.
  destruct (after true (lit ("<" ++ name)) s) as [s1 |] eqn:E1; [| discriminate].
  pose proof (dropWhile_length (fun c => negb (c =? GT)) s1) as Hd.
  destruct (dropWhile (fun c => negb (c =? GT)) s1) as [| g s2]; [discriminate |].
  destruct (afterFirst true (lit ("</" ++ name ++ ">")) s2) as [r |] eqn:E2;
    [| discriminate].
  inversion H; subst. apply after_length in E1. apply afterFirst_length in E2.
  change (lit ("<" ++ name)) with (LT :: lit name) in E1.
  simpl in *. lia.
Qed.

Lemma shrinks_closeBlock : shrinks closeBlock.
Proof.
  intros s replacement rest H. unfold closeBlock in H.
  destruct (after false (lit "</") s) as [s1 |] eqn:E1; [| discriminate].
  destruct (firstAlt _ s1) as [r |] eqn:E2; [| discriminate].
  inversion H; subst. apply after_length in E1.
  apply firstAlt_length in E2; [lia |].
  repeat constructor; try apply after_alt. apply heading_length.
Qed.

Lemma shrinks_br : shrinks br.
Proof.
  intros s replacement rest H. unfold br in H.
  destruct (after true (lit "<br") s) as [s1 |] eqn:E1; [| discriminate].
  destruct (after false [GT] (optSlash (dropWhile isSpace s1))) as [r |] eqn:E2;
    [| discriminate].
  inversion H; subst. apply after_length in E1. apply after_length in E2.
  pose proof (optSlash_length (dropWhile isSpace s1)).
  pose proof (dropWhile_length isSpace s1). simpl in *. lia.
Qed.

Lemma shrinks_listTag : shrinks listTag.
Proof.
  intros s replacement rest H. unfold listTag in H.
  destruct (after false [LT] s) as [s1 |] eqn:E1; [| discriminate].
  destruct (firstAlt _ (optSlash s1)) as [r |] eqn:E2; [| discriminate].
  inversion H; subst. apply after_length in E1.
  apply firstAlt_length in E2; [| repeat constructor; apply after_alt].
  pose proof (optSlash_length s1). simpl in *. lia.
Qed.

Lemma shrinks_anyTag : shrinks anyTag.
Proof.
  intros [| c [| d s']] replacement rest H; try discriminate.
  cbn [anyTag] in H. destruct ((c =? LT) && negb (d =? GT)); [| discriminate].
  pose proof (dropWhile_length (fun c => negb (c =? GT)) s') as Hd.
  destruct (dropWhile (fun c => negb (c =? GT)) s') as [| g r]; [discriminate |].
  inversion H; subst. simpl in *. lia.
Qed.

Lemma shrinks_literal entity char :
  lit entity <> [] -> shrinks (literal entity char).
Proof.
  intros Hne s replacement rest H. unfold literal in H.
  destruct (after false (lit entity) s) as [r |] eqn:E; [| discriminate].
  inversion H; subst. apply after_length in E.
  destruct (lit entity); [congruence |]. simpl in E. lia.
Qed.

Lemma shrinks_entities :
  Forall (fun e => shrinks (literal (fst e) (snd e))) entities.
Proof. unfold entities. repeat constructor; apply shrinks_literal; discriminate. Qed.

Lemma shrinks_decimalRef : shrinks decimalRef.
Proof.
  intros s replacement rest H. unfold decimalRef in H.
  destruct (after false (lit "&#") s) as [s1 |] eqn:E1; [| discriminate].
  cbv zeta in H. destruct (takeWhile isDigit s1); [discriminate |].
  destruct (after false (lit ";") (dropWhile isDigit s1)) as [r |] eqn:E2;
    [| discriminate].
  inversion H; subst. apply after_length in E1. apply after_length in E2.
  pose proof (dropWhile_length isDigit s1). simpl in *. lia.
Qed.

Lemma shrinks_hexRef : shrinks hexRef.
Proof.
  intros s replacement rest H. unfold hexRef in H.
  destruct (after false (lit "&#x") s) as [s1 |] eqn:E1; [| discriminate].
  cbv zeta in H. destruct (takeWhile isHex s1); [discriminate |].
  destruct (after false (lit ";") (dropWhile isHex s1)) as [r |] eqn:E2;
    [| discriminate].
  inversion H; subst. apply after_length in E1. apply after_length in E2.
  pose proof (dropWhile_length isHex s1). simpl in *. lia.
Qed.

(** The fuel that [replace] gives a scan is enough: with more fuel the
    scan gives the same string. *)
Lemma replace_complete m s fuel :
  shrinks m -> (List.length s < fuel)%nat -> scan fuel m s = replace m s.
Proof. intros Hm Hf. unfold replace. apply scan_fuel; [exact Hm | exact Hf | lia]. Qed.

Lemma not_in_plain (c : N) (s : jsstring) :
  forallb (fun x => negb (x =? c)) s = true -> ~ In c s.
Proof.
  intros H Hin. rewrite forallb_forall in H. specialize (H c Hin).
  now rewrite N.eqb_refl in H.
Qed.

Lemma stripHtml_eq html : stripHtml html = normalizeSpace (stripMarkup html).
Proof. reflexivity. Qed.

(** C6, as stated, fails: entities are decoded once, so text that comes
    out with an entity (or a tag) in it changes when it is normalised
    again. *)
Lemma stripHtml_not_idempotent :
  stripHtml (lit "&amp;amp;") = lit "&amp;"
  /\ stripHtml (stripHtml (lit "&amp;amp;")) = lit "&"
  /\ stripHtml (lit "&lt;b&gt;x") = lit "<b>x"
  /\ stripHtml (stripHtml (lit "&lt;b&gt;x")) = lit "x"
  /\ stripHtml (stripHtml (lit "&amp;amp;")) <> stripHtml (lit "&amp;amp;").
Proof.
  repeat split; try (vm_compute; reflexivity).
  vm_compute. discriminate.
Qed.

End HtmlProofs.

(** ** Pagination under a limit, and without one *)

Module PaginationProofs.
Import Newsletter NewsletterSpec NewsletterProofs.

Lemma slice0_len {A} (a : list A) l : 0 < l -> len (slice0 a l) <= l.
Proof.
  intros Hl. unfold slice0, len.
  destruct (Z.ltb_spec l 0) as [? | _]; [lia |].
  rewrite length_firstn. fold (len a). lia.
Qed.

Lemma reached_false l n : 0 < l -> reached (Some l) n = false -> n < l.
Proof.
  unfold reached. cbn [truthy]. intros Hl H.
  destruct (Z.eqb_spec l 0) as [? | _]; [lia |]. cbn [negb andb] in H.
  now apply Z.leb_gt in H.
Qed.

(** The invariant of the loop under a positive limit [l]: fewer than
    [l] results so far. *)
Lemma paginate_under_limit net this params l pageSize fuel :
  0 < l ->
  forall results offset log res this' log',
    len results < l ->
    paginate fuel params (Some l) pageSize results offset net this log
      = (res, this', log') ->
    (forall posts, res = Returned posts -> len posts <= l)
    /\ exists ext,
        log' = log ++ ext
        /\ (0 < pageSize ->
            (Z.of_nat (List.length ext) - 1) * pageSize < l - len results)
        /\ (0 < pageSize -> l - len results <= Z.of_nat fuel * pageSize ->
            res <> Running).
Proof.
  intros Hl.
  induction fuel as [| fuel IH]; intros results offset log res this' log' Hres H.
  - inversion H. split; [discriminate |]. exists []. rewrite app_nil_r.
    repeat split; cbn [List.length]; intros; nia.
  - rewrite paginate_S in H. cbv zeta in H.
    set (req := pageRequest this params pageSize offset) in *.
    assert (Hstop : forall (x : Res (list PostMetadata)),
               (x, this, log ++ [req]) = (res, this', log') ->
               x <> Running ->
               (forall posts, x = Returned posts -> len posts <= l) ->
               (forall posts, res = Returned posts -> len posts <= l)
               /\ exists ext,
                   log' = log ++ ext
                   /\ (0 < pageSize ->
                       (Z.of_nat (List.length ext) - 1) * pageSize
                       < l - len results)
                   /\ (0 < pageSize ->
                       l - len results <= Z.of_nat (S fuel) * pageSize ->
                       res <> Running)).
    { intros x Hx Hrun Hposts. inversion Hx; subst. split; [assumption |].
      exists [req]. repeat split; cbn [List.length]; intros; try assumption; nia. }
    destruct (net log req) as [reason | r].
    { apply (Hstop _ H); [discriminate | discriminate]. }
    destruct (negb (ok r)).
    { apply (Hstop _ H); discriminate. }
    destruct (body r) as [ | | items | | | | | | ];
      try (apply (Hstop _ H); [discriminate | discriminate]).
    { apply (Hstop _ H); [discriminate |]. intros posts [= <-]. lia. }
    destruct items as [| item rest].
    { apply (Hstop _ H); [discriminate |]. intros posts [= <-]. lia. }
    destruct (reached (Some l) _) eqn:Hreached.
    { apply (Hstop _ H); [discriminate |]. intros posts [= <-].
      now apply slice0_len. }
    apply reached_false in Hreached; [| assumption].
    destruct (Z.ltb_spec (len (item :: rest)) pageSize) as [Hshort | Hfull].
    { apply (Hstop _ H); [discriminate |]. intros posts [= <-]. lia. }
    apply IH in H; [| assumption].
    destruct H as (Hposts & ext & -> & Hn & Hrun).
    split; [assumption |].
    exists (req :: ext). rewrite <- app_assoc. split; [reflexivity |].
    rewrite len_app in *. cbn [List.length].
    split; intros Hps.
    + specialize (Hn Hps). nia.
    + intros Hfuel. apply Hrun; [assumption |]. nia.
Qed.

(** The requests of a run are the archive GETs of consecutive pages. *)
Lemma paginate_requests net this params limit pageSize fuel :
  forall results offset log res this' log',
    paginate fuel params limit pageSize results offset net this log
      = (res, this', log') ->
    this' = this
    /\ exists n, (n <= fuel)%nat
        /\ log' = log ++ pageRequests this params pageSize offset n.
Proof.
  induction fuel as [| fuel IH]; intros results offset log res this' log' H.
  - inversion H. split; [reflexivity |]. exists 0%nat.
    rewrite pageRequests_0, app_nil_r. auto.
  - rewrite paginate_S in H. cbv zeta in H.
    set (req := pageRequest this params pageSize offset) in *.
    assert (Hstop : forall (x : Res (list PostMetadata)),
               (x, this, log ++ [req]) = (res, this', log') ->
               this' = this
               /\ exists n, (n <= S fuel)%nat
                   /\ log' = log ++ pageRequests this params pageSize offset n).
    { intros x Hx. inversion Hx; subst. split; [reflexivity |].
      exists 1%nat. rewrite pageRequests_front, pageRequests_0.
      split; [lia | reflexivity]. }
    destruct (net log req) as [reason | r]; [eauto |].
    destruct (negb (ok r)); [eauto |].
    destruct (body r) as [ | | items | | | | | | ]; eauto.
    destruct items as [| item rest]; [eauto |].
    destruct (reached limit _); [eauto |].
    destruct (len (item :: rest) <? pageSize); [eauto |].
    apply IH in H. destruct H as (-> & n & Hn & ->).
    split; [reflexivity |]. exists (S n).
    rewrite pageRequests_front, <- app_assoc. split; [lia | reflexivity].
Qed.

(** X1.  With a positive limit a pagination run never returns more
    posts than the limit, whatever the network answers and whatever the
    page size is. *)
Theorem fetchPaginatedPosts_respects_limit
    net this params l pageSize fuel log posts this' log' :
  0 < l ->
  fetchPaginatedPosts fuel params (Some l) pageSize net this log
    = (Returned posts, this', log') ->
  len posts <= l.
Proof.
  intros Hl H. unfold fetchPaginatedPosts in H.
  apply (@paginate_under_limit net this params l pageSize fuel Hl) in H.
  - destruct H as (Hposts & _). now apply Hposts.
  - unfold len. simpl. lia.
Qed.

Lemma fetchPaginatedPosts_respects_limit_witness :
  len (map Mock.post [1; 2; 3]) <= 3.
Proof.
  apply (@fetchPaginatedPosts_respects_limit
           (Mock.archive Mock.ten) Mock.example Mock.sortNew 3
           DEFAULT_PAGE_SIZE 1 [] (map Mock.post [1; 2; 3]) Mock.example
           (pageRequests Mock.example Mock.sortNew DEFAULT_PAGE_SIZE 0 1)).
  - lia.
  - reflexivity.
Defined.

(** X2.  A positive limit bounds the run.  With a positive page size
    the requests of the run are the archive GETs of [n] consecutive
    pages from offset 0, where [(n - 1) * pageSize < limit]; and the
    run has ended (it is not still running) once it was given
    [limit / pageSize], rounded up, iterations. *)
Theorem fetchPaginatedPosts_limit_bounds_requests
    net this params l pageSize fuel log res this' log' :
  0 < l -> 0 < pageSize ->
  fetchPaginatedPosts fuel params (Some l) pageSize net this log
    = (res, this', log') ->
  exists n,
    log' = log ++ pageRequests this params pageSize 0 n
    /\ (Z.of_nat n - 1) * pageSize < l
    /\ (l <= Z.of_nat fuel * pageSize -> res <> Running).
Proof.
  intros Hl Hps H. unfold fetchPaginatedPosts in H.
  destruct (@paginate_requests net this params (Some l) pageSize fuel
              [] 0 log res this' log' H) as (_ & n & _ & Hlog).
  apply (@paginate_under_limit net this params l pageSize fuel Hl) in H;
    [| unfold len; simpl; lia].
  destruct H as (_ & ext & Hext & Hn & Hrun).
  exists n. split; [assumption |].
  assert (Hlen : List.length ext = n).
  { rewrite Hext in Hlog. apply app_inv_head in Hlog. subst ext.
    apply pageRequests_length. }
  unfold len in Hn, Hrun. cbn [List.length] in Hn, Hrun.
  rewrite Hlen in Hn. split.
  - specialize (Hn Hps). lia.
  - intros Hfuel. apply Hrun; [assumption | lia].
Qed.

Lemma fetchPaginatedPosts_limit_bounds_requests_witness :
  exists n,
    pageRequests Mock.example Mock.sortNew 2 0 2
      = [] ++ pageRequests Mock.example Mock.sortNew 2 0 n
    /\ (Z.of_nat n - 1) * 2 < 3
    /\ (3 <= Z.of_nat 2 * 2 -> Returned (map Mock.post [1; 2; 3]) <> Running).
Proof.
  apply (@fetchPaginatedPosts_limit_bounds_requests
           (Mock.archive Mock.ten) Mock.example Mock.sortNew 3 2 2 []
           (Returned (map Mock.post [1; 2; 3])) Mock.example
           (pageRequests Mock.example Mock.sortNew 2 0 2)).
  - lia.
  - lia.
  - reflexivity.
Defined.

(** X3.  Without a limit (or with the falsy limit 0) the loop has no
    bound of its own: against a server that answers every request with
    a full page, the run is still running after any number of
    iterations and has sent one archive GET per iteration. *)
Theorem fetchPaginatedPosts_unbounded_without_limit
    net this params limit pageSize log :
  truthy limit = false ->
  bottomless net pageSize ->
  forall fuel,
    fetchPaginatedPosts fuel params limit pageSize net this log =
    (Running, this, log ++ pageRequests this params pageSize 0 fuel).
Proof.
  intros Hlimit Hnet fuel. unfold fetchPaginatedPosts.
  generalize (@nil PostMetadata) as results. generalize 0 as offset.
  revert log. induction fuel as [| fuel IH]; intros log offset results.
  - rewrite pageRequests_0, app_nil_r. reflexivity.
  - rewrite paginate_S. cbv zeta.
    destruct (Hnet log (pageRequest this params pageSize offset))
      as (r & items & -> & Hok & Hbody & Hne & Hfull).
    rewrite Hok, Hbody. cbn [negb].
    destruct items as [| item rest]; [congruence |].
    unfold reached. rewrite Hlimit. cbn [andb].
    destruct (Z.ltb_spec (len (item :: rest)) pageSize) as [? | _]; [lia |].
    rewrite IH, pageRequests_front, <- app_assoc. reflexivity.
Qed.

Lemma fetchPaginatedPosts_unbounded_without_limit_witness :
  fetchPaginatedPosts 5 Mock.sortNew None 2 Mock.twoPosts Mock.example [] =
  (Running, Mock.example, pageRequests Mock.example Mock.sortNew 2 0 5).
Proof.
  apply (@fetchPaginatedPosts_unbounded_without_limit
           Mock.twoPosts Mock.example Mock.sortNew None 2 []).
  - reflexivity.
  - intros log req. exists {| status := 200; statusText := "OK";
                             finalPath := None;
                             body := BPosts [Mock.post 1; Mock.post 2] |}.
    exists [Mock.post 1; Mock.post 2].
    repeat split; try reflexivity; try discriminate.
Defined.

End PaginationProofs.

(** ** The listings: posts, search results, podcasts *)

Module ListingProofs.
Import Newsletter NewsletterSpec NewsletterProofs PaginationProofs.

Lemma toPosts_run parse metas net this log :
  exists res, toPosts parse metas net this log = (res, this, log)
              /\ postsOf parse this metas res.
Proof.
  unfold toPosts, bind at 1, self.
  change (exists res,
             mapM (fun item =>
                     lift (Post.new parse (canonical_url item) (auth this))
                          InvalidUrl) metas net this log = (res, this, log)
             /\ postsOf parse this metas res).
  induction metas as [| m metas IH].
  - eexists. split; [reflexivity |]. cbn. auto.
  - cbn [mapM]. unfold bind at 1. unfold Post.new at 1.
    destruct (parse (canonical_url m)) as [parsedUrl |] eqn:Hparse; cbn [lift].
    + unfold ret at 1. unfold bind at 1.
      destruct IH as (res & -> & Hres).
      destruct res as [posts | e |]; cbn in Hres.
      * eexists. split; [reflexivity |]. cbn. destruct Hres as (Hurls & Hall).
        split; [now rewrite Hurls |]. constructor; [now cbn | assumption].
      * eexists. split; [reflexivity |]. cbn.
        destruct Hres as (-> & m' & Hin & Hm'). split; [reflexivity |].
        exists m'. split; [now right | assumption].
      * contradiction.
    + eexists. split; [reflexivity |]. cbn. split; [reflexivity |].
      exists m. split; [now left | assumption].
Qed.

(** A listing: the archive pages for [params], then the posts. *)
Lemma listing_run fuel parse params limit net this log res this' log' :
  (postData <- fetchPaginatedPosts fuel params limit DEFAULT_PAGE_SIZE ;;
   toPosts parse postData) net this log = (res, this', log') ->
  this' = this
  /\ (exists n, (n <= fuel)%nat
        /\ log' = log ++ pageRequests this params DEFAULT_PAGE_SIZE 0 n)
  /\ exists res0,
      fetchPaginatedPosts fuel params limit DEFAULT_PAGE_SIZE net this log
        = (res0, this', log')
      /\ match res0 with
         | Returned metas => postsOf parse this metas res
         | Threw e => res = Threw e
         | Running => res = Running
         end.
Proof.
  unfold bind at 1.
  destruct (fetchPaginatedPosts fuel params limit DEFAULT_PAGE_SIZE net this log)
    as [[res0 this0] log0] eqn:Hfetch.
  destruct (@paginate_requests net this params limit DEFAULT_PAGE_SIZE fuel
              [] 0 log res0 this0 log0 Hfetch) as (-> & Hreqs).
  destruct res0 as [metas | e |].
  - destruct (toPosts_run parse metas net this log0) as (res1 & -> & Hposts).
    intros [= <- <- <-]. split; [reflexivity |]. split; [assumption |].
    eexists. split; [reflexivity | assumption].
  - intros [= <- <- <-]. split; [reflexivity |]. split; [assumption |].
    eexists. split; [reflexivity | reflexivity].
  - intros [= <- <- <-]. split; [reflexivity |]. split; [assumption |].
    eexists. split; [reflexivity | reflexivity].
Qed.



(** X5.  Every request of [getPosts], [searchPosts] and [getPodcasts]
    is an archive GET of the newsletter's own address, with the
    method's parameters, page size 15 and the offsets 0, 15, 30, ... in
    order; none of them changes the newsletter. *)
Theorem listings_request_consecutive_pages fuel parse limit net this log :
  (forall sorting res this' log',
      getPosts fuel parse sorting limit net this log = (res, this', log') ->
      this' = this
      /\ exists n, (n <= fuel)%nat
          /\ log' = log ++ pageRequests this [("sort", sorting)]
                             DEFAULT_PAGE_SIZE 0 n)
  /\ (forall query res this' log',
         searchPosts fuel parse query limit net this log = (res, this', log') ->
         this' = this
         /\ exists n, (n <= fuel)%nat
             /\ log' = log ++ pageRequests this
                                [("sort", "new"); ("search", query)]
                                DEFAULT_PAGE_SIZE 0 n)
  /\ (forall res this' log',
         getPodcasts fuel parse limit net this log = (res, this', log') ->
         this' = this
         /\ exists n, (n <= fuel)%nat
             /\ log' = log ++ pageRequests this
                                [("sort", "new"); ("type", "podcast")]
                                DEFAULT_PAGE_SIZE 0 n).
Proof.
  repeat split; intros.
  all: match goal with H : _ = (_, _, _) |- _ => apply listing_run in H end.
  all: tauto.
Qed.

Lemma listings_request_consecutive_pages_witness :
  Mock.example = Mock.example
  /\ exists n, (n <= 1)%nat
       /\ pageRequests Mock.example [("sort", "new"); ("search", "rocq")]
                       DEFAULT_PAGE_SIZE 0 1
          = [] ++ pageRequests Mock.example [("sort", "new"); ("search", "rocq")]
                               DEFAULT_PAGE_SIZE 0 n.
Proof.
  apply (proj1 (proj2 (@listings_request_consecutive_pages
                         1 RecommendationSpec.parseUrl (Some 2)
                         (Mock.archive Mock.five) Mock.example []))
               "rocq"
               (fst (fst (searchPosts 1 RecommendationSpec.parseUrl "rocq"
                            (Some 2) (Mock.archive Mock.five) Mock.example [])))).
  reflexivity.
Defined.

End ListingProofs.

(** ** Posts: the cache of the post data *)

Module PostDataProofs.
Import Post PostSpec.

Lemma fetchPostData_cached net p log data :
  postData p = Some data ->
  fetchPostData false net p log = (Returned (Some data), p, log).
Proof.
  intros H. unfold fetchPostData, bind, self. now rewrite H.
Qed.

Lemma fetchPostData_run forceRefresh net p log :
  fetchesPost forceRefresh p = true ->
  fetchPostData forceRefresh net p log =
  let log1 := log ++ [postReq p] in
  match net log (postReq p) with
  | Rejects reason => (Threw (FetchRejected reason), p, log1)
  | Responds r =>
    if ok r then
      match body r with
      | BPost data => (Returned (Some data), set_postData (Some data) p, log1)
      | BNull => (Returned None, set_postData None p, log1)
      | _ => (Threw JsonRejected, p, log1)
      end
    else (Threw (postError r), p, log1)
  end.
Proof.
  intros Hf. unfold fetchPostData, bind at 1, self.
  assert (Hgo : forall k : M t (option PostMetadata),
             match postData p, forceRefresh with
             | Some data, false => ret (Some data)
             | _, _ => k
             end = k).
  { intros k. unfold fetchesPost in Hf.
    destruct (postData p), forceRefresh; try reflexivity; discriminate. }
  rewrite Hgo. unfold bind at 1. unfold postReq, auth_get, fetch.
  destruct (auth_on (auth p)).
  all: destruct (net log _) as [reason | r]; [reflexivity |];
    destruct (ok r); cbn [negb]; [| reflexivity];
    unfold json, as_post; run; destruct (body r); reflexivity.
Qed.

(** What a post fetch returns is what it leaves in the cache. *)
Lemma fetchPostData_returned forceRefresh net p log data p' log' :
  fetchPostData forceRefresh net p log = (Returned data, p', log') ->
  postData p' = data.
Proof.
  intros H. destruct (fetchesPost forceRefresh p) eqn:Hf.
  - rewrite (fetchPostData_run _ _ _ _ Hf) in H. cbv zeta in H.
    destruct (net log (postReq p)) as [reason | r]; [discriminate |].
    destruct (ok r); [| discriminate].
    destruct (body r); try discriminate; now inversion H.
  - unfold fetchesPost in Hf. apply orb_false_iff in Hf. destruct Hf as (-> & Hc).
    destruct (postData p) as [d |] eqn:Hd; [| discriminate].
    rewrite (fetchPostData_cached _ _ _ Hd) in H. now inversion H; subst.
Qed.

(** X6.  A post fetch that returns leaves in the cache what it
    returns.  When it returned the post, the getters share it:
    [getMetadata], [getContent], [getPreviewText], [isPaywalled] and
    [getPublicationId] answer from the cache, on every network, without
    a request.  When it returned [null] (the server answered 200 with
    the body [null]) nothing is cached: every getter sends the request
    of the post again, and where the answer is [null] again the getters
    that read a property throw the type error. *)
Theorem post_getters_share_one_fetch
    forceRefresh net p log data p' log' :
  fetchPostData forceRefresh net p log = (Returned data, p', log') ->
  postData p' = data
  /\ match data with
     | Some d =>
       forall net' log'',
         getMetadata false net' p' log'' = (Returned (Some d), p', log'')
         /\ getContent false net' p' log''
            = (Returned (body_html d), p', log'')
         /\ getPreviewText net' p' log''
            = (Returned (truncated_body_text d), p', log'')
         /\ isPaywalled net' p' log'' = (Returned (paywalled d), p', log'')
         /\ getPublicationId net' p' log''
            = (Returned (publication_id d), p', log'')
     | None =>
       fetchesPost false p' = true
       /\ forall net' log'' r,
           net' log'' (postReq p') = Responds r ->
           ok r = true -> body r = BNull ->
           let log3 := log'' ++ [postReq p'] in
           getMetadata false net' p' log'' = (Returned None, p', log3)
           /\ getContent false net' p' log'' = (Threw TypeError, p', log3)
           /\ getPreviewText net' p' log'' = (Threw TypeError, p', log3)
           /\ isPaywalled net' p' log'' = (Threw TypeError, p', log3)
           /\ getPublicationId net' p' log'' = (Threw TypeError, p', log3)
     end.
Proof.
  intros H. pose proof (fetchPostData_returned _ _ _ _ H) as Hdata.
  split; [assumption |].
  destruct data as [d |].
  - intros net' log''.
    unfold getMetadata, getContent, getPreviewText, isPaywalled,
      getPublicationId, paywalled, bind.
    rewrite !(fetchPostData_cached _ _ _ Hdata). repeat split.
  - assert (Hf : fetchesPost false p' = true).
    { unfold fetchesPost. now rewrite Hdata. }
    split; [assumption |].
    intros net' log'' r Hnet Hok Hbody. cbv zeta.
    assert (Hp : set_postData None p' = p').
    { destruct p'. cbn in Hdata. subst. reflexivity. }
    unfold getMetadata, getContent, getPreviewText, isPaywalled,
      getPublicationId, bind.
    rewrite !(fetchPostData_run _ _ _ _ Hf). cbv zeta.
    rewrite Hnet, Hok, Hbody, Hp. repeat split.
Qed.

Lemma post_getters_share_one_fetch_witness :
  let p' := set_postData (Some Mock.article) fresh in
  getContent false servedOnce fresh []
    = (Returned (Some (Html.lit "<p>" ++ [8364%N] ++ Html.lit "5</p>")), p',
       [postReq fresh])
  /\ isPaywalled servedOnce p' [postReq fresh]
     = (Returned true, p', [postReq fresh])
  /\ fetchPostData false nullBody fresh []
     = (Returned None, fresh, [postReq fresh])
  /\ isPaywalled nullBody fresh [postReq fresh]
     = (Threw TypeError, fresh, [postReq fresh; postReq fresh]).
Proof.
  split; [reflexivity |]. split; [| split; reflexivity].
  apply (proj2 (@post_getters_share_one_fetch false servedOnce fresh []
                  (Some Mock.article)
                  (set_postData (Some Mock.article) fresh) [postReq fresh]
                  eq_refl)).
Defined.

(** X7.  A post fetch that goes to the network sends exactly one
    request and ends.  If it does not return, the post is left as it
    was, so a failed forced refresh keeps the data cached before; a
    response outside 200..299 makes it throw the error with that status
    and status text. *)
Theorem failed_post_fetch_keeps_the_cache forceRefresh net p log res p' log' :
  fetchesPost forceRefresh p = true ->
  fetchPostData forceRefresh net p log = (res, p', log') ->
  log' = log ++ [postReq p]
  /\ res <> Running
  /\ ((forall data, res <> Returned data) -> p' = p)
  /\ (forall r, net log (postReq p) = Responds r -> ok r = false ->
      res = Threw (postError r)).
Proof.
  intros Hf H. rewrite (fetchPostData_run _ _ _ _ Hf) in H. cbv zeta in H.
  destruct (net log (postReq p)) as [reason | r].
  { inversion H; subst. repeat split; try discriminate. }
  destruct (ok r) eqn:Hok.
  - destruct (body r); inversion H; subst;
      repeat split; try discriminate; try congruence.
  - inversion H; subst. repeat split; try discriminate.
    intros r0 [= <-] _. reflexivity.
Qed.

Lemma failed_post_fetch_keeps_the_cache_witness :
  let p := set_postData (Some Mock.article) fresh in
  let res : Res (option PostMetadata) :=
    Threw (postError Mock.serverError) in
  [postReq fresh; postReq p] = [postReq fresh] ++ [postReq p]
  /\ res <> Running
  /\ ((forall data, res <> Returned data) -> p = p)
  /\ (forall r, servedOnce [postReq fresh] (postReq p) = Responds r ->
      ok r = false -> res = Threw (postError r)).
Proof.
  exact (@failed_post_fetch_keeps_the_cache true servedOnce
           (set_postData (Some Mock.article) fresh) [postReq fresh]
           (Threw (postError Mock.serverError))
           (set_postData (Some Mock.article) fresh)
           [postReq fresh; postReq (set_postData (Some Mock.article) fresh)]
           eq_refl eq_refl).
Defined.

End PostDataProofs.

(** ** Discovery and recommendations *)

Module DiscoveryProofs.
Import Newsletter NewsletterSpec NewsletterProofs RecommendationSpec.
Import RecommendationProofs PaginationProofs ListingProofs.

Lemma matchExact_spec {S} parse lower host publications net (this : S) log :
  exists res,
    matchExact parse lower host publications net this log = (res, this, log)
    /\ firstMatch parse lower host publications res.
Proof.
  induction publications as [| item rest IH].
  - eexists. split; [reflexivity |]. constructor.
  - cbn [matchExact]. unfold bind at 1.
    assert (Hsub : forall res,
               firstMatch parse lower host rest res ->
               ~ matchesHost parse lower host item ->
               firstMatch parse lower host (item :: rest) res).
    { intros res Hres Hno. destruct res as [[found |] | e |]; cbn in *.
      - destruct Hres as (pre & post & -> & Hm & Hpre).
        exists (item :: pre), post. repeat split; auto.
      - auto.
      - destruct Hres as (-> & pre & bad & post & -> & Hbad & Hpre).
        split; [reflexivity |]. exists (item :: pre), bad, post.
        repeat split; auto.
      - assumption. }
    assert (Hhit : matchesHost parse lower host item ->
                   firstMatch parse lower host (item :: rest) (Returned (Some item))).
    { intros Hm. exists [], rest. repeat split; auto. }
    assert (Hbysub :
              (forall d, custom_domain item = Some d -> Str.nonempty d = true ->
                         hostFromUrl parse lower d <> Some host) ->
              exists res,
                (match valueOf (subdomain item) with
                 | Some sub =>
                   if Str.nonempty sub &&
                      String.eqb (lower sub ++ ".substack.com")%string host
                   then ret (Some item)
                   else matchExact parse lower host rest
                 | None => matchExact parse lower host rest
                 end) net this log = (res, this, log)
                /\ firstMatch parse lower host (item :: rest) res).
    { intros Hdom. destruct IH as (res & IH & Hres).
      destruct (subdomain item) as [| | sub] eqn:Esub; cbn [valueOf].
      1, 2: (exists res; split; [assumption |]; apply Hsub; [assumption |];
             intros [(d & Hd & Hned & Hh) | (s & Hs & Hnes & Hh)];
             [now apply (Hdom d) | congruence]).
      destruct (Str.nonempty sub) eqn:Ene; cbn [andb].
      - destruct (String.eqb_spec (lower sub ++ ".substack.com")%string host)
          as [Heq | Hneq].
        + eexists. split; [reflexivity |]. apply Hhit. right. eauto.
        + exists res. split; [assumption |]. apply Hsub; [assumption |].
          intros [(d & Hd & Hned & Hh) | (s & Hs & Hnes & Hh)].
          * now apply (Hdom d).
          * congruence.
      - exists res. split; [assumption |]. apply Hsub; [assumption |].
        intros [(d & Hd & Hned & Hh) | (s & Hs & Hnes & Hh)].
        + now apply (Hdom d).
        + congruence. }
    destruct (custom_domain item) as [d |] eqn:Edom.
    + destruct (Str.nonempty d) eqn:Ened.
      * unfold bind at 1.
        destruct (hostFromUrl parse lower d) as [h |] eqn:Eh; cbn [lift].
        -- unfold ret at 1. unfold ret at 1.
           destruct (String.eqb_spec h host) as [-> | Hneq].
           ++ eexists. split; [reflexivity |]. apply Hhit. left. eauto.
           ++ apply Hbysub. intros d' [= <-] _. congruence.
        -- eexists. split; [reflexivity |]. cbn. split; [reflexivity |].
           exists [], item, rest. repeat split; auto. exists d. auto.
      * unfold ret at 1. apply Hbysub. intros d' [= <-]. congruence.
    + unfold ret at 1. apply Hbysub. discriminate.
Qed.

Lemma endsWith_length p s :
  Str.endsWith p s = true -> (String.length p <= String.length s)%nat.
Proof.
  induction s as [| c s IH]; cbn [Str.endsWith]; intros H.
  - rewrite orb_false_r in H. apply String.eqb_eq in H. subst. lia.
  - apply orb_true_iff in H. destruct H as [H | H].
    + apply String.eqb_eq in H. subst. lia.
    + apply IH in H. cbn [String.length]. lia.
Qed.

Lemma endsWith_take p s :
  Str.endsWith p s = true ->
  s = (Str.take (String.length s - String.length p) s ++ p)%string.
Proof.
  induction s as [| c s IH]; cbn [Str.endsWith]; intros H.
  - rewrite orb_false_r in H. apply String.eqb_eq in H. now subst.
  - apply orb_true_iff in H. destruct H as [H | H].
    + apply String.eqb_eq in H. subst p. now rewrite Nat.sub_diag.
    + pose proof (endsWith_length _ _ H) as Hlen.
      cbn [String.length].
      replace (S (String.length s) - String.length p)%nat
        with (S (String.length s - String.length p)) by lia.
      cbn [Str.take append]. f_equal. now apply IH.
Qed.

Lemma substackToken_host host sub :
  substackToken host = Some sub ->
  host = (sub ++ ".substack.com")%string /\ Str.nonempty sub = true.
Proof.
  unfold substackToken.
  destruct (Str.endsWith ".substack.com" host) eqn:Hends; [| discriminate].
  destruct (Str.nonempty _) eqn:Hne; [| discriminate]. cbn [andb].
  destruct (Str.allChars _ _); [| discriminate].
  intros [= <-]. split; [| assumption].
  exact (endsWith_take _ _ Hends).
Qed.

Lemma matchLoose_none parse lower host sub publications :
  lower EmptyString = EmptyString ->
  host = (sub ++ ".substack.com")%string -> Str.nonempty sub = true ->
  Forall (fun i => ~ matchesHost parse lower host i) publications ->
  matchLoose lower sub publications = None.
Proof.
  intros Hempty Hhost Hne.
  induction 1 as [| item rest Hno _ IH]; [reflexivity |].
  cbn [matchLoose].
  destruct (subdomain item) as [| | s] eqn:Es; cbn [valueOf];
    [assumption | assumption |].
  destruct (String.eqb_spec (lower s) sub) as [Heq | _]; [| assumption].
  exfalso. apply Hno. right. exists s. repeat split.
  - assumption.
  - destruct s as [| c s]; [| reflexivity].
    rewrite Hempty in Heq. subst sub. discriminate Hne.
  - now rewrite Heq.
Qed.

Lemma matchPublication_exact {S} parse lower data host net (this : S) log :
  lower EmptyString = EmptyString ->
  matchPublication parse lower data host net this log =
  matchExact parse lower host (publicationsOf data) net this log.
Proof.
  intros Hempty.
  unfold matchPublication. fold (publicationsOf data). unfold bind.
  destruct (matchExact_spec parse lower host (publicationsOf data) net this log)
    as (res & -> & Hres).
  destruct res as [[item |] | e |]; try reflexivity.
  destruct (substackToken host) as [sub |] eqn:Htoken; [| reflexivity].
  apply substackToken_host in Htoken. destruct Htoken as (Hhost & Hne).
  unfold ret.
  now rewrite (@matchLoose_none parse lower host sub _ Hempty Hhost Hne Hres).
Qed.

(** X8.  The fallback of [matchPublication] on the subdomain token
    never finds anything: on every search result and host, and with
    every case conversion that keeps the empty string empty,
    [matchPublication] does what its first loop alone does. *)
Theorem matchPublication_fallback_is_redundant
    parse lower data host net (this : Newsletter.t) log :
  lower EmptyString = EmptyString ->
  matchPublication parse lower data host net this log =
  matchExact parse lower host (publicationsOf data) net this log.
Proof.
  intros Hempty.
  unfold matchPublication. fold (publicationsOf data). unfold bind.
  destruct (matchExact_spec parse lower host (publicationsOf data) net this log)
    as (res & -> & Hnone).
  destruct res as [[item |] | e |]; try reflexivity.
  destruct (substackToken host) as [sub |] eqn:Htoken; [| reflexivity].
  apply substackToken_host in Htoken. destruct Htoken as (Hhost & Hne).
  cbn [firstMatch] in Hnone. unfold ret.
  now rewrite (@matchLoose_none parse lower host sub _ Hempty Hhost Hne Hnone).
Qed.

Lemma matchPublication_fallback_is_redundant_witness :
  matchPublication parseUrl lowerAscii (Some [otherPublication; examplePublication])
    "example.substack.com" discoveryDown Mock.example []
  = matchExact parseUrl lowerAscii "example.substack.com"
      [otherPublication; examplePublication] discoveryDown Mock.example [].
Proof.
  exact (@matchPublication_fallback_is_redundant parseUrl lowerAscii
           (Some [otherPublication; examplePublication])
           "example.substack.com" discoveryDown Mock.example [] eq_refl).
Defined.

Lemma matchPublication_spec {S} parse lower data host net (this : S) log :
  lower EmptyString = EmptyString ->
  exists res,
    matchPublication parse lower data host net this log = (res, this, log)
    /\ firstMatch parse lower host (publicationsOf data) res.
Proof.
  intros Hempty. rewrite (@matchPublication_exact _ parse lower data host net this log Hempty).
  apply matchExact_spec.
Qed.



(** X10.  [resolvePublicationId]: when the newsletter's own address
    does not parse it throws before anything is sent.  Otherwise it
    sends exactly one request, the discovery search for the host
    without its port, with the discovery headers and never the cookies,
    and it returns whatever the network does; an id that it returns is
    the id of a publication of the response that matches the host, under
    the case conversion of the platform. *)
Theorem resolvePublicationId_sends_one_discovery_request
    parse lower net this log :
  lower EmptyString = EmptyString ->
  match hostFromUrl parse lower (url this) with
  | None =>
    resolvePublicationId parse lower net this log
      = (Threw InvalidUrl, this, log)
  | Some host =>
    let req := searchReq (hd EmptyString (Str.split ":"%char host)) in
    exists id,
      resolvePublicationId parse lower net this log
        = (Returned id, this, log ++ [req])
      /\ forall pid, id = Some pid ->
           exists r item,
             net log req = Responds r /\ ok r = true
             /\ (exists data, body r = BSearch data
                              /\ In item (publicationsOf data))
             /\ matchesHost parse lower host item /\ pi_id item = pid
  end.
Proof.
  intros Hempty.
  destruct (hostFromUrl parse lower (url this)) as [host |] eqn:Hhost.
  2: { unfold resolvePublicationId, bind, self. now rewrite Hhost. }
  unfold resolvePublicationId.
  unfold bind at 1. unfold self at 1. unfold bind at 1.
  rewrite Hhost.
  cbn [lift]. unfold ret at 1. cbv zeta.
  unfold catch. unfold bind at 1. unfold fetch at 1.
  fold (searchReq (hd EmptyString (Str.split ":"%char host))).
  set (req := searchReq _).
  destruct (net log req) as [reason | r] eqn:Hnet.
  { eexists. split; [reflexivity | discriminate]. }
  destruct (ok r) eqn:Hok; cbn [negb].
  2: { eexists. split; [reflexivity | discriminate]. }
  unfold bind at 1. unfold json.
  destruct (body r) as [ | | | | | | | data | ] eqn:Hbody;
    try (eexists; split; [reflexivity | discriminate]).
  unfold ret at 1. unfold bind at 1. cbn [as_search]. unfold ret at 1.
  unfold bind at 1.
  destruct (@matchPublication_spec _ parse lower data host net this
              (log ++ [req]) Hempty) as (res & -> & Hres).
  destruct res as [[item |] | e |]; cbn in Hres.
  - eexists. split; [reflexivity |]. intros pid [= <-].
    destruct Hres as (pre & post & Hps & Hm & _).
    exists r, item. repeat split; auto.
    exists data. split; [assumption |]. rewrite Hps. apply in_elt.
  - eexists. split; [reflexivity | discriminate].
  - eexists. split; [reflexivity | discriminate].
  - contradiction.
Qed.

Lemma resolvePublicationId_sends_one_discovery_request_witness :
  resolvePublicationId parseUrl lowerAscii recsDown Mock.example []
    = (Returned (Some 42), Mock.example, [searchReq "example.substack.com"])
  /\ exists id,
      resolvePublicationId parseUrl lowerAscii recsDown Mock.example []
        = (Returned id, Mock.example, [searchReq "example.substack.com"])
      /\ forall pid, id = Some pid ->
           exists r item,
             recsDown [] (searchReq "example.substack.com") = Responds r
             /\ ok r = true
             /\ (exists data, body r = BSearch data
                              /\ In item (publicationsOf data))
             /\ matchesHost parseUrl lowerAscii "example.substack.com" item
             /\ pi_id item = pid.
Proof.
  split; [vm_compute; reflexivity |].
  exact (@resolvePublicationId_sends_one_discovery_request
           parseUrl lowerAscii recsDown Mock.example [] eq_refl).
Defined.

Lemma resolvePublicationId_bound parse lower net this log :
  exists res ext,
    resolvePublicationId parse lower net this log = (res, this, log ++ ext)
    /\ (List.length ext <= 1)%nat /\ res <> Running.
Proof.
  unfold resolvePublicationId.
  unfold bind at 1. unfold self at 1. unfold bind at 1.
  destruct (hostFromUrl parse lower (url this)) as [host |]; cbn [lift].
  2: { exists (Threw InvalidUrl), []. rewrite app_nil_r.
       split; [reflexivity |]. split; [simpl; lia | discriminate]. }
  unfold ret at 1. unfold catch. unfold bind at 1. unfold fetch at 1.
  assert (Hone : forall x : Res (option Z), x <> Running ->
             forall req : Request,
             exists res ext,
               (x, this, log ++ [req]) = (res, this, log ++ ext)
               /\ (List.length ext <= 1)%nat /\ res <> Running).
  { intros x Hx req. exists x, [req]. split; [reflexivity |].
    split; [simpl; lia | assumption]. }
  destruct (net log _) as [reason | r]; [apply Hone; discriminate |].
  destruct (negb (ok r)); [apply Hone; discriminate |].
  unfold bind at 1. unfold json.
  destruct (body r); try (apply Hone; discriminate).
  unfold ret at 1. unfold bind at 1. cbn [as_search]. unfold ret at 1.
  unfold bind at 1.
  match goal with
  | |- context [matchPublication parse lower ?d host net this ?l] =>
    destruct (matchPublication_pure parse lower d host net this l) as (res & -> & Hres)
  end.
  destruct res; [| | congruence]; apply Hone; discriminate.
Qed.

Lemma getPublicationId_bound net p log :
  exists res p' ext,
    Post.getPublicationId net p log = (res, p', log ++ ext)
    /\ (List.length ext <= 1)%nat /\ res <> Running.
Proof.
  unfold Post.getPublicationId. unfold bind.
  destruct (PostSpec.fetchesPost false p) eqn:Hf.
  - rewrite (@PostDataProofs.fetchPostData_run false net p log Hf). cbv zeta.
    destruct (net log _) as [reason | r].
    { do 3 eexists. split; [reflexivity |]. split; [simpl; lia | discriminate]. }
    destruct (ok r).
    + destruct (body r);
        do 3 eexists; (split; [reflexivity |]); (split; [simpl; lia | discriminate]).
    + do 3 eexists. split; [reflexivity |]. split; [simpl; lia | discriminate].
  - unfold PostSpec.fetchesPost in Hf. cbn [orb] in Hf.
    destruct (Post.postData p) as [d |] eqn:Hd; [| discriminate].
    rewrite (@PostDataProofs.fetchPostData_cached net p log d Hd).
    exists (Returned (publication_id d)), p, []. rewrite app_nil_r.
    split; [reflexivity |]. split; [simpl; lia | discriminate].
Qed.

Lemma postDerivedId_bound fuel parse publicationId net this log :
  exists res ext,
    postDerivedId fuel parse publicationId net this log
      = (res, this, log ++ ext)
    /\ (List.length ext <= 2)%nat
    /\ (forall e, res <> Threw e)
    /\ ((1 <= fuel)%nat -> res <> Running).
Proof.
  unfold postDerivedId.
  destruct (negb (truthy publicationId)).
  2: { exists (Returned publicationId), []. rewrite app_nil_r.
       split; [reflexivity |]. split; [simpl; lia |].
       split; [discriminate | discriminate]. }
  unfold catch.
  unfold bind at 1.
  destruct (getPosts fuel parse "new" (Some 1) net this log)
    as [[res0 this0] log0] eqn:Hposts.
  pose proof Hposts as Hrun.
  apply listing_run in Hrun.
  destruct Hrun as (-> & (n & Hn & ->) & res1 & Hfetch & Hres1).
  unfold fetchPaginatedPosts in Hfetch.
  apply (@paginate_under_limit net this [("sort", "new")] 1 DEFAULT_PAGE_SIZE
           fuel ltac:(lia)) in Hfetch; [| unfold len; simpl; lia].
  destruct Hfetch as (_ & ext & Hext & Hlen & Hfuel).
  apply app_inv_head in Hext. subst ext. rewrite pageRequests_length in Hlen.
  assert (Hn1 : (n <= 1)%nat).
  { unfold DEFAULT_PAGE_SIZE, len in Hlen. cbn [List.length] in Hlen. lia. }
  assert (Hr1 : (1 <= fuel)%nat -> res1 <> Running).
  { intros Hf. apply Hfuel; [unfold DEFAULT_PAGE_SIZE; lia |].
    unfold DEFAULT_PAGE_SIZE, len. cbn [List.length]. lia. }
  set (reqs := pageRequests this [("sort", "new")] DEFAULT_PAGE_SIZE 0 n) in *.
  assert (Hreqs : List.length reqs = n) by apply pageRequests_length.
  destruct res0 as [posts | e |].
  - destruct posts as [| first rest].
    + exists (Returned publicationId), reqs.
      split; [reflexivity |]. split; [lia |]. split; discriminate.
    + unfold bind at 1. unfold call.
      destruct (getPublicationId_bound net first (log ++ reqs))
        as (res2 & first' & ext2 & -> & Hext2 & Hres2).
      rewrite <- app_assoc.
      destruct res2 as [pid | e |]; [| | congruence].
      * exists (Returned (Some pid)), (reqs ++ ext2).
        split; [reflexivity |]. rewrite length_app.
        split; [lia |]. split; discriminate.
      * exists (Returned None), (reqs ++ ext2).
        split; [reflexivity |]. rewrite length_app.
        split; [lia |]. split; discriminate.
  - exists (Returned None), reqs.
    split; [reflexivity |]. split; [lia |]. split; discriminate.
  - exists Running, reqs.
    split; [reflexivity |]. split; [lia |]. split; [discriminate |].
    intros Hf. destruct res1 as [metas | e |]; cbn in Hres1.
    + contradiction.
    + discriminate.
    + now apply Hr1 in Hf.
Qed.

Lemma new_includes_scheme u a : Str.includes "://" (url (new u a)) = true.
Proof.
  unfold new. cbn [url].
  destruct (Str.includes "://" u) eqn:E; [assumption | reflexivity].
Qed.

(** X11.  The constructor stores an address with a scheme.  Constructing
    a newsletter again from the stored address changes nothing, and
    [hostFromUrl] gives for the stored address what it gives for the
    address passed in. *)
Theorem newsletter_url_is_normalised parse lower u a :
  Str.includes "://" (url (new u a)) = true
  /\ new (url (new u a)) a = new u a
  /\ hostFromUrl parse lower (url (new u a)) = hostFromUrl parse lower u.
Proof.
  split; [apply new_includes_scheme |].
  pose proof (new_includes_scheme u a) as H.
  split.
  - unfold new at 1. rewrite H. reflexivity.
  - unfold hostFromUrl at 1. rewrite H.
    unfold hostFromUrl, new. cbn [url]. reflexivity.
Qed.

(** X12.  On every network [getRecommendations] sends at most four
    requests and leaves the newsletter as it was; it has ended once the
    pagination was given one iteration; and every newsletter that it
    returns has an address with a scheme and the authentication handler
    of the newsletter it was called on. *)
Theorem getRecommendations_sends_at_most_four_requests
    fuel parse lower net this log res this' log' :
  getRecommendations fuel parse lower net this log = (res, this', log') ->
  this' = this
  /\ (exists ext, log' = log ++ ext /\ (List.length ext <= 4)%nat)
  /\ ((1 <= fuel)%nat -> res <> Running)
  /\ (forall ns, res = Returned ns ->
      Forall (fun n => Str.includes "://" (url n) = true
                       /\ auth n = auth this) ns).
Proof.
  unfold getRecommendations. unfold bind at 1.
  destruct (resolvePublicationId_bound parse lower net this log)
    as (res1 & ext1 & -> & Hext1 & Hres1).
  assert (Hstop : forall (x : Res (list t)) ext,
             (List.length ext <= 4)%nat ->
             ((1 <= fuel)%nat -> x <> Running) ->
             (forall ns, x = Returned ns ->
                Forall (fun n => Str.includes "://" (url n) = true
                                 /\ auth n = auth this) ns) ->
             (x, this, log ++ ext) = (res, this', log') ->
             this' = this
             /\ (exists ext, log' = log ++ ext /\ (List.length ext <= 4)%nat)
             /\ ((1 <= fuel)%nat -> res <> Running)
             /\ (forall ns, res = Returned ns ->
                 Forall (fun n => Str.includes "://" (url n) = true
                                  /\ auth n = auth this) ns)).
  { intros x ext Hlen Hrun Hns [= <- <- <-]. eauto 10. }
  assert (Hnil : forall ns : list t, Returned (@nil t) = Returned ns ->
             Forall (fun n => Str.includes "://" (url n) = true
                              /\ auth n = auth this) ns).
  { intros ns [= <-]. constructor. }
  destruct res1 as [id1 | e |]; [| | congruence].
  2: { apply Hstop; [lia | discriminate | discriminate]. }
  unfold bind at 1.
  destruct (postDerivedId_bound fuel parse id1 net this (log ++ ext1))
    as (res2 & ext2 & -> & Hext2 & Hthrow & Hres2).
  rewrite <- app_assoc.
  destruct res2 as [id2 | e |].
  2: { now destruct (Hthrow e). }
  2: { apply Hstop; [rewrite length_app; lia | | discriminate].
       intros Hf. exfalso. now apply (Hres2 Hf). }
  destruct id2 as [pid |].
  2: { apply Hstop; [rewrite length_app; lia | discriminate | assumption]. }
  destruct (pid =? 0).
  { apply Hstop; [rewrite length_app; lia | discriminate | assumption]. }
  unfold bind at 1. unfold self at 1. unfold bind at 1.
  rewrite makeRequest_run. rewrite <- !app_assoc.
  assert (Hlen : (List.length (ext1 ++ ext2 ++ [request this (Recommendations (url this) pid)]) <= 4)%nat).
  { rewrite !length_app. simpl. lia. }
  destruct (net _ _) as [reason | r].
  { apply Hstop; [assumption | discriminate | discriminate]. }
  destruct (negb (ok r)).
  { apply Hstop; [assumption | discriminate | assumption]. }
  unfold json, as_recommendations. run.
  destruct (body r); try (apply Hstop; [assumption | discriminate | discriminate]).
  - apply Hstop; [assumption | discriminate | assumption].
  - apply Hstop; [assumption | discriminate |].
    intros ns [= <-]. apply Forall_forall. intros n Hin.
    apply in_map_iff in Hin. destruct Hin as (u & <- & _).
    split; [apply new_includes_scheme | reflexivity].
Qed.

Lemma getRecommendations_sends_at_most_four_requests_witness :
  let log' := [searchReq "example.substack.com";
               pageRequest Mock.example Mock.sortNew DEFAULT_PAGE_SIZE 0;
               {| via := Plain;
                  target := PostBySlug "https://example.substack.com" (Some "s") |};
               recsReq Mock.example 7] in
  let res := Returned [new "www.other.com" None;
                       new "example.substack.com" None] in
  Mock.example = Mock.example
  /\ (exists ext, log' = [] ++ ext /\ (List.length ext <= 4)%nat)
  /\ ((1 <= 1)%nat -> res <> Running)
  /\ (forall ns, res = Returned ns ->
      Forall (fun n => Str.includes "://" (url n) = true
                       /\ auth n = auth Mock.example) ns).
Proof.
  exact (@getRecommendations_sends_at_most_four_requests
           1 parseUrl lowerAscii discoveryDown Mock.example [] _ _ _ eq_refl).
Defined.

End DiscoveryProofs.

(** ** Profiles: redirects and subscriptions *)

Module ProfileProofs.
Import User UserSpec UserProofs.

Lemma redirectTarget_inv o oldHandle h :
  redirectTarget o oldHandle = Some h ->
  h <> oldHandle
  /\ exists r pathname rest,
      o = Responds r /\ ok r = true /\ finalPath r = Some pathname
      /\ Str.split Str.slash (Str.stripSlashes pathname)
         = ("@" ++ h)%string :: rest.
Proof.
  unfold redirectTarget.
  destruct o as [| r]; [discriminate |].
  destruct (ok r) eqn:Hok; [| discriminate].
  destruct (finalPath r) as [pathname |] eqn:Hpath; [| discriminate].
  destruct (Str.split _ _) as [| first rest] eqn:Hsplit; [discriminate |].
  destruct (Str.startsWith "@" first) eqn:Hat; [| discriminate].
  destruct (Str.nonempty (Str.slice1 first)); [| discriminate].
  cbn [andb].
  destruct (String.eqb_spec (Str.slice1 first) oldHandle) as [| Hneq];
    [discriminate |].
  cbn [negb]. intros [= <-]. split; [assumption |].
  exists r, pathname, rest. split; [reflexivity |]. split; [assumption |].
  split; [assumption |]. rewrite Hsplit.
  destruct first as [| c first']; [discriminate |].
  cbn [Str.startsWith] in Hat. apply andb_true_iff in Hat.
  destruct Hat as (Hat & _). apply Ascii.eqb_eq in Hat. subst c. reflexivity.
Qed.

Lemma split_segments_no_sep sep s :
  Forall (fun seg => Str.allChars (fun c => negb (Ascii.eqb c sep)) seg = true)
         (Str.split sep s).
Proof.
  induction s as [| c s IH]; cbn [Str.split].
  - repeat constructor.
  - destruct (Ascii.eqb c sep) eqn:E.
    + constructor; [reflexivity | assumption].
    + destruct (Str.split sep s) as [| seg segs].
      * repeat constructor. cbn. now rewrite E.
      * inversion IH; subst. constructor; [| assumption].
        cbn. now rewrite E.
Qed.

Lemma allChars_tail f c s :
  Str.allChars f (String c s) = true -> Str.allChars f s = true.
Proof. cbn. intros H. now apply andb_true_iff in H. Qed.

(** X13.  [resolveHandleRedirect] always returns, after exactly one
    request, the probe of the old handle, whatever the network does.  A
    handle that it returns is not empty, is not the old handle, has no
    slash, and is what follows the at sign in the first segment of the
    path reached by a successful probe. *)
Theorem resolveHandleRedirect_never_throws {S} oldHandle net (this : S) log :
  exists found,
    resolveHandleRedirect oldHandle net this log
      = (Returned found, this, log ++ [probeReq oldHandle])
    /\ forall h, found = Some h ->
         Str.nonempty h = true
         /\ h <> oldHandle
         /\ Str.allChars (fun c => negb (Ascii.eqb c Str.slash)) h = true
         /\ exists r pathname rest,
             net log (probeReq oldHandle) = Responds r /\ ok r = true
             /\ finalPath r = Some pathname
             /\ Str.split Str.slash (Str.stripSlashes pathname)
                = ("@" ++ h)%string :: rest.
Proof.
  rewrite resolveHandleRedirect_run. eexists. split; [reflexivity |].
  intros h Hh. split; [now apply redirectTarget_nonempty in Hh |].
  apply redirectTarget_inv in Hh.
  destruct Hh as (Hneq & r & pathname & rest & Hnet & Hok & Hpath & Hsplit).
  split; [assumption |]. split; [| eauto 10].
  pose proof (split_segments_no_sep Str.slash (Str.stripSlashes pathname)) as Hall.
  rewrite Hsplit in Hall. inversion Hall; subst.
  eapply allChars_tail; eassumption.
Qed.

(** X14.  With [followRedirects] off, a profile fetch that goes to the
    network sends exactly one request and ends: it never probes, it
    keeps the handle and the attempt flag, and on a response outside
    200..299 it throws the fetch error and leaves the instance as it
    was. *)
Theorem no_probe_when_redirects_are_disabled
    forceRefresh net u log res u' log' :
  followRedirects u = false ->
  fetches forceRefresh u = true ->
  fetchUserData forceRefresh net u log = (res, u', log') ->
  log' = log ++ [profileReq u]
  /\ username u' = username u
  /\ redirectAttempted u' = redirectAttempted u
  /\ res <> Running
  /\ (forall r, net log (profileReq u) = Responds r -> ok r = false ->
      res = Threw (notFoundError r) /\ u' = u).
Proof.
  intros Hfollow Hf H.
  rewrite (@fetchUserData_run forceRefresh net u log Hf) in H. cbv zeta in H.
  destruct (net log (profileReq u)) as [reason | r].
  { inversion H; subst. repeat split; try discriminate. }
  rewrite Hfollow, andb_false_r in H. cbn [andb] in H.
  destruct (ok r) eqn:Hok.
  - destruct (body r); inversion H; subst; repeat split;
      try discriminate; try congruence.
  - inversion H; subst. repeat split; try discriminate.
    all: congruence.
Qed.

Lemma no_probe_when_redirects_are_disabled_witness :
  let u := new "old" false in
  let res : Res (option UserProfile) :=
    Threw (notFoundError MockUser.notFound) in
  [profileReq u] = [] ++ [profileReq u]
  /\ username u = username u
  /\ redirectAttempted u = redirectAttempted u
  /\ res <> Running
  /\ (forall r, MockUser.renamed [] (profileReq u) = Responds r ->
      ok r = false -> res = Threw (notFoundError r) /\ u = u).
Proof.
  exact (@no_probe_when_redirects_are_disabled true MockUser.renamed
           (new "old" false) []
           (Threw (notFoundError MockUser.notFound)) (new "old" false)
           [profileReq (new "old" false)] eq_refl eq_refl eq_refl).
Defined.

Lemma wasRedirected_false u :
  wasRedirected u = false <-> username u = originalUsername u.
Proof.
  unfold wasRedirected. rewrite negb_false_iff. apply String.eqb_eq.
Qed.

Lemma wasRedirected_true u :
  wasRedirected u = true <-> username u <> originalUsername u.
Proof.
  unfold wasRedirected. rewrite negb_true_iff. apply String.eqb_neq.
Qed.

(** X15.  [wasRedirected] tells whether the handle was switched.  A
    profile fetch never changes [originalUsername].  For an instance
    that was not redirected before, [wasRedirected] holds after the
    fetch exactly when the call sent three requests: the profile of the
    old handle, the probe, the profile of the new handle.  Then
    redirects were followed, the attempt is marked and the new handle is
    the one the probe named, whether the retry succeeded or not. *)
Theorem wasRedirected_iff_handle_was_switched
    forceRefresh net u log res u' log' :
  wellFormed u ->
  wasRedirected u = false ->
  fetchUserData forceRefresh net u log = (res, u', log') ->
  originalUsername u' = originalUsername u
  /\ (wasRedirected u' = true <->
      log' = log ++ [profileOf (username u); probeReq (username u);
                     profileOf (username u')])
  /\ (wasRedirected u' = true ->
      followRedirects u = true /\ redirectAttempted u' = true
      /\ redirectTarget (net (log ++ [profileReq u]) (probeReq (username u)))
                        (username u) = Some (username u')).
Proof.
  intros Hwf Hnot H. apply wasRedirected_false in Hnot.
  assert (Hkeep : forall x : t,
             originalUsername x = originalUsername u ->
             username x = username u ->
             forall ext l, (List.length ext <= 2)%nat -> l = log ++ ext ->
             originalUsername x = originalUsername u
             /\ (wasRedirected x = true <->
                 l = log ++ [profileOf (username u);
                                      probeReq (username u);
                                      profileOf (username x)])
             /\ (wasRedirected x = true ->
                 followRedirects u = true /\ redirectAttempted x = true
                 /\ redirectTarget (net (log ++ [profileReq u])
                                        (probeReq (username u)))
                                   (username u) = Some (username x))).
  { intros x Ho Hu ext l Hlen ->. split; [assumption |].
    assert (Hx : wasRedirected x = false).
    { apply wasRedirected_false. congruence. }
    rewrite Hx. split; [split; [discriminate |] | discriminate].
    intros Heq. apply app_inv_head in Heq. subst ext. simpl in Hlen. lia. }
  destruct (fetches forceRefresh u) eqn:Hf.
  2: { unfold fetches in Hf. destruct forceRefresh; [discriminate |].
       destruct (userData u) as [d |] eqn:Hd; [| discriminate].
       rewrite (@fetchUserData_cached net u log d Hd) in H.
       inversion H; subst.
       apply (Hkeep u' eq_refl eq_refl []); [simpl; lia | now rewrite app_nil_r]. }
  rewrite (@fetchUserData_run forceRefresh net u log Hf) in H.
  cbv zeta in H. rewrite (profileReq_wf Hwf) in *.
  destruct (net log (profileOf (username u))) as [reason | r].
  { inversion H; subst. (eapply Hkeep; [| | | reflexivity]; [reflexivity | reflexivity | simpl; lia]). }
  destruct (ok r).
  { destruct (body r); inversion H; subst; (eapply Hkeep; [| | | reflexivity]; [reflexivity | reflexivity | simpl; lia]). }
  destruct (_ && _) eqn:Hcond.
  2: { inversion H; subst. (eapply Hkeep; [| | | reflexivity]; [reflexivity | reflexivity | simpl; lia]). }
  apply andb_true_iff in Hcond. destruct Hcond as (Hcond & _).
  apply andb_true_iff in Hcond. destruct Hcond as (_ & Hfollow).
  destruct (redirectTarget _ _) as [h |] eqn:Htarget.
  2: { inversion H; subst. rewrite <- app_assoc. (eapply Hkeep; [| | | reflexivity]; [reflexivity | reflexivity | simpl; lia]). }
  assert (Hswitched : forall x : t,
             originalUsername x = originalUsername u ->
             username x = h -> redirectAttempted x = true ->
             originalUsername x = originalUsername u
             /\ (wasRedirected x = true <->
                 (log ++ [profileOf (username u)]) ++ [probeReq (username u)]
                   ++ [profileOf h]
                 = log ++ [profileOf (username u); probeReq (username u);
                           profileOf (username x)])
             /\ (wasRedirected x = true ->
                 followRedirects u = true /\ redirectAttempted x = true
                 /\ Some h = Some (username x))).
  { intros x Ho Hu Hra. split; [assumption |].
    assert (Hx : wasRedirected x = true).
    { apply wasRedirected_true. apply redirectTarget_inv in Htarget.
      destruct Htarget as (Hneq & _). congruence. }
    rewrite Hx, Hu, <- app_assoc. repeat split; auto. }
  assert (Hreq : profileReq (withHandle h (set_redirectAttempted true u))
                 = profileOf h) by reflexivity.
  rewrite Hreq in H. rewrite <- (app_assoc _ _ [profileOf h]) in H.
  destruct (net _ (profileOf h)) as [reason | rr].
  { inversion H; subst. apply Hswitched; auto. }
  destruct (ok rr).
  { destruct (body rr); inversion H; subst; apply Hswitched; auto. }
  inversion H; subst. apply Hswitched; auto.
Qed.

Lemma wasRedirected_iff_handle_was_switched_witness :
  let u := new "old" true in
  let u' := set_userData (Some (MockUser.profile "new"))
              (withHandle "new" (set_redirectAttempted true u)) in
  let log' := [profileOf "old"; probeReq "old"; profileOf "new"] in
  originalUsername u' = originalUsername u
  /\ (wasRedirected u' = true <->
      log' = [] ++ [profileOf (username u); probeReq (username u);
                    profileOf (username u')])
  /\ (wasRedirected u' = true ->
      followRedirects u = true /\ redirectAttempted u' = true
      /\ redirectTarget (MockUser.renamed ([] ++ [profileReq u])
                           (probeReq (username u)))
                        (username u) = Some (username u')).
Proof.
  exact (@wasRedirected_iff_handle_was_switched false MockUser.renamed
           (new "old" true) [] (Returned (Some (MockUser.profile "new")))
           (set_userData (Some (MockUser.profile "new"))
              (withHandle "new" (set_redirectAttempted true (new "old" true))))
           [profileOf "old"; probeReq "old"; profileOf "new"]
           eq_refl eq_refl eq_refl).
Defined.

(** What a profile fetch returns is what it leaves in the cache. *)
Lemma fetchUserData_returned forceRefresh net u log data u' log' :
  fetchUserData forceRefresh net u log = (Returned data, u', log') ->
  userData u' = data.
Proof.
  intros H. destruct (fetches forceRefresh u) eqn:Hf.
  - rewrite (@fetchUserData_run forceRefresh net u log Hf) in H.
    user_cases H; inversion H; subst; reflexivity.
  - unfold fetches in Hf. destruct forceRefresh; [discriminate |].
    destruct (userData u) as [d |] eqn:Hd; [| discriminate].
    rewrite (@fetchUserData_cached net u log d Hd) in H.
    inversion H; subst. exact Hd.
Qed.

Lemma append_nonempty a b : Str.nonempty b = true -> Str.nonempty (a ++ b) = true.
Proof. destruct a; [trivial | reflexivity]. Qed.

Lemma subscriptionOf_domain sub :
  Str.nonempty (domain (subscriptionOf sub)) = true
  /\ (truthyStr (custom_domain (publication sub)) = true ->
      custom_domain (publication sub) = Some (domain (subscriptionOf sub)))
  /\ (truthyStr (custom_domain (publication sub)) = false ->
      Str.endsWith ".substack.com" (domain (subscriptionOf sub)) = true).
Proof.
  unfold subscriptionOf. cbn [domain]. unfold truthyStr.
  assert (Hends : forall a, Str.endsWith ".substack.com" (a ++ ".substack.com") = true).
  { induction a as [| c a IH]; [reflexivity |].
    cbn [append Str.endsWith]. rewrite IH. apply orb_true_r. }
  destruct (custom_domain (publication sub)) as [d |].
  - destruct (Str.nonempty d) eqn:Hd.
    + repeat split; auto; discriminate.
    + repeat split; try discriminate; auto using append_nonempty.
  - repeat split; try discriminate; auto using append_nonempty.
Qed.

(** X16.  [getSubscriptions] returns one entry per subscription of the
    fetched profile, in order, and none for a profile without a list of
    subscriptions; the domain of every entry is not empty: it is the
    custom domain when that is a non-empty string, and otherwise the
    subdomain as the template prints it (the text null or undefined
    when there is none) followed by .substack.com; with a cached
    profile it sends no request. *)
Theorem getSubscriptions_lists_every_subscription net u log subs u' log' :
  getSubscriptions net u log = (Returned subs, u', log') ->
  exists data,
    userData u' = Some data
    /\ subs = map subscriptionOf (subscriptionsOf data)
    /\ Forall (fun s => Str.nonempty (domain s) = true) subs
    /\ (userData u <> None -> u' = u /\ log' = log).
Proof.
  unfold getSubscriptions, bind. fold subscriptionsOf.
  destruct (fetchUserData false net u log) as [[res u0] log0] eqn:Hfetch.
  destruct res as [[data |] | e |]; try discriminate.
  cbn [field]. unfold ret. fold (subscriptionsOf data).
  intros [= <- <- <-]. exists data.
  split; [now apply fetchUserData_returned in Hfetch |].
  split; [reflexivity |]. split.
  - apply Forall_forall. intros s Hin. apply in_map_iff in Hin.
    destruct Hin as (sub & <- & _). apply subscriptionOf_domain.
  - intros Hcached. destruct (userData u) as [d |] eqn:Hd; [| congruence].
    rewrite (@fetchUserData_cached net u log d Hd) in Hfetch.
    now inversion Hfetch.
Qed.

Lemma getSubscriptions_lists_every_subscription_witness :
  let u := new "reader" true in
  let u' := set_userData (Some MockUser.reader) u in
  let subs :=
    [ {| s_publication_id := 42; s_publication_name := "Example";
         domain := "example.substack.com";
         s_membership_state := "free_signup" |};
      {| s_publication_id := 43; s_publication_name := "Other";
         domain := "www.other.com"; s_membership_state := "subscribed" |};
      {| s_publication_id := 44; s_publication_name := "Gone";
         domain := "null.substack.com"; s_membership_state := "subscribed" |};
      {| s_publication_id := 45; s_publication_name := "Bare";
         domain := "undefined.substack.com";
         s_membership_state := "free_signup" |} ] in
  getSubscriptions MockUser.library u [] = (Returned subs, u', [profileReq u])
  /\ exists data,
      userData u' = Some data
      /\ subs = map subscriptionOf (subscriptionsOf data)
      /\ Forall (fun s => Str.nonempty (domain s) = true) subs
      /\ (userData u <> None -> u' = u /\ [profileReq u] = []).
Proof.
  cbv zeta. split; [reflexivity |].
  exact (@getSubscriptions_lists_every_subscription MockUser.library
           (new "reader" true) [] _
           (set_userData (Some MockUser.reader) (new "reader" true))
           [profileReq (new "reader" true)] eq_refl).
Defined.

(** X17.  A profile fetch that returns leaves in the cache what it
    returns.  When it returned the profile, the getters share it:
    [getRawData], [getId], [getName], [getProfileSetUpAt] and
    [getSubscriptions] answer from the cache, on every network, without
    a request.  When it returned [null] (the server answered 200 with
    the body [null]) nothing is cached: every getter sends the profile
    request again, and where the answer is [null] again the getters
    that read a property throw the type error. *)
Theorem profile_getters_share_one_fetch
    forceRefresh net u log data u' log' :
  fetchUserData forceRefresh net u log = (Returned data, u', log') ->
  userData u' = data
  /\ match data with
     | Some d =>
       forall net' log'',
         getRawData false net' u' log'' = (Returned (Some d), u', log'')
         /\ getId net' u' log'' = (Returned (up_id d), u', log'')
         /\ getName net' u' log'' = (Returned (up_name d), u', log'')
         /\ getProfileSetUpAt net' u' log''
            = (Returned (profile_set_up_at d), u', log'')
         /\ getSubscriptions net' u' log''
            = (Returned (map subscriptionOf (subscriptionsOf d)), u', log'')
     | None =>
       fetches false u' = true
       /\ forall net' log'' r,
           net' log'' (profileReq u') = Responds r ->
           ok r = true -> body r = BNull ->
           let log3 := log'' ++ [profileReq u'] in
           getRawData false net' u' log'' = (Returned None, u', log3)
           /\ getId net' u' log'' = (Threw TypeError, u', log3)
           /\ getName net' u' log'' = (Threw TypeError, u', log3)
           /\ getProfileSetUpAt net' u' log'' = (Threw TypeError, u', log3)
           /\ getSubscriptions net' u' log'' = (Threw TypeError, u', log3)
     end.
Proof.
  intros H. apply fetchUserData_returned in H. split; [assumption |].
  destruct data as [d |].
  - intros net' log''.
    unfold getRawData, getId, getName, getProfileSetUpAt, getSubscriptions,
      bind.
    rewrite !(@fetchUserData_cached net' u' log'' d H). repeat split.
  - assert (Hf : fetches false u' = true).
    { unfold fetches. now rewrite H. }
    split; [assumption |].
    intros net' log'' r Hnet Hok Hbody. cbv zeta.
    assert (Hu : set_userData None u' = u').
    { destruct u'. cbn in H. subst. reflexivity. }
    unfold getRawData, getId, getName, getProfileSetUpAt, getSubscriptions,
      bind.
    rewrite !(@fetchUserData_run false net' u' log'' Hf). cbv zeta.
    rewrite Hnet, Hok, Hbody, Hu. repeat split.
Qed.

Lemma profile_getters_share_one_fetch_witness :
  let u' := set_userData (Some MockUser.reader) (new "reader" true) in
  let v := new "bob" true in
  (getRawData false MockUser.renamed u' []
     = (Returned (Some MockUser.reader), u', [])
   /\ getId MockUser.renamed u' [] = (Returned 2, u', [])
   /\ getName MockUser.renamed u' [] = (Returned "Reader", u', [])
   /\ getProfileSetUpAt MockUser.renamed u' [] = (Returned None, u', [])
   /\ getSubscriptions MockUser.renamed u' []
      = (Returned (map subscriptionOf (subscriptionsOf MockUser.reader)),
         u', []))
  /\ getId MockUser.nullFirst v [] = (Threw TypeError, v, [profileReq v]).
Proof.
  cbv zeta. split; [| reflexivity].
  exact (proj2 (@profile_getters_share_one_fetch false MockUser.library
                  (new "reader" true) [] (Some MockUser.reader)
                  (set_userData (Some MockUser.reader) (new "reader" true))
                  [profileReq (new "reader" true)] eq_refl)
               MockUser.renamed []).
Defined.

End ProfileProofs.

(** ** Categories: the lookup, the crawl and the cache *)

Module CrawlProofs.
Import Category CategorySpec CategoryProofs.

Lemma map_categories cs :
  map (fun item => {| ci_id := ci_id item; ci_name := ci_name item |}) cs = cs.
Proof.
  induction cs as [| [i n] cs IH]; [reflexivity |]. cbn. now rewrite IH.
Qed.

Lemma listAllCategories_run {S} net (this : S) log :
  @listAllCategories S net this log =
  let log1 := log ++ [catsReq] in
  match net log catsReq with
  | Rejects reason => (Threw (FetchRejected reason), this, log1)
  | Responds r =>
    if ok r then
      match body r with
      | BCategories cs => (Returned cs, this, log1)
      | _ => (Threw JsonRejected, this, log1)
      end
    else (Threw (listError r), this, log1)
  end.
Proof.
  unfold listAllCategories, bind at 1, fetch. fold catsReq.
  destruct (net log catsReq) as [reason | r]; [reflexivity |].
  destruct (ok r); cbn [negb]; [| reflexivity].
  unfold json, as_categories. run.
  destruct (body r); try reflexivity. now rewrite map_categories.
Qed.

Lemma getIdFromName_run net c log :
  getIdFromName net c log =
  match listAllCategories net c log with
  | (Returned cs, c1, log1) =>
    match find (fun cat => eqOptStr (name c1) (ci_name cat)) cs with
    | None =>
      (Threw (Error ("Category name '"
                       ++ match name c1 with Some n => n | None => "null" end
                       ++ "' not found")%string), c1, log1)
    | Some found => (Returned tt, set_id (Some (ci_id found)) c1, log1)
    end
  | (Threw e, c1, log1) => (Threw e, c1, log1)
  | (Running, c1, log1) => (Running, c1, log1)
  end.
Proof.
  unfold getIdFromName, bind at 1.
  destruct (listAllCategories net c log) as [[[cs | e |] c1] log1]; try reflexivity.
  unfold bind, self. destruct (find _ cs); reflexivity.
Qed.

Lemma getNameFromId_run net c log :
  getNameFromId net c log =
  match listAllCategories net c log with
  | (Returned cs, c1, log1) =>
    match find (fun cat => eqOptZ (id c1) (ci_id cat)) cs with
    | None =>
      (Threw (Error ("Category ID "
                       ++ match id c1 with Some i => show i | None => "null" end
                       ++ " not found")%string), c1, log1)
    | Some found => (Returned tt, set_name (Some (ci_name found)) c1, log1)
    end
  | (Threw e, c1, log1) => (Threw e, c1, log1)
  | (Running, c1, log1) => (Running, c1, log1)
  end.
Proof.
  unfold getNameFromId, bind at 1.
  destruct (listAllCategories net c log) as [[[cs | e |] c1] log1]; try reflexivity.
  unfold bind, self. destruct (find _ cs); reflexivity.
Qed.

Lemma init_run net c log :
  init net c log =
  if truthyStr (name c) && isNone (id c) then getIdFromName net c log
  else if truthy (id c) && isNone (name c) then getNameFromId net c log
  else (Returned tt, c, log).
Proof.
  unfold init, bind, self, isNone.
  destruct (truthyStr (name c) && _); [reflexivity |].
  destruct (truthy (id c) && _); reflexivity.
Qed.

(** What [init] does to the instance and to the log. *)
Lemma init_spec net c log res c' log' :
  init net c log = (res, c', log') ->
  res <> Running
  /\ newslettersData c' = newslettersData c
  /\ (exists lookup, log' = log ++ lookup
                     /\ (lookup = [] \/ lookup = [catsReq]))
  /\ (id c <> None -> id c' = id c)
  /\ (name c <> None -> name c' = name c)
  /\ ((forall x, res <> Returned x) -> c' = c).
Proof.
  rewrite init_run.
  assert (Hstay : forall (x : Res unit) lookup,
             x <> Running -> (lookup = [] \/ lookup = [catsReq]) ->
             (x, c, log ++ lookup) = (res, c', log') ->
             res <> Running
             /\ newslettersData c' = newslettersData c
             /\ (exists lookup, log' = log ++ lookup
                                /\ (lookup = [] \/ lookup = [catsReq]))
             /\ (id c <> None -> id c' = id c)
             /\ (name c <> None -> name c' = name c)
             /\ ((forall x, res <> Returned x) -> c' = c)).
  { intros x lookup Hx Hl [= <- <- <-]. eauto 10. }
  destruct (truthyStr (name c) && isNone (id c)) eqn:Hn.
  { apply andb_true_iff in Hn. destruct Hn as (_ & Hid).
    destruct (id c) eqn:Eid; [discriminate |].
    rewrite getIdFromName_run, listAllCategories_run. cbv zeta.
    destruct (net log catsReq) as [reason | r].
    { apply Hstay; [discriminate | auto]. }
    destruct (ok r).
    2: { apply Hstay; [discriminate | auto]. }
    destruct (body r); try (apply Hstay; [discriminate | auto]).
    destruct (find _ cs) as [found |]; [| apply Hstay; [discriminate | auto]].
    intros [= <- <- <-]. cbn.
    repeat split; try discriminate; try congruence; eauto.
    intros Hno. now destruct (Hno tt). }
  destruct (truthy (id c) && isNone (name c)) eqn:Hi.
  { apply andb_true_iff in Hi. destruct Hi as (_ & Hname).
    destruct (name c) eqn:Ename; [discriminate |].
    rewrite getNameFromId_run, listAllCategories_run. cbv zeta.
    destruct (net log catsReq) as [reason | r].
    { apply Hstay; [discriminate | auto]. }
    destruct (ok r).
    2: { apply Hstay; [discriminate | auto]. }
    destruct (body r); try (apply Hstay; [discriminate | auto]).
    destruct (find _ cs) as [found |]; [| apply Hstay; [discriminate | auto]].
    intros [= <- <- <-]. cbn.
    repeat split; try discriminate; try congruence; eauto.
    intros Hno. now destruct (Hno tt). }
  rewrite <- (app_nil_r log) at 1. apply Hstay; [discriminate | auto].
Qed.

(** X18.  [init] is idempotent: once it has returned, a further call
    returns at once, on every network, sending nothing and changing
    nothing. *)
Theorem init_is_idempotent net c log c' log' :
  init net c log = (Returned tt, c', log') ->
  forall net' log'', init net' c' log'' = (Returned tt, c', log'').
Proof.
  rewrite init_run. intros H net' log''. rewrite init_run.
  destruct (truthyStr (name c) && isNone (id c)) eqn:Hn.
  { rewrite getIdFromName_run, listAllCategories_run in H. cbv zeta in H.
    destruct (net log catsReq) as [reason | r]; [discriminate |].
    destruct (ok r); [| discriminate].
    destruct (body r); try discriminate.
    destruct (find _ cs) as [found |]; [| discriminate].
    inversion H; subst. cbn [set_id name id isNone].
    rewrite !andb_false_r.
    apply andb_true_iff in Hn. destruct Hn as (Hname & _).
    destruct (name c); [| discriminate]. cbn [isNone].
    now rewrite andb_false_r. }
  destruct (truthy (id c) && isNone (name c)) eqn:Hi.
  { rewrite getNameFromId_run, listAllCategories_run in H. cbv zeta in H.
    destruct (net log catsReq) as [reason | r]; [discriminate |].
    destruct (ok r); [| discriminate].
    destruct (body r); try discriminate.
    destruct (find _ cs) as [found |]; [| discriminate].
    inversion H; subst. cbn [set_name name id isNone].
    rewrite !andb_false_r.
    apply andb_true_iff in Hi. destruct Hi as (Hid & _).
    destruct (id c); [| discriminate]. cbn [isNone].
    now rewrite andb_false_r. }
  inversion H; subst. now rewrite Hn, Hi.
Qed.

Lemma pagesFrom_S id from n :
  pagesFrom id from (S n) = pageReq id from :: pagesFrom id (from + 1) n.
Proof.
  unfold pagesFrom. cbn [seq map]. rewrite Z.add_0_r. f_equal.
  rewrite <- seq_shift, map_map. apply map_ext. intros i. f_equal. lia.
Qed.

Lemma pagesFrom_0 id n : pagesFrom id 0 n = map (pageReq id) (pages n).
Proof. unfold pagesFrom, pages. now rewrite map_map. Qed.

(** The crawl asks for consecutive pages, and for at most
    [MAX_CATEGORY_PAGES + 1 - pageNum] of them. *)
Lemma crawl_pages net c fuel :
  forall allNewsletters pageNum more log res c' log',
    crawl fuel allNewsletters pageNum more net c log = (res, c', log') ->
    c' = c
    /\ exists n,
        log' = log ++ pagesFrom (id c) pageNum n
        /\ Z.of_nat n <= Z.max 0 (MAX_CATEGORY_PAGES + 1 - pageNum)
        /\ (more = true -> pageNum <= MAX_CATEGORY_PAGES -> (1 <= fuel)%nat ->
            (1 <= n)%nat).
Proof.
  induction fuel as [| fuel IH];
    intros allNewsletters pageNum more log res c' log' H.
  - assert (c' = c /\ log' = log) as (-> & ->).
    { simpl in H. destruct (more && _); now inversion H. }
    split; [reflexivity |]. exists 0%nat. cbn. rewrite app_nil_r.
    repeat split; lia.
  - rewrite crawl_S in H.
    destruct (more && (pageNum <=? MAX_CATEGORY_PAGES)) eqn:Hc.
    2:{ inversion H; subst. split; [reflexivity |]. exists 0%nat. cbn.
        rewrite app_nil_r. repeat split; try lia.
        intros -> Hle _. apply Z.leb_le in Hle. cbn [andb] in Hc. congruence. }
    apply andb_true_iff in Hc. destruct Hc as [_ Hle]. apply Z.leb_le in Hle.
    cbv zeta in H.
    assert (Hone : forall (x : Res (list NewsletterData)),
               (x, c, log ++ [pageReq (id c) pageNum]) = (res, c', log') ->
               c' = c
               /\ exists n,
                   log' = log ++ pagesFrom (id c) pageNum n
                   /\ Z.of_nat n <= Z.max 0 (MAX_CATEGORY_PAGES + 1 - pageNum)
                   /\ (more = true -> pageNum <= MAX_CATEGORY_PAGES ->
                       (1 <= S fuel)%nat -> (1 <= n)%nat)).
    { intros x Hx. inversion Hx; subst. split; [reflexivity |].
      exists 1%nat. rewrite pagesFrom_S. split; [reflexivity |].
      split; [unfold MAX_CATEGORY_PAGES in *; lia | intros; lia]. }
    destruct (net log _) as [reason | r]; [eauto |].
    destruct (negb (ok r)); [eauto |].
    destruct (body r); eauto.
    apply IH in H. destruct H as (-> & n & -> & Hlen & _).
    split; [reflexivity |]. exists (S n).
    rewrite pagesFrom_S, <- app_assoc. split; [reflexivity |].
    split; [unfold MAX_CATEGORY_PAGES in *; lia | intros; lia].
Qed.

Lemma crawl_not_running net c fuel allNewsletters pageNum more log res c' log' :
  MAX_CATEGORY_PAGES + 1 - pageNum <= Z.of_nat fuel ->
  crawl fuel allNewsletters pageNum more net c log = (res, c', log') ->
  res <> Running.
Proof.
  intros Hfuel H.
  pose proof (@crawl_terminates net c fuel allNewsletters pageNum more log Hfuel)
    as Hrun.
  now rewrite H in Hrun.
Qed.

Lemma fetchNewslettersData_cached fuel net c log data :
  newslettersData c = Some data ->
  fetchNewslettersData fuel false net c log = (Returned data, c, log).
Proof.
  intros H. unfold fetchNewslettersData, bind, self. now rewrite H.
Qed.

(** A call that goes to the network: the lookup of [init] when the id
    is missing, then the crawl from page 0. *)
Lemma fetchNewslettersData_run fuel forceRefresh net c log :
  fetchesPages forceRefresh c = true ->
  fetchNewslettersData fuel forceRefresh net c log =
  match (match id c with
         | None => init
         | Some _ => ret tt
         end) net c log with
  | (Returned _, c1, log1) =>
    match crawl fuel [] 0 true net c1 log1 with
    | (Returned allNewsletters, c2, log2) =>
      (Returned allNewsletters,
       set_newslettersData (Some allNewsletters) c2, log2)
    | (Threw e, c2, log2) => (Threw e, c2, log2)
    | (Running, c2, log2) => (Running, c2, log2)
    end
  | (Threw e, c1, log1) => (Threw e, c1, log1)
  | (Running, c1, log1) => (Running, c1, log1)
  end.
Proof.
  intros Hf. unfold fetchNewslettersData, bind at 1, self.
  assert (Hgo : forall k : M t (list NewsletterData),
             match newslettersData c, forceRefresh with
             | Some data, false => ret data
             | _, _ => k
             end = k).
  { intros k. unfold fetchesPages in Hf.
    destruct (newslettersData c), forceRefresh; try reflexivity; discriminate. }
  rewrite Hgo. unfold bind at 1.
  destruct ((match id c with None => init | Some _ => ret tt end) net c log)
    as [[[[] | e |] c1] log1]; reflexivity.
Qed.

(** X19.  On every network one call of [fetchNewslettersData] sends
    at most one request for the list of categories, and only when the
    id is missing, and then the pages 0, 1, 2, ... of the category in
    order, at most 22 of them; it has ended once the crawl was given 22
    iterations.  A call that goes to the network with the id known asks
    for page 0. *)
Theorem fetchNewslettersData_requests
    fuel forceRefresh net c log res c' log' :
  fetchNewslettersData fuel forceRefresh net c log = (res, c', log') ->
  exists lookup n,
    log' = log ++ lookup ++ map (pageReq (id c')) (pages n)
    /\ (lookup = [] \/ (lookup = [catsReq] /\ id c = None))
    /\ (n <= 22)%nat
    /\ ((22 <= fuel)%nat -> res <> Running)
    /\ (fetchesPages forceRefresh c = true -> id c <> None -> (1 <= fuel)%nat ->
        (1 <= n)%nat).
Proof.
  intros H. destruct (fetchesPages forceRefresh c) eqn:Hf.
  2: { unfold fetchesPages in Hf. destruct forceRefresh; [discriminate |].
       destruct (newslettersData c) as [d |] eqn:Hd; [| discriminate].
       rewrite (@fetchNewslettersData_cached fuel net c log d Hd) in H.
       inversion H; subst. exists [], 0%nat. cbn. rewrite app_nil_r.
       repeat split; auto; try lia; discriminate. }
  rewrite (@fetchNewslettersData_run fuel forceRefresh net c log Hf) in H.
  destruct ((match id c with None => init | Some _ => ret tt end) net c log)
    as [[res1 c1] log1] eqn:Hinit.
  assert (Hfirst : res1 <> Running
                   /\ (exists lookup, log1 = log ++ lookup
                        /\ (lookup = [] \/ (lookup = [catsReq] /\ id c = None)))
                   /\ (id c <> None -> id c1 = id c /\ log1 = log
                                       /\ res1 = Returned tt)).
  { destruct (id c) as [i |] eqn:Hid.
    - inversion Hinit; subst. split; [discriminate |]. split.
      + exists []. rewrite app_nil_r. auto.
      + auto.
    - apply init_spec in Hinit.
      destruct Hinit as (Hrun & _ & (lookup & -> & Hl) & _).
      split; [assumption |]. split; [| congruence].
      exists lookup. split; [reflexivity |]. tauto. }
  destruct Hfirst as (Hrun1 & (lookup & -> & Hlookup) & Hkeep).
  destruct res1 as [[] | e |]; [| | congruence].
  2: { inversion H; subst. exists lookup, 0%nat. cbn. rewrite app_nil_r.
       repeat split; auto; try lia; try discriminate.
       intros _ Hid. destruct (Hkeep Hid) as (_ & _ & ?). discriminate. }
  destruct (crawl fuel [] 0 true net c1 (log ++ lookup))
    as [[res2 c2] log2] eqn:Hcrawl.
  pose proof Hcrawl as Hpages. apply crawl_pages in Hpages.
  destruct Hpages as (-> & n & -> & Hn & Hsome).
  rewrite pagesFrom_0, <- app_assoc in *.
  assert (Hn22 : (n <= 22)%nat) by (unfold MAX_CATEGORY_PAGES in Hn; lia).
  assert (Hterm : (22 <= fuel)%nat -> res2 <> Running).
  { intros Hfuel. eapply crawl_not_running; [| exact Hcrawl].
    unfold MAX_CATEGORY_PAGES. lia. }
  assert (Hone : (1 <= fuel)%nat -> (1 <= n)%nat).
  { intros Hfuel. apply Hsome; [reflexivity | unfold MAX_CATEGORY_PAGES; lia
                                 | assumption]. }
  destruct res2 as [all | e |]; inversion H; subst; exists lookup, n;
    cbn [set_newslettersData id]; repeat split; auto; try discriminate.
Qed.

Lemma fetchNewslettersData_cache fuel forceRefresh net c log res c' log' :
  fetchNewslettersData fuel forceRefresh net c log = (res, c', log') ->
  match res with
  | Returned data => newslettersData c' = Some data
  | _ => newslettersData c' = newslettersData c
  end.
Proof.
  intros H. destruct (fetchesPages forceRefresh c) eqn:Hf.
  2: { unfold fetchesPages in Hf. destruct forceRefresh; [discriminate |].
       destruct (newslettersData c) as [d |] eqn:Hd; [| discriminate].
       rewrite (@fetchNewslettersData_cached fuel net c log d Hd) in H.
       now inversion H; subst. }
  rewrite (@fetchNewslettersData_run fuel forceRefresh net c log Hf) in H.
  destruct ((match id c with None => init | Some _ => ret tt end) net c log)
    as [[res1 c1] log1] eqn:Hinit.
  assert (Hdata : newslettersData c1 = newslettersData c).
  { destruct (id c).
    - now inversion Hinit.
    - now apply init_spec in Hinit. }
  destruct res1 as [[] | e |]; [| now inversion H; subst ..].
  destruct (crawl fuel [] 0 true net c1 log1) as [[res2 c2] log2] eqn:Hcrawl.
  apply crawl_pages in Hcrawl. destruct Hcrawl as (-> & _).
  destruct res2; inversion H; subst; auto.
Qed.

(** X20.  A call that returns caches what it returns, and then
    [getNewsletterMetadata], [getNewsletterUrls] and [getNewsletters]
    answer from the cache, on every network, without a request: the
    addresses are the [base_url] of the cached entries, the newsletters
    are built from these, without authentication.  A call that does not
    return leaves the cache as it was. *)
Theorem newsletters_are_fetched_once fuel forceRefresh net c log res c' log' :
  fetchNewslettersData fuel forceRefresh net c log = (res, c', log') ->
  match res with
  | Returned data =>
    newslettersData c' = Some data
    /\ forall fuel' net' log'',
        getNewsletterMetadata fuel' net' c' log'' = (Returned data, c', log'')
        /\ getNewsletterUrls fuel' net' c' log''
           = (Returned (map base_url data), c', log'')
        /\ getNewsletters fuel' net' c' log''
           = (Returned (map (fun d => Newsletter.new (base_url d) None) data),
              c', log'')
  | _ => newslettersData c' = newslettersData c
  end.
Proof.
  intros H. apply fetchNewslettersData_cache in H.
  destruct res as [data | e |]; try assumption.
  split; [assumption |]. intros fuel' net' log''.
  unfold getNewsletterMetadata, getNewsletters, getNewsletterUrls, bind.
  rewrite !(@fetchNewslettersData_cached fuel' net' c' log'' data H).
  unfold ret. rewrite map_map. auto.
Qed.

Lemma newsletters_are_fetched_once_witness :
  let data := [entry 0; entry 1] in
  let c' := set_newslettersData (Some data) category in
  newslettersData c' = Some data
  /\ forall fuel' net' log'',
      getNewsletterMetadata fuel' net' c' log'' = (Returned data, c', log'')
      /\ getNewsletterUrls fuel' net' c' log''
         = (Returned (map base_url data), c', log'')
      /\ getNewsletters fuel' net' c' log''
         = (Returned (map (fun d => Newsletter.new (base_url d) None) data),
            c', log'').
Proof.
  exact (@newsletters_are_fetched_once 1 false shelf category []
           (Returned [entry 0; entry 1])
           (set_newslettersData (Some [entry 0; entry 1]) category)
           [pageReq (Some 4) 0] eq_refl).
Defined.

Lemma fetchNewslettersData_requests_witness :
  exists lookup n,
    [catsReq; pageReq (Some 4) 0]
      = [] ++ lookup ++ map (pageReq (Some 4)) (pages n)
    /\ (lookup = [] \/ (lookup = [catsReq] /\ id (named "Technology") = None))
    /\ (n <= 22)%nat
    /\ ((22 <= 1)%nat -> Returned [entry 0; entry 1] <> Running)
    /\ (fetchesPages false (named "Technology") = true ->
        id (named "Technology") <> None -> (1 <= 1)%nat -> (1 <= n)%nat).
Proof.
  exact (@fetchNewslettersData_requests 1 false shelf (named "Technology") []
           (Returned [entry 0; entry 1])
           (set_newslettersData (Some [entry 0; entry 1])
              (set_id (Some 4) (named "Technology")))
           [catsReq; pageReq (Some 4) 0] eq_refl).
Defined.

Lemma init_is_idempotent_witness :
  init shelf (named "Technology") []
  = (Returned tt, set_id (Some 4) (named "Technology"), [catsReq])
  /\ init endless (set_id (Some 4) (named "Technology")) [catsReq]
     = (Returned tt, set_id (Some 4) (named "Technology"), [catsReq]).
Proof.
  split; [reflexivity |].
  exact (@init_is_idempotent shelf (named "Technology") []
           (set_id (Some 4) (named "Technology")) [catsReq] eq_refl
           endless [catsReq]).
Defined.

Lemma NoDup_map_inj {A B} (f : A -> B) l a b :
  NoDup (map f l) -> In a l -> In b l -> f a = f b -> a = b.
Proof.
  induction l as [| x l IH]; [contradiction |].
  cbn [map]. intros Hnd Ha Hb Heq. inversion Hnd as [| ? ? Hx Hl]; subst.
  destruct Ha as [-> | Ha], Hb as [-> | Hb]; auto.
  - exfalso. apply Hx. rewrite Heq. now apply in_map.
  - exfalso. apply Hx. rewrite <- Heq. now apply in_map.
Qed.

(** X21.  Name and id resolve each other.  When the list of categories
    is served and its ids are distinct, and [init] resolves a name to
    an id that is not 0, then [init] on a category known by that id
    alone resolves it back to the name, with one request. *)
Theorem category_name_id_round_trip net cs n i log c' log' :
  listed net cs -> NoDup (map ci_id cs) -> i <> 0 ->
  init net (named n) log = (Returned tt, c', log') -> id c' = Some i ->
  forall log2,
    init net (numbered i) log2
    = (Returned tt, set_name (Some n) (numbered i), log2 ++ [catsReq]).
Proof.
  intros Hnet Hnd Hi H Hid log2.
  rewrite init_run in H. cbn [named name id isNone] in H.
  rewrite andb_true_r, andb_false_r in H.
  destruct (truthyStr (Some n)); [| inversion H; subst; discriminate].
  rewrite getIdFromName_run, listAllCategories_run in H. cbv zeta in H.
  destruct (Hnet log) as (r & Hr & Hok & Hbody).
  rewrite Hr, Hok, Hbody in H. cbn [name eqOptStr] in H.
  destruct (find _ cs) as [found |] eqn:Hfound; [| discriminate].
  inversion H; subst. cbn [set_id id] in Hid. inversion Hid; subst.
  apply find_some in Hfound. destruct Hfound as (Hin & Hname).
  apply String.eqb_eq in Hname.
  rewrite init_run. cbn [numbered name id isNone truthyStr truthy andb].
  destruct (Z.eqb_spec (ci_id found) 0) as [| _]; [contradiction |].
  cbn [negb]. rewrite getNameFromId_run, listAllCategories_run. cbv zeta.
  destruct (Hnet log2) as (r2 & -> & -> & ->). cbn [id eqOptZ].
  destruct (find _ cs) as [found' |] eqn:Hfound'.
  - apply find_some in Hfound'. destruct Hfound' as (Hin' & Hid').
    apply Z.eqb_eq in Hid'.
    assert (found' = found) as ->.
    { apply (@NoDup_map_inj _ _ ci_id cs); auto. }
    now rewrite <- Hname.
  - exfalso. apply (find_none _ _ Hfound') in Hin.
    cbn [eqOptZ id numbered] in Hin. now rewrite Z.eqb_refl in Hin.
Qed.

Lemma category_name_id_round_trip_witness :
  init shelf (numbered 4) [catsReq]
  = (Returned tt, set_name (Some "Technology") (numbered 4),
     [catsReq] ++ [catsReq]).
Proof.
  refine (@category_name_id_round_trip shelf catalogue "Technology" 4 []
            (set_id (Some 4) (named "Technology")) [catsReq]
            _ _ _ _ _ [catsReq]).
  - intros log. eexists. split; [reflexivity |]. split; reflexivity.
  - repeat constructor; simpl; intuition discriminate.
  - discriminate.
  - reflexivity.
  - reflexivity.
Defined.

(** X22.  A category without an id whose name is missing or empty (the
    constructor lets the empty name pass) is never resolved: a call
    that goes to the network sends no request for the list of
    categories, asks for the pages of the category null, and leaves the
    id null. *)
Theorem unresolved_category_is_crawled_with_a_null_id
    fuel forceRefresh net c log res c' log' :
  truthyStr (name c) = false -> id c = None ->
  fetchesPages forceRefresh c = true -> (1 <= fuel)%nat ->
  fetchNewslettersData fuel forceRefresh net c log = (res, c', log') ->
  id c' = None
  /\ exists n, (1 <= n <= 22)%nat /\ log' = log ++ map (pageReq None) (pages n).
Proof.
  intros Hname Hid Hf Hfuel H.
  rewrite (@fetchNewslettersData_run fuel forceRefresh net c log Hf) in H.
  rewrite Hid in H. rewrite init_run in H. rewrite Hname, Hid in H.
  cbn [andb truthy] in H.
  destruct (crawl fuel [] 0 true net c log) as [[res2 c2] log2] eqn:Hcrawl.
  apply crawl_pages in Hcrawl. destruct Hcrawl as (-> & n & -> & Hn & Hsome).
  rewrite pagesFrom_0, Hid in *.
  assert (Hn1 : (1 <= n)%nat).
  { apply Hsome; [reflexivity | unfold MAX_CATEGORY_PAGES; lia | assumption]. }
  unfold MAX_CATEGORY_PAGES in Hn.
  destruct res2; inversion H; subst; cbn [set_newslettersData id];
    (split; [assumption |]); exists n; (split; [lia | reflexivity]).
Qed.

Lemma unresolved_category_is_crawled_with_a_null_id_witness :
  id (set_newslettersData (Some [entry 0; entry 1]) (named EmptyString)) = None
  /\ exists n, (1 <= n <= 22)%nat
       /\ [pageReq None 0] = [] ++ map (pageReq None) (pages n).
Proof.
  exact (@unresolved_category_is_crawled_with_a_null_id 1 false shelf
           (named EmptyString) [] (Returned [entry 0; entry 1])
           (set_newslettersData (Some [entry 0; entry 1]) (named EmptyString))
           [pageReq None 0] eq_refl eq_refl eq_refl (le_n 1) eq_refl).
Defined.

Lemma servesPages_tail net id log from page served :
  servesPages net id log from (page :: served) ->
  servesPages net id (log ++ [pageReq id from]) (from + 1) served.
Proof.
  intros H i p Hp. destruct (H (S i) p Hp) as (r & Hr & Hok & Hbody).
  exists r. rewrite <- app_assoc. cbn [app]. rewrite <- pagesFrom_S.
  replace (from + 1 + Z.of_nat i) with (from + Z.of_nat (S i)) by lia.
  auto.
Qed.

Lemma crawl_collects net c :
  forall served fuel allNewsletters pageNum log,
    servesPages net (id c) log pageNum served ->
    served <> [] ->
    moreUntilLast served = true ->
    stopsAfter pageNum served ->
    pageNum + Z.of_nat (List.length served) <= MAX_CATEGORY_PAGES + 1 ->
    (List.length served <= fuel)%nat ->
    crawl fuel allNewsletters pageNum true net c log =
    (Returned (allNewsletters ++ List.concat (map fst served)), c,
     log ++ pagesFrom (id c) pageNum (List.length served)).
Proof.
  induction served as [| page served IH];
    intros fuel allNewsletters pageNum log Hnet Hne Hmore Hstop Hbound Hfuel;
    [congruence |].
  destruct fuel as [| fuel]; [cbn [List.length] in Hfuel; lia |].
  rewrite crawl_S. cbn [andb].
  cbn [List.length] in Hbound.
  destruct (Z.leb_spec pageNum MAX_CATEGORY_PAGES) as [_ | ?]; [| lia].
  cbv zeta.
  destruct (Hnet 0%nat page eq_refl) as (r & Hr & Hok & Hbody).
  unfold pagesFrom in Hr. cbn [seq map] in Hr.
  rewrite app_nil_r, Z.add_0_r in Hr.
  rewrite Hr, Hok, Hbody. cbn [negb].
  cbn [List.length]. rewrite pagesFrom_S. cbn [map List.concat].
  destruct served as [| page' served].
  - (* the last page *)
    unfold stopsAfter in Hstop. cbn [rev app List.length] in Hstop.
    destruct fuel as [| fuel'].
    + cbn [crawl].
      destruct Hstop as [-> | Hlast].
      * cbn. now rewrite app_nil_r.
      * destruct (Z.leb_spec (pageNum + 1) MAX_CATEGORY_PAGES) as [? | _];
          [cbn [List.length] in Hlast; unfold MAX_CATEGORY_PAGES in *; lia |].
        rewrite andb_false_r. cbn. now rewrite app_nil_r.
    + rewrite crawl_S.
      assert (Hend : snd page && (pageNum + 1 <=? MAX_CATEGORY_PAGES) = false).
      { destruct Hstop as [-> | Hlast]; [reflexivity |].
        destruct (Z.leb_spec (pageNum + 1) MAX_CATEGORY_PAGES) as [? | _];
          [cbn [List.length] in Hlast; unfold MAX_CATEGORY_PAGES in *; lia |].
        apply andb_false_r. }
      rewrite Hend. cbn. now rewrite app_nil_r.
  - assert (Hthis : snd page = true /\ moreUntilLast (page' :: served) = true).
    { cbn [moreUntilLast] in Hmore. now apply andb_true_iff in Hmore. }
    destruct Hthis as (Hthis & Hrest). rewrite Hthis.
    rewrite (IH fuel (allNewsletters ++ fst page) (pageNum + 1)
                (log ++ [pageReq (id c) pageNum])).
    + rewrite <- !app_assoc. reflexivity.
    + exact (@servesPages_tail net (id c) log pageNum page (page' :: served) Hnet).
    + discriminate.
    + assumption.
    + unfold stopsAfter in *. cbn [rev] in *.
      destruct (rev served ++ [page']) as [| lastPage rest] eqn:Hrev.
      * now destruct (rev served).
      * cbn [app] in Hstop. cbn [List.length] in *.
        destruct Hstop as [? | ?]; [now left | right; lia].
    + cbn [List.length] in *. lia.
    + cbn [List.length] in *. lia.
Qed.

Lemma fetchNewslettersData_collects fuel forceRefresh net c log served :
  fetchesPages forceRefresh c = true -> id c <> None ->
  servesPages net (id c) log 0 served ->
  served <> [] -> moreUntilLast served = true -> stopsAfter 0 served ->
  (List.length served <= 22)%nat -> (List.length served <= fuel)%nat ->
  fetchNewslettersData fuel forceRefresh net c log =
  (Returned (List.concat (map fst served)),
   set_newslettersData (Some (List.concat (map fst served))) c,
   log ++ map (pageReq (id c)) (pages (List.length served))).
Proof.
  intros Hf Hid Hnet Hne Hmore Hstop Hlen Hfuel.
  rewrite (@fetchNewslettersData_run fuel forceRefresh net c log Hf).
  destruct (id c) as [i |] eqn:Ei; [| congruence].
  unfold ret at 1.
  rewrite (@crawl_collects net c served fuel [] 0 log); rewrite ?Ei;
    try assumption.
  - now rewrite pagesFrom_0.
  - unfold MAX_CATEGORY_PAGES. lia.
Qed.

(** X23.  The crawl collects what the pages hold.  When the pages are
    served, every page but the last reports [more: true], and the last
    one reports [more: false] or is page 21, the call returns the
    newsletters of all pages in order, caches them, and has sent one
    request per page; and so does [refreshData], whatever was cached
    before. *)
Theorem fetchNewslettersData_collects_the_pages
    fuel forceRefresh net c log served :
  fetchesPages forceRefresh c = true -> id c <> None ->
  servesPages net (id c) log 0 served ->
  served <> [] -> moreUntilLast served = true -> stopsAfter 0 served ->
  (List.length served <= 22)%nat -> (List.length served <= fuel)%nat ->
  let data := List.concat (map fst served) in
  let c' := set_newslettersData (Some data) c in
  let log' := log ++ map (pageReq (id c)) (pages (List.length served)) in
  fetchNewslettersData fuel forceRefresh net c log = (Returned data, c', log')
  /\ refreshData fuel net c log = (Returned tt, c', log').
Proof.
  intros Hf Hid Hnet Hne Hmore Hstop Hlen Hfuel. cbv zeta. split.
  - now apply fetchNewslettersData_collects.
  - unfold refreshData, bind.
    now rewrite (@fetchNewslettersData_collects fuel true net c log served).
Qed.

Lemma fetchNewslettersData_collects_the_pages_witness :
  fetchNewslettersData 2 false twoPages category [] =
  (Returned [entry 0; entry 1],
   set_newslettersData (Some [entry 0; entry 1]) category,
   [pageReq (Some 4) 0; pageReq (Some 4) 1])
  /\ refreshData 2 twoPages category [] =
     (Returned tt, set_newslettersData (Some [entry 0; entry 1]) category,
      [pageReq (Some 4) 0; pageReq (Some 4) 1]).
Proof.
  apply (@fetchNewslettersData_collects_the_pages 2 false twoPages category []
           [([entry 0], true); ([entry 1], false)]).
  - reflexivity.
  - discriminate.
  - intros [| [| i]] page Hpage; cbn in Hpage.
    + inversion Hpage; subst. eexists. split; [reflexivity |].
      split; reflexivity.
    + inversion Hpage; subst. eexists. split; [reflexivity |].
      split; reflexivity.
    + destruct i; discriminate.
  - discriminate.
  - reflexivity.
  - left. reflexivity.
  - simpl. lia.
  - simpl. lia.
Defined.

(** X24.  A name or an id that the list of categories does not hold
    makes [init] throw the not-found error that quotes it, after the
    one request for the list, leaving the category as it was. *)
Theorem init_fails_on_unknown_category net cs log :
  listed net cs ->
  (forall n, Str.nonempty n = true ->
     (forall cat, In cat cs -> ci_name cat <> n) ->
     init net (named n) log =
     (Threw (Error ("Category name '" ++ n ++ "' not found")%string),
      named n, log ++ [catsReq]))
  /\ (forall i, i <> 0 ->
        (forall cat, In cat cs -> ci_id cat <> i) ->
        init net (numbered i) log =
        (Threw (Error ("Category ID " ++ show i ++ " not found")%string),
         numbered i, log ++ [catsReq])).
Proof.
  intros Hnet. destruct (Hnet log) as (r & Hr & Hok & Hbody). split.
  - intros n Hn Hnone. rewrite init_run.
    cbn [named name id isNone truthyStr]. rewrite Hn. cbn [andb].
    rewrite getIdFromName_run, listAllCategories_run. cbv zeta.
    rewrite Hr, Hok, Hbody. cbn [name eqOptStr].
    destruct (find _ cs) as [found |] eqn:Hfound; [| reflexivity].
    apply find_some in Hfound. destruct Hfound as (Hin & Heq).
    apply String.eqb_eq in Heq. exfalso. now apply (Hnone found).
  - intros i Hi Hnone. rewrite init_run.
    cbn [numbered name id isNone truthyStr truthy andb].
    destruct (Z.eqb_spec i 0) as [| _]; [contradiction |]. cbn [negb].
    rewrite getNameFromId_run, listAllCategories_run. cbv zeta.
    rewrite Hr, Hok, Hbody. cbn [id eqOptZ].
    destruct (find _ cs) as [found |] eqn:Hfound; [| reflexivity].
    apply find_some in Hfound. destruct Hfound as (Hin & Heq).
    apply Z.eqb_eq in Heq. exfalso. now apply (Hnone found).
Qed.

Lemma init_fails_on_unknown_category_witness :
  init shelf (named "Knitting") [] =
  (Threw (Error "Category name 'Knitting' not found"), named "Knitting",
   [catsReq])
  /\ init shelf (numbered 5) [] =
     (Threw (Error "Category ID 5 not found"), numbered 5, [catsReq]).
Proof.
  assert (Hshelf : listed shelf catalogue).
  { intros log. eexists. split; [reflexivity |]. split; reflexivity. }
  split.
  - apply (proj1 (@init_fails_on_unknown_category shelf catalogue [] Hshelf)
                 "Knitting" eq_refl).
    intros cat [<- | [<- | []]]; discriminate.
  - apply (proj2 (@init_fails_on_unknown_category shelf catalogue [] Hshelf)
                 5 ltac:(discriminate)).
    intros cat [<- | [<- | []]]; discriminate.
Defined.

End CrawlProofs.

(** ** stripHtml: the length and the shape of the output *)

Module TextProofs.
Import Html HtmlSpec HtmlProofs.
Open Scope N_scope.

Lemma contracts_short m :
  shrinks m ->
  (forall s replacement rest,
      m s = Some (replacement, rest) -> (List.length replacement <= 1)%nat) ->
  contracts m.
Proof.
  intros Hs Hr s replacement rest H.
  pose proof (Hs _ _ _ H). pose proof (Hr _ _ _ H). lia.
Qed.

Lemma replace_length m :
  shrinks m -> contracts m ->
  forall s, (List.length (replace m s) <= List.length s)%nat.
Proof.
  intros Hs Hc s.
  remember (List.length s) as n eqn:Hn.
  revert s Hn. induction n as [n IH] using lt_wf_ind. intros s Hn.
  rewrite (replace_eq Hs).
  destruct (m s) as [[replacement rest] |] eqn:Hm.
  - pose proof (Hs _ _ _ Hm) as Hlt. pose proof (Hc _ _ _ Hm) as Hle.
    rewrite length_app.
    specialize (IH (List.length rest) ltac:(lia) rest eq_refl). lia.
  - destruct s as [| c s]; [simpl; lia |].
    cbn [List.length] in *.
    specialize (IH (List.length s) ltac:(lia) s eq_refl). lia.
Qed.

Lemma contracts_block name : contracts (block name).
Proof.
  apply contracts_short; [apply shrinks_block |].
  intros s replacement rest H. unfold block in H.
  destruct (after true _ s); [| discriminate].
  destruct (dropWhile _ _); [discriminate |].
  destruct (afterFirst _ _ _); [| discriminate].
  inversion H. simpl. lia.
Qed.

Lemma contracts_closeBlock : contracts closeBlock.
Proof.
  apply contracts_short; [apply shrinks_closeBlock |].
  intros s replacement rest H. unfold closeBlock in H.
  destruct (after false _ s); [| discriminate].
  destruct (firstAlt _ _); [| discriminate].
  inversion H. simpl. lia.
Qed.

Lemma contracts_br : contracts br.
Proof.
  apply contracts_short; [apply shrinks_br |].
  intros s replacement rest H. unfold br in H.
  destruct (after true _ s); [| discriminate].
  destruct (after false _ _); [| discriminate].
  inversion H. simpl. lia.
Qed.

Lemma contracts_listTag : contracts listTag.
Proof.
  apply contracts_short; [apply shrinks_listTag |].
  intros s replacement rest H. unfold listTag in H.
  destruct (after false _ s); [| discriminate].
  destruct (firstAlt _ _); [| discriminate].
  inversion H. simpl. lia.
Qed.

Lemma contracts_anyTag : contracts anyTag.
Proof.
  apply contracts_short; [apply shrinks_anyTag |].
  intros s replacement rest H. unfold anyTag in H.
  destruct s as [| c [| d s]]; try discriminate.
  destruct (_ && _); [| discriminate].
  destruct (dropWhile _ _); [discriminate |].
  inversion H. simpl. lia.
Qed.

Lemma contracts_literal entity char :
  lit entity <> [] -> (List.length char <= 1)%nat ->
  contracts (literal entity char).
Proof.
  intros Hne Hlen. apply contracts_short; [now apply shrinks_literal |].
  intros s replacement rest H. unfold literal in H.
  destruct (after false _ s); [| discriminate].
  now inversion H; subst.
Qed.

Lemma contracts_entities :
  Forall (fun e => contracts (literal (fst e) (snd e))) entities.
Proof.
  unfold entities.
  repeat (constructor; [apply contracts_literal; [discriminate | simpl; lia] |]).
  constructor.
Qed.

Lemma contracts_decimalRef : contracts decimalRef.
Proof.
  apply contracts_short; [apply shrinks_decimalRef |].
  intros s replacement rest H. unfold decimalRef in H.
  destruct (after false _ s); [| discriminate].
  destruct (takeWhile _ _); [discriminate |].
  destruct (after false _ _); [| discriminate].
  inversion H. simpl. lia.
Qed.

Lemma contracts_hexRef : contracts hexRef.
Proof.
  apply contracts_short; [apply shrinks_hexRef |].
  intros s replacement rest H. unfold hexRef in H.
  destruct (after false _ s); [| discriminate].
  destruct (takeWhile _ _); [discriminate |].
  destruct (after false _ _); [| discriminate].
  inversion H. simpl. lia.
Qed.

Lemma contracts_spaces : contracts spaces.
Proof.
  apply contracts_short; [apply shrinks_spaces |].
  intros s replacement rest H. unfold spaces in H.
  destruct s as [| c s]; [discriminate |].
  destruct (isSpaceTab c); [| discriminate].
  inversion H. simpl. lia.
Qed.

Lemma contracts_blankLines : contracts blankLines.
Proof.
  intros s replacement rest H. unfold blankLines in H.
  destruct s as [| c s]; [discriminate |].
  destruct (c =? LF); [| discriminate].
  destruct (blankTail s) as [r |] eqn:Hr; [| discriminate].
  inversion H; subst. apply blankTail_shorter in Hr. simpl. lia.
Qed.

Lemma entities_length es :
  Forall (fun e => shrinks (literal (fst e) (snd e))) es ->
  Forall (fun e => contracts (literal (fst e) (snd e))) es ->
  forall text,
    (List.length (fold_left (fun text e => replace (literal (fst e) (snd e)) text)
                            es text)
     <= List.length text)%nat.
Proof.
  induction es as [| e es IH]; intros Hs Hc text; [simpl; lia |].
  inversion Hs; subst. inversion Hc; subst. cbn [fold_left].
  etransitivity; [apply IH; assumption |]. now apply replace_length.
Qed.

Lemma stripMarkup_length html :
  (List.length (stripMarkup html) <= List.length html)%nat.
Proof.
  unfold stripMarkup.
  repeat (etransitivity;
          [apply replace_length;
           first [apply shrinks_hexRef | apply shrinks_decimalRef
                 | apply shrinks_anyTag | apply shrinks_listTag
                 | apply shrinks_br | apply shrinks_closeBlock
                 | apply shrinks_block
                 | apply contracts_hexRef | apply contracts_decimalRef
                 | apply contracts_anyTag | apply contracts_listTag
                 | apply contracts_br | apply contracts_closeBlock
                 | apply contracts_block] |]).
  etransitivity;
    [apply entities_length; [apply shrinks_entities | apply contracts_entities] |].
  repeat (etransitivity;
          [apply replace_length;
           first [apply shrinks_anyTag | apply shrinks_listTag
                 | apply shrinks_br | apply shrinks_closeBlock
                 | apply shrinks_block
                 | apply contracts_anyTag | apply contracts_listTag
                 | apply contracts_br | apply contracts_closeBlock
                 | apply contracts_block] |]).
  reflexivity.
Qed.

Lemma trimEnd_length s : (List.length (trimEnd s) <= List.length s)%nat.
Proof.
  induction s as [| c s IH]; [simpl; lia |].
  rewrite trimEnd_cons. destruct (trimEnd s).
  - destruct (isSpace c); simpl; lia.
  - cbn [List.length] in *. lia.
Qed.

Lemma trim_length s : (List.length (trim s) <= List.length s)%nat.
Proof.
  unfold trim, trimStart.
  etransitivity; [apply trimEnd_length | apply dropWhile_length].
Qed.

Lemma joinLines_map_length (f : jsstring -> jsstring) lines :
  (forall l, (List.length (f l) <= List.length l)%nat) ->
  (List.length (joinLines (map f lines)) <= List.length (joinLines lines))%nat.
Proof.
  intros Hf. induction lines as [| l lines IH]; [simpl; lia |].
  destruct lines as [| l' lines].
  - cbn. apply Hf.
  - cbn [map] in *.
    rewrite (@joinLines_cons (f l) (f l' :: map f lines)) by discriminate.
    rewrite (@joinLines_cons l (l' :: lines)) by discriminate.
    rewrite !length_app. cbn [List.length]. specialize (Hf l). lia.
Qed.

Lemma normalizeSpace_length text :
  (List.length (normalizeSpace text) <= List.length text)%nat.
Proof.
  unfold normalizeSpace.
  etransitivity; [apply trim_length |].
  etransitivity; [apply joinLines_map_length, trim_length |].
  rewrite joinLines_split.
  etransitivity;
    [apply replace_length; [apply shrinks_blankLines | apply contracts_blankLines] |].
  apply replace_length; [apply shrinks_spaces | apply contracts_spaces].
Qed.

Unset Implicit Arguments.

(** X25.  The text that [stripHtml] returns is never longer than its
    input. *)
Theorem stripHtml_never_grows html :
  (List.length (stripHtml html) <= List.length html)%nat.
Proof.
  rewrite stripHtml_eq.
  etransitivity; [apply normalizeSpace_length | apply stripMarkup_length].
Qed.

(** X26.  The white-space stage of [stripHtml] (its last five
    statements) is idempotent on every string. *)
Theorem whitespace_normalisation_is_idempotent text :
  normalizeSpace (normalizeSpace text) = normalizeSpace text.
Proof. apply normalizeSpace_idempotent. Qed.

(** X27.  The output of [stripHtml] is normalised text: its lines have
    no white space at either end, no tab and no two spaces in a row;
    the first and the last line are not empty, and no two empty lines
    follow each other. *)
Theorem stripHtml_output_is_normalised html :
  exists lines, stripHtml html = joinLines lines /\ normalLines lines.
Proof. rewrite stripHtml_eq. apply normalizeSpace_lines. Qed.

(** X28.  On text without a less-than sign and without an ampersand
    [stripHtml] only normalises the white space. *)
Theorem stripHtml_of_plain_text html :
  ~ In LT html -> ~ In AMP html -> stripHtml html = normalizeSpace html.
Proof.
  intros Hlt Hamp. rewrite stripHtml_eq. now rewrite stripMarkup_plain.
Qed.

Lemma stripHtml_of_plain_text_witness :
  stripHtml (lit "  a   b ") = normalizeSpace (lit "  a   b ").
Proof.
  apply (stripHtml_of_plain_text (lit "  a   b ")).
  - apply not_in_plain. reflexivity.
  - apply not_in_plain. reflexivity.
Defined.
Set Implicit Arguments.

End TextProofs.

(** ** [stripHtml]: normalising twice *)

Module IdempotenceProofs.
Import Html HtmlSpec HtmlProofs TextProofs.
Open Scope N_scope.

Lemma reduces_contracts m : reduces m -> contracts m.
Proof. intros H s replacement rest E. apply H in E. lia. Qed.

Lemma reduces_shrinks m : reduces m -> shrinks m.
Proof. intros H s replacement rest E. apply H in E. lia. Qed.

Lemma fold_left_map {A B C} (f : A -> B -> A) (g : C -> B) l :
  forall a, fold_left f (map g l) a = fold_left (fun a c => f a (g c)) l a.
Proof. induction l as [| c l IH]; intros a; [reflexivity | apply IH]. Qed.

Lemma stripMarkup_markup s :
  stripMarkup s = fold_left (fun text m => replace m text) markup s.
Proof.
  unfold markup.
  rewrite (fold_left_app (fun text m => replace m text)
             [block "script"; block "style"; closeBlock; br; listTag; anyTag]).
  rewrite (fold_left_app (fun text m => replace m text)
             (map (fun e => literal (fst e) (snd e)) entities)).
  rewrite fold_left_map. unfold stripMarkup. cbv zeta. cbn [fold_left].
  reflexivity.
Qed.

(** A scan that finds no match leaves the string as it is. *)
Lemma replace_no_match m s :
  shrinks m -> matchesIn m s = false -> replace m s = s.
Proof.
  intros Hs. unfold matchesIn.
  induction s as [| c s IH]; intros H; rewrite (replace_eq Hs);
    cbn [tails existsb] in H; apply orb_false_iff in H; destruct H as (H0 & H).
  - destruct (m []) as [[replacement rest] |]; [discriminate | reflexivity].
  - destruct (m (c :: s)) as [[replacement rest] |]; [discriminate |].
    f_equal. now apply IH.
Qed.

(** A scan that finds a match gives a shorter string. *)
Lemma replace_match m s :
  reduces m -> matchesIn m s = true ->
  (List.length (replace m s) < List.length s)%nat.
Proof.
  intros Hr. pose proof (reduces_shrinks Hr) as Hs.
  pose proof (reduces_contracts Hr) as Hc.
  unfold matchesIn.
  induction s as [| c s IH]; intros H; rewrite (replace_eq Hs);
    cbn [tails existsb] in H.
  - rewrite orb_false_r in H.
    destruct (m []) as [[replacement rest] |] eqn:E; [| discriminate].
    apply Hr in E. simpl in E. lia.
  - destruct (m (c :: s)) as [[replacement rest] |] eqn:E.
    + pose proof (Hr _ _ _ E) as Hlt. rewrite length_app.
      pose proof (replace_length Hs Hc rest). lia.
    + cbn [orb] in H. apply IH in H. simpl. lia.
Qed.

Lemma markup_no_match ms s :
  Forall shrinks ms ->
  forallb (fun m => negb (matchesIn m s)) ms = true ->
  fold_left (fun text m => replace m text) ms s = s.
Proof.
  induction 1 as [| m ms Hm _ IH]; intros H; [reflexivity |].
  cbn [forallb] in H. apply andb_true_iff in H. destruct H as (H0 & H).
  apply negb_true_iff in H0. cbn [fold_left].
  rewrite (replace_no_match _ Hm H0). now apply IH.
Qed.

Lemma markup_length ms :
  Forall reduces ms ->
  forall s, (List.length (fold_left (fun text m => replace m text) ms s)
             <= List.length s)%nat.
Proof.
  induction 1 as [| m ms Hm _ IH]; intros s; [simpl; lia |].
  cbn [fold_left]. etransitivity; [apply IH |].
  apply replace_length; [now apply reduces_shrinks | now apply reduces_contracts].
Qed.

Lemma markup_match ms s :
  Forall reduces ms ->
  forallb (fun m => negb (matchesIn m s)) ms = false ->
  (List.length (fold_left (fun text m => replace m text) ms s)
   < List.length s)%nat.
Proof.
  induction 1 as [| m ms Hm Hms IH]; intros H; [discriminate |].
  cbn [forallb] in H. cbn [fold_left].
  destruct (matchesIn m s) eqn:E.
  - pose proof (replace_match _ Hm E).
    pose proof (markup_length Hms (replace m s)). lia.
  - cbn [negb andb] in H.
    rewrite (replace_no_match _ (reduces_shrinks Hm) E). now apply IH.
Qed.

Lemma reduces_block name : reduces (block name).
Proof.
  intros s replacement rest H. pose proof (shrinks_block _ _ H) as Hs.
  unfold block in H.
  destruct (after true _ s); [| discriminate].
  destruct (dropWhile _ _); [discriminate |].
  destruct (afterFirst _ _ _); [| discriminate].
  inversion H; subst. simpl. lia.
Qed.

Lemma reduces_closeBlock : reduces closeBlock.
Proof.
  intros s replacement rest H. unfold closeBlock in H.
  destruct (after false (lit "</") s) as [s1 |] eqn:E1; [| discriminate].
  destruct (firstAlt _ s1) as [r |] eqn:E2; [| discriminate].
  inversion H; subst. apply after_length in E1.
  apply firstAlt_length in E2;
    [| repeat constructor; try apply after_alt; apply heading_length].
  simpl in *. lia.
Qed.

Lemma reduces_br : reduces br.
Proof.
  intros s replacement rest H. unfold br in H.
  destruct (after true (lit "<br") s) as [s1 |] eqn:E1; [| discriminate].
  destruct (after false [GT] (optSlash (dropWhile isSpace s1))) as [r |] eqn:E2;
    [| discriminate].
  inversion H; subst. apply after_length in E1. apply after_length in E2.
  pose proof (optSlash_length (dropWhile isSpace s1)).
  pose proof (dropWhile_length isSpace s1). simpl in *. lia.
Qed.

Lemma reduces_listTag : reduces listTag.
Proof.
  intros s replacement rest H. unfold listTag in H.
  destruct (after false [LT] s) as [s1 |] eqn:E1; [| discriminate].
  destruct (firstAlt _ (optSlash s1)) as [r |] eqn:E2; [| discriminate].
  inversion H; subst. apply after_length in E1.
  apply firstAlt_length in E2; [| repeat constructor; apply after_alt].
  pose proof (optSlash_length s1). simpl in *. lia.
Qed.

Lemma reduces_anyTag : reduces anyTag.
Proof.
  intros s replacement rest H. pose proof (shrinks_anyTag _ H) as Hs.
  destruct s as [| c [| d s']]; try discriminate.
  cbn [anyTag] in H. destruct ((c =? LT) && negb (d =? GT)); [| discriminate].
  destruct (dropWhile _ _); [discriminate |].
  inversion H; subst. simpl in *. lia.
Qed.

Lemma reduces_literal entity char :
  (List.length char < List.length (lit entity))%nat ->
  reduces (literal entity char).
Proof.
  intros Hlen s replacement rest H. unfold literal in H.
  destruct (after false (lit entity) s) as [r |] eqn:E; [| discriminate].
  inversion H; subst. apply after_length in E. lia.
Qed.

Lemma reduces_decimalRef : reduces decimalRef.
Proof.
  intros s replacement rest H. unfold decimalRef in H.
  destruct (after false (lit "&#") s) as [s1 |] eqn:E1; [| discriminate].
  cbv zeta in H. destruct (takeWhile isDigit s1); [discriminate |].
  destruct (after false (lit ";") (dropWhile isDigit s1)) as [r |] eqn:E2;
    [| discriminate].
  inversion H; subst. apply after_length in E1. apply after_length in E2.
  pose proof (dropWhile_length isDigit s1). simpl in *. lia.
Qed.

Lemma reduces_hexRef : reduces hexRef.
Proof.
  intros s replacement rest H. unfold hexRef in H.
  destruct (after false (lit "&#x") s) as [s1 |] eqn:E1; [| discriminate].
  cbv zeta in H. destruct (takeWhile isHex s1); [discriminate |].
  destruct (after false (lit ";") (dropWhile isHex s1)) as [r |] eqn:E2;
    [| discriminate].
  inversion H; subst. apply after_length in E1. apply after_length in E2.
  pose proof (dropWhile_length isHex s1). simpl in *. lia.
Qed.

Lemma reduces_markup : Forall reduces markup.
Proof.
  unfold markup, entities. cbn [map app fst snd].
  repeat (constructor;
          [first [apply reduces_block | apply reduces_closeBlock
                 | apply reduces_br | apply reduces_listTag
                 | apply reduces_anyTag | apply reduces_decimalRef
                 | apply reduces_hexRef
                 | apply reduces_literal; simpl; lia] |]).
  constructor.
Qed.

Lemma shrinks_markup : Forall shrinks markup.
Proof.
  eapply Forall_impl; [| apply reduces_markup].
  intros m. apply reduces_shrinks.
Qed.

(** The statements on tags and entities leave a text as it is exactly
    when it is free of markup; otherwise they make it shorter. *)
Lemma stripMarkup_fixed s :
  markupFree s = true -> stripMarkup s = s.
Proof.
  intros H. rewrite stripMarkup_markup.
  apply markup_no_match; [apply shrinks_markup | exact H].
Qed.

Lemma stripMarkup_shorter s :
  markupFree s = false ->
  (List.length (stripMarkup s) < List.length s)%nat.
Proof.
  intros H. rewrite stripMarkup_markup.
  apply markup_match; [apply reduces_markup | exact H].
Qed.

(** *** Every tag ends in ">" and every entity in ";" *)

Lemma suffix_refl a : suffix a a.
Proof. now exists []. Qed.

Lemma suffix_trans a b c : suffix a b -> suffix b c -> suffix a c.
Proof.
  intros (p & ->) (q & ->). exists (q ++ p). now rewrite app_assoc.
Qed.

Lemma suffix_cons x a b : suffix a b -> suffix a (x :: b).
Proof. intros (p & ->). now exists (x :: p). Qed.

Lemma suffix_in d r s : suffix (d :: r) s -> In d s.
Proof. intros (p & ->). apply in_elt. Qed.

Lemma suffix_tail d r c s : suffix (d :: r) (c :: s) -> d <> c -> In d s.
Proof.
  intros ([| x p] & H) Hne; inversion H; subst.
  - congruence.
  - apply in_elt.
Qed.

Lemma after_suffix ci pat :
  forall s rest, after ci pat s = Some rest -> suffix rest s.
Proof.
  induction pat as [| p pat IH]; intros s rest H.
  - simpl in H. inversion H. apply suffix_refl.
  - destruct s as [| c s]; [discriminate |]. cbn [after] in H.
    destruct (sameChar ci p c); [| discriminate].
    apply suffix_cons. now apply IH.
Qed.

Lemma after_exact pat :
  forall s rest, after false pat s = Some rest -> s = pat ++ rest.
Proof.
  induction pat as [| p pat IH]; intros s rest H.
  - simpl in H. now inversion H.
  - destruct s as [| c s]; [discriminate |]. cbn [after sameChar] in H.
    destruct (N.eqb_spec p c) as [-> | _]; [| discriminate].
    cbn [app]. f_equal. now apply IH.
Qed.

Lemma dropWhile_suffix f s : suffix (dropWhile f s) s.
Proof.
  induction s as [| c s IH]; [apply suffix_refl |]. cbn [dropWhile].
  destruct (f c); [now apply suffix_cons | apply suffix_refl].
Qed.

Lemma optSlash_suffix s : suffix (optSlash s) s.
Proof.
  destruct s as [| c s]; [apply suffix_refl |]. cbn [optSlash].
  destruct (c =? 47); [apply suffix_cons |]; apply suffix_refl.
Qed.

Lemma heading_suffix s rest : heading s = Some rest -> suffix rest s.
Proof.
  unfold heading. destruct (after true (lit "h") s) as [[| d s'] |] eqn:E;
    try discriminate.
  destruct ((49 <=? d) && (d <=? 54)); [| discriminate].
  intros [= <-]. apply after_suffix in E.
  eapply suffix_trans; [| exact E]. apply suffix_cons, suffix_refl.
Qed.

Lemma stops_at_GT s g r :
  dropWhile (fun c => negb (c =? GT)) s = g :: r -> g = GT.
Proof.
  intros H. pose proof (dropWhile_head (fun c => negb (c =? GT)) s) as Hd.
  rewrite H in Hd. apply negb_false_iff in Hd. now apply N.eqb_eq in Hd.
Qed.

Lemma firstAlt_suffix alts :
  Forall (fun alt => forall s s', alt s = Some s' -> suffix s' s) alts ->
  forall s rest, firstAlt alts s = Some rest -> suffix (GT :: rest) s.
Proof.
  induction 1 as [| alt alts Halt _ IH]; intros s rest H; [discriminate |].
  cbn [firstAlt] in H. destruct (alt s) as [s' |] eqn:E; [| now apply IH].
  destruct (after false [GT] s') as [r |] eqn:E'; [| now apply IH].
  inversion H; subst. apply Halt in E. apply after_exact in E'. subst s'.
  exact E.
Qed.

Lemma closed_tag (m : Matcher) :
  (forall s replacement rest,
      m s = Some (replacement, rest) -> exists s', s = LT :: s') ->
  (forall s replacement rest,
      m s = Some (replacement, rest) -> exists r, suffix (GT :: r) s) ->
  closed m.
Proof.
  intros Hlt Hgt s replacement rest H.
  destruct (Hlt _ _ _ H) as (s' & ->). destruct (Hgt _ _ _ H) as (r & Hr).
  exists s'. left. split; [reflexivity |].
  apply (suffix_tail Hr). discriminate.
Qed.

Lemma closed_block name : closed (block name).
Proof.
  apply closed_tag; [apply block_at_LT |].
  intros s replacement rest H. unfold block in H.
  destruct (after true _ s) as [s1 |] eqn:E1; [| discriminate].
  destruct (dropWhile _ s1) as [| g s2] eqn:E2; [discriminate |].
  exists s2. rewrite <- (stops_at_GT _ E2), <- E2.
  eapply suffix_trans; [apply dropWhile_suffix | now apply after_suffix in E1].
Qed.

Lemma closed_closeBlock : closed closeBlock.
Proof.
  apply closed_tag; [apply closeBlock_at_LT |].
  intros s replacement rest H. unfold closeBlock in H.
  destruct (after false (lit "</") s) as [s1 |] eqn:E1; [| discriminate].
  destruct (firstAlt _ s1) as [r |] eqn:E2; [| discriminate].
  exists r. apply after_suffix in E1.
  eapply suffix_trans; [| exact E1].
  apply (firstAlt_suffix (alts := [after true (lit "p"); after true (lit "div");
                                   heading; after true (lit "li");
                                   after true (lit "tr");
                                   after true (lit "blockquote")]));
    [| exact E2].
  repeat constructor; try apply after_suffix. apply heading_suffix.
Qed.

Lemma closed_br : closed br.
Proof.
  apply closed_tag; [apply br_at_LT |].
  intros s replacement rest H. unfold br in H.
  destruct (after true (lit "<br") s) as [s1 |] eqn:E1; [| discriminate].
  destruct (after false [GT] (optSlash (dropWhile isSpace s1))) as [r |] eqn:E2;
    [| discriminate].
  exists r. apply after_exact in E2. cbn [app] in E2. rewrite <- E2.
  eapply suffix_trans; [apply optSlash_suffix |].
  eapply suffix_trans; [apply dropWhile_suffix | now apply after_suffix in E1].
Qed.

Lemma closed_listTag : closed listTag.
Proof.
  apply closed_tag; [apply listTag_at_LT |].
  intros s replacement rest H. unfold listTag in H.
  destruct (after false [LT] s) as [s1 |] eqn:E1; [| discriminate].
  destruct (firstAlt _ (optSlash s1)) as [r |] eqn:E2; [| discriminate].
  exists r. apply after_suffix in E1.
  eapply suffix_trans; [| exact E1].
  eapply suffix_trans; [| apply optSlash_suffix].
  apply (firstAlt_suffix (alts := [after true (lit "ul"); after true (lit "ol")]));
    [| exact E2].
  repeat constructor; apply after_suffix.
Qed.

Lemma closed_anyTag : closed anyTag.
Proof.
  apply closed_tag; [apply anyTag_at_LT |].
  intros s replacement rest H.
  destruct s as [| c [| d s']]; try discriminate.
  cbn [anyTag] in H. destruct ((c =? LT) && negb (d =? GT)); [| discriminate].
  destruct (dropWhile _ s') as [| g r] eqn:E; [discriminate |].
  exists r. rewrite <- (stops_at_GT _ E), <- E.
  do 2 apply suffix_cons. apply dropWhile_suffix.
Qed.

Lemma closed_literal entity char tail :
  lit entity = AMP :: tail -> In SEMI tail -> closed (literal entity char).
Proof.
  intros He Hin s replacement rest H. unfold literal in H.
  destruct (after false (lit entity) s) as [r |] eqn:E; [| discriminate].
  apply after_exact in E. rewrite He in E. subst s.
  exists (tail ++ r). right. split; [reflexivity |].
  apply in_or_app. now left.
Qed.

Lemma closed_decimalRef : closed decimalRef.
Proof.
  intros s replacement rest H. unfold decimalRef in H.
  destruct (after false (lit "&#") s) as [s1 |] eqn:E1; [| discriminate].
  cbv zeta in H. destruct (takeWhile isDigit s1); [discriminate |].
  destruct (after false (lit ";") (dropWhile isDigit s1)) as [r |] eqn:E2;
    [| discriminate].
  apply after_exact in E1. apply after_exact in E2. subst s.
  eexists. right. split; [reflexivity |].
  right. apply (@suffix_in SEMI r). change (SEMI :: r) with (lit ";" ++ r).
  rewrite <- E2. apply dropWhile_suffix.
Qed.

Lemma closed_hexRef : closed hexRef.
Proof.
  intros s replacement rest H. unfold hexRef in H.
  destruct (after false (lit "&#x") s) as [s1 |] eqn:E1; [| discriminate].
  cbv zeta in H. destruct (takeWhile isHex s1); [discriminate |].
  destruct (after false (lit ";") (dropWhile isHex s1)) as [r |] eqn:E2;
    [| discriminate].
  apply after_exact in E1. apply after_exact in E2. subst s.
  eexists. right. split; [reflexivity |].
  right. right. apply (@suffix_in SEMI r).
  change (SEMI :: r) with (lit ";" ++ r).
  rewrite <- E2. apply dropWhile_suffix.
Qed.

Lemma closed_markup : Forall closed markup.
Proof.
  unfold markup, entities. cbn [map app fst snd].
  repeat (constructor;
          [first [apply closed_block | apply closed_closeBlock
                 | apply closed_br | apply closed_listTag
                 | apply closed_anyTag | apply closed_decimalRef
                 | apply closed_hexRef
                 | eapply closed_literal; [reflexivity | simpl; tauto]] |]).
  constructor.
Qed.

Lemma followedBy_tails c d s :
  followedBy c d s = false ->
  forall t, In t (tails s) -> forall t', t = c :: t' -> ~ In d t'.
Proof.
  induction s as [| x s IH]; intros H t Ht t' -> Hin.
  - cbn in Ht. destruct Ht as [Ht | []]. discriminate.
  - cbn [followedBy] in H. apply orb_false_iff in H. destruct H as (H0 & H).
    cbn [tails] in Ht. destruct Ht as [Ht | Ht].
    + inversion Ht; subst. rewrite N.eqb_refl in H0. cbn [andb] in H0.
      assert (Hex : existsb (N.eqb d) t' = true).
      { apply existsb_exists. exists d. split; [assumption | apply N.eqb_refl]. }
      congruence.
    + now apply (IH H (c :: t') Ht t' eq_refl).
Qed.

(** A text in which no "<" comes before a ">" and no "&" before a ";"
    is free of markup. *)
Lemma markupFree_open s :
  followedBy LT GT s = false -> followedBy AMP SEMI s = false ->
  markupFree s = true.
Proof.
  intros Hlt Hamp. unfold markupFree. apply forallb_forall. intros m Hm.
  apply negb_true_iff. unfold matchesIn.
  destruct (existsb _ (tails s)) eqn:E; [| reflexivity]. exfalso.
  apply existsb_exists in E. destruct E as (t & Ht & Hmt).
  destruct (m t) as [[replacement rest] |] eqn:Emt; [| discriminate].
  pose proof closed_markup as Hall. rewrite Forall_forall in Hall.
  destruct (Hall m Hm _ _ _ Emt) as (t' & [(-> & Hin) | (-> & Hin)]).
  - exact (@followedBy_tails LT GT s Hlt _ Ht t' eq_refl Hin).
  - exact (@followedBy_tails AMP SEMI s Hamp _ Ht t' eq_refl Hin).
Qed.

Unset Implicit Arguments.

(** C6, amended.  Normalising the text that [stripHtml] returned gives
    the same text exactly when no tag and no entity that [stripHtml]
    knows is left in that text: when none of its expressions for tags
    and entities matches anywhere in it.  So it does whenever no "<" of
    the text comes before a ">" and no "&" before a ";": a lone "<" or
    "&" is kept as it is. *)
Theorem stripHtml_idempotent_iff_output_is_markup_free html :
  (stripHtml (stripHtml html) = stripHtml html
   <-> markupFree (stripHtml html) = true)
  /\ (followedBy LT GT (stripHtml html) = false ->
      followedBy AMP SEMI (stripHtml html) = false ->
      stripHtml (stripHtml html) = stripHtml html).
Proof.
  assert (Hfixed : markupFree (stripHtml html) = true ->
                   stripHtml (stripHtml html) = stripHtml html).
  { intros Hfree.
    rewrite (stripHtml_eq (stripHtml html)).
    rewrite (stripMarkup_fixed _ Hfree).
    rewrite (stripHtml_eq html).
    apply normalizeSpace_idempotent. }
  split; [split; [| exact Hfixed] |].
  - intros Hfix. destruct (markupFree (stripHtml html)) eqn:Hfree;
      [reflexivity |].
    apply stripMarkup_shorter in Hfree.
    pose proof (normalizeSpace_length (stripMarkup (stripHtml html))) as Hn.
    rewrite <- (stripHtml_eq (stripHtml html)) in Hn.
    rewrite Hfix in Hn. lia.
  - intros Hlt Hamp. apply Hfixed. now apply markupFree_open.
Qed.

Lemma stripHtml_idempotent_iff_output_is_markup_free_witness :
  let html := lit "<p>x &gt; y; AT&amp;T R&amp;D:   if a &lt; b then</p>" in
  stripHtml html = lit "x > y; AT&T R&D: if a < b then"
  /\ stripHtml (stripHtml html) = stripHtml html.
Proof.
  cbv zeta. split; [vm_compute; reflexivity |].
  apply (proj2 (stripHtml_idempotent_iff_output_is_markup_free _));
    vm_compute; reflexivity.
Defined.

Set Implicit Arguments.

End IdempotenceProofs.

(** ** Posts: the text of the body *)

Module PostTextProofs.
Import Post PostSpec PostDataProofs PostText.
Import Html HtmlSpec HtmlProofs TextProofs.

Unset Implicit Arguments.

(** X29.  [getTextContent] fetches what [fetchPostData] fetches.  It
    returns null exactly when the post has no body or an empty one;
    otherwise it returns [stripHtml] of the body, which is no longer
    than the body and is normalised text.  (When the fetch returned
    [null] it throws.) *)
Theorem getTextContent_is_null_or_normalised
    forceRefresh net p log text p' log' :
  getTextContent forceRefresh net p log = (Returned text, p', log') ->
  exists data,
    fetchPostData forceRefresh net p log = (Returned (Some data), p', log')
    /\ postData p' = Some data
    /\ match text with
       | None => truthyUnits (body_html data) = false
       | Some t =>
         exists html,
           body_html data = Some html /\ html <> []
           /\ t = stripHtml html
           /\ (List.length t <= List.length html)%nat
           /\ exists lines, t = joinLines lines /\ normalLines lines
       end.
Proof.
  unfold getTextContent, getContent. unfold bind at 1. unfold bind at 1.
  destruct (fetchPostData forceRefresh net p log) as [[res p0] log0] eqn:Hfetch.
  destruct res as [[data |] | e |]; try discriminate.
  cbn [field]. unfold bind at 1. unfold ret at 1. unfold ret at 1.
  pose proof (@fetchPostData_returned forceRefresh net p log (Some data) p0 log0
                Hfetch) as Hdata.
  destruct (body_html data) as [[| c html] |] eqn:Hbody;
    cbn [truthyUnits negb].
  - intros [= <- <- <-]. exists data. split; [reflexivity |].
    split; [assumption |]. now rewrite Hbody.
  - intros [= <- <- <-]. exists data. split; [reflexivity |].
    split; [assumption |]. rewrite Hbody. exists (c :: html).
    split; [reflexivity |]. split; [discriminate |]. split; [reflexivity |].
    split.
    + rewrite stripHtml_eq.
      etransitivity; [apply normalizeSpace_length | apply stripMarkup_length].
    + rewrite stripHtml_eq. apply normalizeSpace_lines.
  - intros [= <- <- <-]. exists data. split; [reflexivity |].
    split; [assumption |]. now rewrite Hbody.
Qed.

Lemma getTextContent_is_null_or_normalised_witness :
  let text := [8364; 53]%N in
  let p' := set_postData (Some Mock.article) fresh in
  getTextContent false kiosk fresh [] = (Returned (Some text), p', [postReq fresh])
  /\ exists data,
      fetchPostData false kiosk fresh []
      = (Returned (Some data), p', [postReq fresh])
      /\ postData p' = Some data
      /\ exists html,
          body_html data = Some html /\ html <> []
          /\ text = stripHtml html
          /\ (List.length text <= List.length html)%nat
          /\ exists lines, text = joinLines lines /\ normalLines lines.
Proof.
  cbv zeta. split; [reflexivity |].
  exact (getTextContent_is_null_or_normalised false kiosk fresh []
           (Some [8364; 53]%N) (set_postData (Some Mock.article) fresh)
           [postReq fresh] eq_refl).
Defined.
Set Implicit Arguments.

End PostTextProofs.

(** ** The cookie header *)

Module AuthProofs.
Import Auth AuthSpec.

Lemma mapSet_keys k v m :
  map fst (mapSet k v m) = if existsb (String.eqb k) (map fst m)
                           then map fst m else map fst m ++ [k].
Proof.
  induction m as [| [k' v'] m IH]; [reflexivity |].
  cbn [mapSet map fst existsb].
  rewrite (String.eqb_sym k k').
  destruct (String.eqb k' k); [reflexivity |].
  cbn [map fst orb]. rewrite IH. now destruct (existsb _ _).
Qed.

Lemma mapSet_NoDup k v m : NoDup (map fst m) -> NoDup (map fst (mapSet k v m)).
Proof.
  intros H. rewrite mapSet_keys.
  destruct (existsb (String.eqb k) (map fst m)) eqn:E; [assumption |].
  apply NoDup_app; [assumption | repeat constructor; intros [] |].
  intros x Hx [<- | []].
  assert (existsb (String.eqb k) (map fst m) = true); [| congruence].
  apply existsb_exists. exists k. split; [assumption | apply String.eqb_refl].
Qed.

Lemma mapSet_In k v m n w :
  NoDup (map fst m) ->
  In (n, w) (mapSet k v m) <->
  (n = k /\ w = v) \/ (n <> k /\ In (n, w) m).
Proof.
  induction m as [| [k' v'] m IH]; intros Hnd.
  - cbn. split.
    + intros [[= <- <-] | []]. auto.
    + intros [(-> & ->) | (_ & [])]. auto.
  - inversion Hnd as [| ? ? Hk' Hm]; subst. cbn [mapSet].
    destruct (String.eqb_spec k' k) as [-> | Hneq].
    + cbn [In]. split.
      * intros [[= <- <-] | Hin]; [auto |].
        right. split; [| auto]. intros ->. apply Hk'.
        now apply (in_map fst) in Hin.
      * intros [(-> & ->) | (Hn & [[= <- _] | Hin])]; auto. contradiction.
    + cbn [In]. rewrite (IH Hm). split.
      * intros [[= <- <-] | [(-> & ->) | (Hn & Hin)]]; auto.
      * intros [(-> & ->) | (Hn & [[= <- <-] | Hin])]; auto.
Qed.

Lemma find_app_first {A} (f : A -> bool) l1 l2 :
  find f (l1 ++ l2) = match find f l1 with
                      | Some x => Some x
                      | None => find f l2
                      end.
Proof.
  induction l1 as [| x l1 IH]; [reflexivity |].
  cbn [app find]. now destruct (f x).
Qed.

Lemma lastValue_cons n c cs :
  lastValue n (c :: cs) =
  match lastValue n cs with
  | Some v => Some v
  | None => if String.eqb (cookie_name c) n then Some (cookie_value c) else None
  end.
Proof.
  unfold lastValue. cbn [rev]. rewrite find_app_first.
  destruct (find _ (rev cs)); [reflexivity |]. cbn [find].
  now destruct (String.eqb (cookie_name c) n).
Qed.

Lemma load_spec cs :
  forall m, NoDup (map fst m) ->
    let m' := fold_left (fun m cookie =>
                           mapSet (cookie_name cookie) (cookie_value cookie) m)
                        cs m in
    NoDup (map fst m')
    /\ forall n v, In (n, v) m' <->
                   match lastValue n cs with
                   | Some w => v = w
                   | None => In (n, v) m
                   end.
Proof.
  induction cs as [| c cs IH]; intros m Hnd; cbv zeta.
  - split; [assumption |]. intros n v. reflexivity.
  - cbn [fold_left].
    destruct (IH (mapSet (cookie_name c) (cookie_value c) m)
                 (@mapSet_NoDup (cookie_name c) (cookie_value c) m Hnd))
      as (Hnd' & Hin).
    split; [assumption |]. intros n v. rewrite Hin, lastValue_cons.
    destruct (lastValue n cs); [reflexivity |].
    rewrite (@mapSet_In (cookie_name c) (cookie_value c) m n v Hnd).
    destruct (String.eqb_spec (cookie_name c) n) as [<- | Hneq].
    + split; [intros [(_ & ->) | (Hn & _)]; congruence | auto].
    + split; [intros [(-> & _) | (_ & H)]; congruence | auto].
Qed.

Lemma mapSet_fresh k v m :
  ~ In k (map fst m) -> mapSet k v m = m ++ [(k, v)].
Proof.
  induction m as [| [k' v'] m IH]; intros Hk; [reflexivity |].
  cbn [mapSet]. destruct (String.eqb_spec k' k) as [-> | _].
  - exfalso. apply Hk. now left.
  - cbn [app]. rewrite IH; [reflexivity |]. intros Hin. apply Hk. now right.
Qed.

Lemma load_distinct cs :
  NoDup (map cookie_name cs) ->
  forall m, (forall c, In c cs -> ~ In (cookie_name c) (map fst m)) ->
    fold_left (fun m cookie =>
                 mapSet (cookie_name cookie) (cookie_value cookie) m) cs m
    = m ++ map (fun c => (cookie_name c, cookie_value c)) cs.
Proof.
  induction cs as [| c cs IH]; intros Hnd m Hm.
  - cbn. now rewrite app_nil_r.
  - inversion Hnd as [| ? ? Hc Hcs]; subst. cbn [fold_left map].
    rewrite mapSet_fresh by (apply Hm; now left).
    rewrite IH; [now rewrite <- app_assoc | assumption |].
    intros c' Hc'. rewrite map_app, in_app_iff. cbn.
    intros [Hin | [Heq | []]].
    + now apply (Hm c'); [right |].
    + apply Hc. rewrite Heq. now apply in_map.
Qed.

(** X30.  A cookie file that holds an array of cookies makes the
    handler authenticated, also when the array is empty.  The cookies
    kept have pairwise distinct names, and a name has the value that
    the file gives last for it.  When the names of the file are
    distinct, the Cookie header is the file's cookies in order, each as
    name=value, joined by a semicolon and a space. *)
Theorem cookie_header_has_the_last_value_of_each_name cs :
  let a := new (Holds cs) in
  authenticated a = true
  /\ NoDup (map fst (cookies a))
  /\ (forall n v, In (n, v) (cookies a) <-> lastValue n cs = Some v)
  /\ (NoDup (map cookie_name cs) ->
      getCookieHeader a
      = String.concat "; "
          (map (fun c => (cookie_name c ++ "=" ++ cookie_value c)%string) cs)).
Proof.
  cbv zeta. unfold new, loadCookies. cbn [fst cookies authenticated].
  split; [reflexivity |].
  destruct (@load_spec cs [] (NoDup_nil _)) as (Hnd & Hin).
  split; [assumption |]. split.
  - intros n v. rewrite Hin. destruct (lastValue n cs).
    + split; [now intros -> | now intros [= ->]].
    + split; [intros [] | discriminate].
  - intros Hdistinct. unfold getCookieHeader. cbn [cookies].
    rewrite (@load_distinct cs Hdistinct []) by (intros c _ []).
    cbn [app]. now rewrite map_map.
Qed.

Lemma cookie_header_has_the_last_value_of_each_name_witness :
  getCookieHeader (new (Holds session)) = "substack.sid=s3cr3t; substack.lli=1"
  /\ (In ("substack.sid", "s3cr3t") (cookies (new (Holds session))) <->
      lastValue "substack.sid" session = Some "s3cr3t").
Proof.
  split; [reflexivity |].
  apply (cookie_header_has_the_last_value_of_each_name session).
Defined.

End AuthProofs.
